(** * Port resolution core of vcpkg-tool: registries and port file providers

    A shallow embedding of [src/vcpkg/registries.cpp] and
    [src/vcpkg/portfileprovider.cpp], and the properties of the port
    resolution core stated over it.

    Conventions of the embedding:
    - [std::string], [StringView] and [StringLiteral] are [string]; a [char]
      is an [ascii];
    - [size_t] is a [Z] in [0, 2^64), the wrap-around of its subtraction is
      written out ([size_t_sub]);
    - [ExpectedL<T>] is [ExpectedL T]: a value or a [LocalizedString];
    - [Optional<T>] and nullable pointers are [option];
    - [std::map], [Cache] and the lock file's [std::multimap] are [gmap]s
      with string keys;
    - member functions that mutate members, print, or call git and the file
      system are written in the monad [M], which threads the state and
      stops where the process exits ([Checks::unreachable],
      [Checks::exit_maybe_upgrade]) or reads out of bounds.

    The first part of the file is the model, the second part its theorems. *)

From Stdlib Require Import ZArith Lia Bool Ascii String List Sorted Permutation.
From stdpp Require Import base option strings list gmap pretty sorting.
From Equations Require Import Equations.

Set Default Proof Using "Type".
Local Open Scope Z_scope.
#[local] Arguments String.append !_ _ / : simpl nomatch.

(** ** Strings ([vcpkg/base/strings.h], [vcpkg/base/stringview.h])

    The two headers are not among the sources. The spec names what the
    callers ask of them ("begins with", "contains", "starts with", the
    "substring after"); the functions below are these, on [string]. *)

Module Strings.

(** Modelled from the spec: [StringView::size()], the number of characters. *)
Definition size (s : string) : Z := Z.of_nat (String.length s).

(** Modelled from the spec: [StringView::operator[]], the character at
    [pos]; [None] when [pos] is past the end, where the C++ reads out of
    bounds. *)
Definition at_ (s : string) (pos : Z) : option ascii :=
  if pos <? 0 then None else String.get (Z.to_nat pos) s.

(** Modelled from the spec: [Strings::starts_with(s, pattern)], [s] begins
    with [pattern]. *)
Fixpoint starts_with (s pattern : string) {struct pattern} : bool :=
  match pattern, s with
  | EmptyString, _ => true
  | String p pattern', String c s' => Ascii.eqb c p && starts_with s' pattern'
  | String _ _, EmptyString => false
  end.

(** Modelled from the spec: [Strings::contains(haystack, needle)] for a
    string needle, [needle] occurs in [haystack]. *)
Fixpoint contains (haystack needle : string) : bool :=
  starts_with haystack needle ||
  match haystack with
  | EmptyString => false
  | String _ rest => contains rest needle
  end.

(** Modelled from the spec: [Strings::contains(haystack, ch)] for a single
    character. *)
Fixpoint contains_char (haystack : string) (ch : ascii) : bool :=
  match haystack with
  | EmptyString => false
  | String c rest => Ascii.eqb c ch || contains_char rest ch
  end.

(** Modelled from the spec: [StringView::substr(pos)], the substring from
    [pos] on. *)
Fixpoint substr (pos : nat) (s : string) : string :=
  match pos, s with
  | O, _ => s
  | S pos', String _ s' => substr pos' s'
  | S _, EmptyString => EmptyString
  end.

(** [std::equal(first1, first1 + n, first2)] of the C++ standard library:
    the first [n] characters of
    [a] and [b] agree. Reading past the end of either is out of bounds in
    C++ (the caller checks the sizes first) and gives [false] here. *)
Fixpoint std_equal (n : nat) (a b : string) : bool :=
  match n with
  | O => true
  | S n' =>
      match a, b with
      | String x a', String y b' => Ascii.eqb x y && std_equal n' a' b'
      | _, _ => false
      end
  end.

(** A NUL-terminated [char] array read as a C string: the characters before
    the first NUL. *)
Fixpoint c_str (chars : list ascii) : string :=
  match chars with
  | [] => EmptyString
  | c :: rest => if Ascii.eqb c zero then EmptyString else String c (c_str rest)
  end.

End Strings.

(** ** [size_t] *)

Definition SIZE_MAX : Z := 2 ^ 64 - 1.

(** Unsigned subtraction on [size_t]. *)
Definition size_t_sub (a b : Z) : Z := (a - b) mod 2 ^ 64.

(** ** Messages and [ExpectedL] ([vcpkg/base/messages.h], [expected.h]) *)

(** Modelled from the spec: [LocalizedString] and the message table are
    declared in [vcpkg/base/messages.h], which is not among the sources.
    The spec: every error carries a message, and deeper errors are wrapped
    with a prefix, not replaced. A message is kept as its identifier and
    its arguments, in the order of the call; a localized string is the
    list of its parts. *)
Inductive MessagePart : Type :=
| ErrorPrefix
| NotePrefix
| Msg (id : string) (args : list string)
| Raw (text : string).

Definition LocalizedString : Type := list MessagePart.

(** Modelled from the spec: [msg::format(m, args...)]. *)
Definition format (id : string) (args : list string) : LocalizedString :=
  [Msg id args].

(** Modelled from the spec: [msg::format_error(m, args...)], the message
    behind the error prefix. *)
Definition format_error (id : string) (args : list string) : LocalizedString :=
  [ErrorPrefix; Msg id args].

(** Modelled from the spec: [LocalizedString::from_raw] and [append_raw]. *)
Definition from_raw (s : string) : LocalizedString := [Raw s].
Definition append_raw (l : LocalizedString) (s : string) : LocalizedString :=
  l ++ [Raw s].

(** Modelled from the spec: [Strings::join] with a newline over localized
    strings. *)
Fixpoint join_lines (ls : list LocalizedString) : LocalizedString :=
  match ls with
  | [] => []
  | [l] => l
  | l :: rest => l ++ Raw (String "010"%char EmptyString) :: join_lines rest
  end.

(** Modelled from the spec: [ExpectedL<T>] ([vcpkg/base/expected.h], not
    among the sources), a value or the localized message of an error. *)
Inductive ExpectedL (T : Type) : Type :=
| Value (t : T)
| Error (e : LocalizedString).
Arguments Value {T} t.
Arguments Error {T} e.

(** Modelled from the spec: [ExpectedL::map]. *)
Definition expected_map {T U : Type} (f : T -> U) (e : ExpectedL T) : ExpectedL U :=
  match e with
  | Value t => Value (f t)
  | Error err => Error err
  end.

(** Modelled from the spec: [ExpectedL::get()], the value, or a null
    pointer for an error. *)
Definition expected_get {T : Type} (e : ExpectedL T) : option T :=
  match e with
  | Value t => Some t
  | Error _ => None
  end.

(** ** Paths ([vcpkg/base/files.h]) *)

Definition Path : Type := string.

(** Modelled from the spec: [Path::operator/] is declared in
    [vcpkg/base/files.h], which is not among the sources; the spec writes a
    joined path as the two parts around a [/]
    ([<versions-root>/<first-letter>-/<port-name>.json]). An empty left
    side, or one that already ends in a separator, takes no separator. *)
Definition path_join (lhs : Path) (rhs : string) : Path :=
  match String.length lhs with
  | O => rhs
  | S n =>
      if bool_decide (String.get n lhs = Some "/"%char)
      then lhs +:+ rhs
      else lhs +:+ "/" +:+ rhs
  end.
Infix "</>" := path_join (at level 40, left associativity).

(** Modelled from the spec: [Path::operator+], plain concatenation of the
    native strings. *)
Definition path_plus (lhs : Path) (rhs : string) : Path := lhs +:+ rhs.

(** ** The monad of member functions *)

(** The ways a call ends the process instead of returning. *)
Inductive Halt : Type :=
| Unreachable (what : string)   (* Checks::unreachable *)
| ExitFailure                   (* Checks::check_exit, exit_maybe_upgrade *)
| OutOfBounds.                  (* an index or iterator outside its range *)

Inductive Outcome (A : Type) : Type :=
| Done (a : A)
| Halted (h : Halt).
Arguments Done {A} a.
Arguments Halted {A} h.

Definition M (St A : Type) : Type := St -> Outcome (A * St).

Definition M_ret {St A : Type} (a : A) : M St A := fun s => Done (a, s).

Definition M_bind {St A B : Type} (f : A -> M St B) (m : M St A) : M St B :=
  fun s =>
    match m s with
    | Done (a, s') => f a s'
    | Halted h => Halted h
    end.

#[export] Instance M_mret {St} : MRet (M St) := @M_ret St.
#[export] Instance M_mbind {St} : MBind (M St) := @M_bind St.

Definition M_get {St : Type} : M St St := fun s => Done (s, s).
Definition M_gets {St A : Type} (f : St -> A) : M St A := fun s => Done (f s, s).
Definition M_modify {St : Type} (f : St -> St) : M St unit := fun s => Done (tt, f s).
Definition M_halt {St A : Type} (h : Halt) : M St A := fun _ => Halted h.

(** Runs an operation of a component on the part of the state it owns. *)
Definition M_zoom {St Sub A : Type} (get : St -> Sub) (set : Sub -> St -> St)
    (m : M Sub A) : M St A :=
  fun s =>
    match m (get s) with
    | Done (a, sub) => Done (a, set sub s)
    | Halted h => Halted h
    end.

(** Modelled from the spec: [CacheSingle<T>::get_lazy] is declared in
    [vcpkg/base/cache.h], which is not among the sources. The spec: a lazy
    once-cell; the first completed load is memoized, errors included, and
    a failed load is not retried. *)
Definition CacheSingle_get_lazy {St T : Type}
    (get : St -> option T) (set : T -> St -> St) (f : M St T) : M St T :=
  cached ← M_gets get;
  match cached with
  | Some v => mret v
  | None => v ← f; _ ← M_modify (set v); mret v
  end.

(** Modelled from the spec: [Cache<Key, T>::get_lazy] ([vcpkg/base/cache.h]),
    for string keys: an insert-only map with the same lazy loading. *)
Definition Cache_get_lazy {St T : Type}
    (get : St -> gmap string T) (set : gmap string T -> St -> St)
    (k : string) (f : M St T) : M St T :=
  cache ← M_gets get;
  match cache !! k with
  | Some v => mret v
  | None =>
      v ← f;
      _ ← M_modify (fun s => set (<[k := v]> (get s)) s);
      mret v
  end.

(** ** Pattern routing: [package_pattern_match] and [RegistrySet] *)

Module Routing.

(** [package_pattern_match] (registries.cpp). *)
Definition package_pattern_match (name pattern : string) : Z :=
  let pattern_size := Strings.size pattern in
  let maybe_star_index := size_t_sub pattern_size 1 in
  if negb (pattern_size =? 0)
     && bool_decide (Strings.at_ pattern maybe_star_index = Some "*"%char)
  then
    (* pattern ends in wildcard *)
    if (maybe_star_index <=? Strings.size name)
       && Strings.std_equal (Z.to_nat maybe_star_index) pattern name
    then pattern_size
    else 0
  else if String.eqb name pattern then
    (* exact match is like matching "infinity" prefix *)
    SIZE_MAX
  else 0.

(** [std::stable_sort(first, last, comp)]. The standard fixes its result:
    the range ordered by [comp], elements that [comp] does not order keeping
    their relative order. It is written here as the insertion sort that
    puts each element in front of the sorted rest, behind the elements that
    [comp] orders before it. *)
Fixpoint stable_insert {A : Type} (comp : A -> A -> bool) (x : A) (l : list A) : list A :=
  match l with
  | [] => [x]
  | y :: l' => if comp y x then y :: stable_insert comp x l' else x :: y :: l'
  end.

Fixpoint stable_sort {A : Type} (comp : A -> A -> bool) (l : list A) : list A :=
  match l with
  | [] => []
  | x :: l' => stable_insert comp x (stable_sort comp l')
  end.

Section registry_set.

(** [Impl] stands for [const RegistryImplementation*], never null inside a
    [Registry] (its constructor checks). *)
Context {Impl : Type}.

Record Registry : Type := mkRegistry {
  patterns : list string;
  implementation : Impl;
}.

Record RegistrySet : Type := mkRegistrySet {
  registries : list Registry;
  default_registry : option Impl;
}.

Record RegistryCandidate : Type := mkCandidate {
  impl : Impl;
  matched_prefix : Z;
}.

(** The inner loop of [registries_for_port]:
    [longest_prefix = std::max(longest_prefix, package_pattern_match(name, pattern))]. *)
Definition longest_prefix (name : string) (pats : list string) : Z :=
  fold_left (fun longest pattern => Z.max longest (package_pattern_match name pattern))
            pats 0.

(** The outer loop: one candidate for each registry with a match, pushed
    in the order of the registries. *)
Definition collect_candidates (name : string) (regs : list Registry)
    : list RegistryCandidate :=
  fold_left
    (fun candidates registry =>
       let lp := longest_prefix name (patterns registry) in
       if negb (lp =? 0)
       then candidates ++ [mkCandidate (implementation registry) lp]
       else candidates)
    regs [].

(** The comparison handed to [std::stable_sort]. *)
Definition candidate_before (lhs rhs : RegistryCandidate) : bool :=
  matched_prefix rhs <? matched_prefix lhs.

(** [RegistrySet::registries_for_port]. *)
Definition registries_for_port (rs : RegistrySet) (name : string) : list Impl :=
  let candidates := collect_candidates name (registries rs) in
  match candidates with
  | [] => []
  | _ :: _ => map impl (stable_sort candidate_before candidates)
  end.

(** [RegistrySet::registry_for_port]. *)
Definition registry_for_port (rs : RegistrySet) (name : string) : option Impl :=
  match registries_for_port rs name with
  | [] => default_registry rs
  | first :: _ => Some first
  end.

End registry_set.

Arguments Registry : clear implicits.
Arguments RegistrySet : clear implicits.
Arguments RegistryCandidate : clear implicits.

End Routing.

(** ** JSON values and the reader ([vcpkg/base/json.h], [jsonreader.h]) *)

Module Json.

#[local] Set Warnings "-register-all".

(** Modelled from the spec: [Json::Value] is declared in
    [vcpkg/base/json.h], which is not among the sources; the spec gives the
    files as JSON objects, arrays, strings and numbers. *)
Inductive Value : Type :=
| Null
| Boolean (b : bool)
| Integer (i : Z)
| Number (repr : string)
| Str (s : string)
| Array (elems : list Value)
| Object (fields : list (string * Value)).

(** Modelled from the spec: [Json::Object], the fields in the order of the
    file. *)
Definition Obj : Type := list (string * Value).

(** Modelled from the spec: [Object::get(key)], the value of the first
    field named [key], or null. *)
Fixpoint get (obj : Obj) (key : string) : option Value :=
  match obj with
  | [] => None
  | (k, v) :: rest => if String.eqb k key then Some v else get rest key
  end.

Definition is_object (v : Value) : bool :=
  match v with Object _ => true | _ => false end.

Definition is_array (v : Value) : bool :=
  match v with Array _ => true | _ => false end.

(** Modelled from the spec: [Json::Reader] is declared in
    [vcpkg/base/jsonreader.h], which is not among the sources. What the
    callers read of it is its list of errors ([r.errors()]), which only
    grows; the reader is that list. *)
Definition Reader : Type := list LocalizedString.

Definition add_generic_error (type : LocalizedString) (message : LocalizedString)
    (r : Reader) : Reader :=
  r ++ [type ++ Raw ": " :: message].

Definition add_expected_type_error (expected_type : LocalizedString) (r : Reader) : Reader :=
  r ++ [format "MismatchedType" [] ++ expected_type].

Definition add_missing_field_error (type : LocalizedString) (key : string)
    (key_type : LocalizedString) (r : Reader) : Reader :=
  r ++ [type ++ format "MissingRequiredField" [key] ++ key_type].

(** Modelled from the spec: [Json::IDeserializer<T>] ([jsonreader.h]);
    [visit] dispatches on the kind of the value to the [visit_...] member
    the deserializer overrides, and gives [nullopt] for the kinds it does
    not. *)
Record IDeserializer (T : Type) : Type := mkDeserializer {
  type_name : LocalizedString;
  visit : Value -> Reader -> option T * Reader;
}.
Arguments mkDeserializer {T} type_name visit.
Arguments type_name {T} _.
Arguments visit {T} _ _ _.

(** Modelled from the spec: [Reader::visit_in_key(value, key, place,
    visitor)]; [place] is overwritten when the visitor gives a value, and a
    type error is added when it does not. *)
Definition visit_in_key {T : Type} (value : Value) (key : string) (place : T)
    (visitor : IDeserializer T) (r : Reader) : T * Reader :=
  match visit visitor value r with
  | (Some v, r') => (v, r')
  | (None, r') => (place, add_expected_type_error (type_name visitor) r')
  end.

(** Modelled from the spec: [Reader::required_object_field(type, obj, key,
    place, visitor)]; a field that is absent is an error and leaves
    [place] as it is. *)
Definition required_object_field {T : Type} (type : LocalizedString) (obj : Obj)
    (key : string) (place : T) (visitor : IDeserializer T) (r : Reader) : T * Reader :=
  match get obj key with
  | Some value => visit_in_key value key place visitor r
  | None => (place, add_missing_field_error type key (type_name visitor) r)
  end.

(** Modelled from the spec: [Reader::array_elements(arr, visitor)], the
    elements the visitor accepts, in order; a type error for each one it
    does not. *)
Fixpoint array_elements {T : Type} (arr : list Value) (visitor : IDeserializer T)
    (r : Reader) : list T * Reader :=
  match arr with
  | [] => ([], r)
  | elem :: rest =>
      match visit visitor elem r with
      | (Some v, r') =>
          let '(vs, r'') := array_elements rest visitor r' in (v :: vs, r'')
      | (None, r') =>
          array_elements rest visitor (add_expected_type_error (type_name visitor) r')
      end
  end.

(** Modelled from the spec: [Json::StringDeserializer], which accepts a
    string and gives it back. *)
Definition StringDeserializer (name : LocalizedString) : IDeserializer string :=
  mkDeserializer name
    (fun value r => match value with Str s => (Some s, r) | _ => (None, r) end).

End Json.

(** ** Versions and recipes ([vcpkg/versions.h], [sourceparagraph.h]) *)

(** Modelled from the spec: [VersionScheme] ([vcpkg/versions.h]); the core
    only transports it. *)
Inductive VersionScheme : Type :=
| SchemeMissing | SchemeRelaxed | SchemeSemver | SchemeDate | SchemeString.

(** Modelled from the spec: [Version] is declared in [vcpkg/versions.h],
    which is not among the sources. The spec: a version string with a
    [port-version] number, exactly as written in the JSON; two versions are
    equal when both agree. *)
Record Version : Type := mkVersion {
  version_text : string;
  port_version : Z;
}.

#[export] Instance Version_eq_dec : EqDecision Version.
Proof. solve_decision. Defined.

(** Modelled from the spec: [SchemedVersion], a scheme and a version. *)
Record SchemedVersion : Type := mkSchemedVersion {
  sv_scheme : VersionScheme;
  sv_version : Version;
}.

(** Modelled from the spec: [VersionSpec], the primary query key. *)
Record VersionSpec : Type := mkVersionSpec {
  port_name : string;
  version : Version;
}.

#[export] Instance VersionSpec_eq_dec : EqDecision VersionSpec.
Proof. solve_decision. Defined.

(** Modelled from the spec: [PathAndLocation] ([vcpkg/registries.h], not
    among the sources), the directory of a checked-out recipe and its
    location string. *)
Record PathAndLocation : Type := mkPathAndLocation {
  pal_path : Path;
  pal_location : string;
}.

(** Modelled from the spec: [SourceControlFile] ([sourceparagraph.h]), the
    opaque recipe; what the core reads of it is the name and the version of
    its core paragraph. *)
Record SourceControlFile : Type := mkScf {
  scf_name : string;
  scf_version : Version;
}.

(** Modelled from the spec: [SourceControlFileAndLocation]
    ([sourceparagraph.h]); [source_control_file] is a [unique_ptr], null
    for "no port here". *)
Record SourceControlFileAndLocation : Type := mkScfl {
  source_control_file : option SourceControlFile;
  control_path : Path;
  spdx_location : string;
}.

(** [std::error_code] of the C++ standard library: [0] is success;
    [std::errc::no_such_file_or_directory] is [ENOENT]. *)
Definition error_code : Type := Z.
Definition no_such_file_or_directory : error_code := 2.

(** Modelled from the spec: [format_filesystem_call_error(ec, call_name,
    args)] ([vcpkg/base/files.h]), the message of a failed file system
    call. *)
Definition format_filesystem_call_error (ec : error_code) (call_name : string)
    (args : list Path) : LocalizedString :=
  [ErrorPrefix; Msg "FilesystemCallError" (call_name :: args)].

(** ** The collaborators outside the core

    The file system, git, the JSON parser and the recipe parser are not
    part of the sources: the core is stated for any of them. [World] is
    whatever git and the disk hold; an operation that may change it takes
    it and gives it back. *)
Class Externals : Type := {
  World : Type;
  ReadOnlyFilesystem : Type;
  (* VcpkgPaths::get_filesystem *)
  get_filesystem : World -> ReadOnlyFilesystem;
  (* ReadOnlyFilesystem::read_contents(path, ec) *)
  read_contents : ReadOnlyFilesystem -> Path -> string * error_code;
  (* Json::parse(text, origin): the value, or the text of the parse error *)
  Json_parse : string -> string -> ExpectedL Json.Value;
  (* visit_required_schemed_deserializer (versiondeserializers.cpp) *)
  visit_required_schemed_deserializer :
    LocalizedString -> Json.Obj -> Json.Reader -> SchemedVersion * Json.Reader;
  (* get_versiontag_deserializer_instance *)
  versiontag_deserializer : Json.IDeserializer Version;
  (* VcpkgPaths::git_fetch_from_remote_registry(repo, reference) *)
  git_fetch_from_remote_registry : string -> string -> World -> ExpectedL string * World;
  (* VcpkgPaths::git_find_object_id_for_remote_registry_path(commit, path) *)
  git_find_object_id_for_remote_registry_path :
    string -> string -> World -> ExpectedL string * World;
  (* VcpkgPaths::git_extract_tree_from_remote_registry(tree) *)
  git_extract_tree_from_remote_registry : string -> World -> ExpectedL Path * World;
  (* Paragraphs::try_load_port(fs, port_name, path) *)
  try_load_port :
    ReadOnlyFilesystem -> string -> Path -> ExpectedL (option SourceControlFile);
  (* Paragraphs::try_load_port(fs, PortLocation{path}).maybe_scfl *)
  try_load_port_location :
    ReadOnlyFilesystem -> Path -> ExpectedL SourceControlFileAndLocation;
  (* Paragraphs::try_load_overlay_ports(fs, dir): paragraphs and errors *)
  try_load_overlay_ports :
    ReadOnlyFilesystem -> Path ->
    list SourceControlFileAndLocation * list (string * LocalizedString);
}.

(** ** The version database: entries and [load_versions_file] *)

Module VersionDb.

(** Modelled from the spec: [VersionDbType] ([vcpkg/registries.h]), the
    two variants of a version database. *)
Inductive VersionDbType : Type := Git | Filesystem.

#[export] Instance VersionDbType_eq_dec : EqDecision VersionDbType.
Proof. solve_decision. Defined.

(** Modelled from the spec: [VersionDbEntry] ([vcpkg/registries.h], not
    among the sources); [git_tree] is set for the git variant, [p] for the
    filesystem variant. *)
Record VersionDbEntry : Type := mkEntry {
  entry_version : Version;
  entry_scheme : VersionScheme;
  git_tree : string;
  p : Path;
}.

Definition GIT_TREE : string := "git-tree".
Definition PATH : string := "path".

(** [std::find(first, last, ch)] of the C++ standard library, over the
    characters from [first] to the
    end of the string: the suffix that starts at the first [ch], empty
    (the iterator [last]) when there is none. *)
Fixpoint std_find (first : string) (ch : ascii) : string :=
  match first with
  | EmptyString => EmptyString
  | String c rest => if Ascii.eqb c ch then first else std_find rest ch
  end.

Definition inspect {A : Type} (a : A) : {b : A | a = b} := exist _ a eq_refl.

(** The loop of [VersionDbEntryDeserializer::visit_object] that looks for a
    path element [.] or [..]: [first] is the iterator the [for] statement
    carries (as the rest of the string from it), the result is [false]
    where the loop reports [msgARegistryPathMustNotHaveDots] and [true]
    where it leaves through a [break]. *)
Equations? dots_loop (first : string) : bool by wf (String.length first) lt :=
dots_loop first with inspect (std_find first "/") := {
  | exist _ EmptyString _ => true                       (* candidate == last *)
  | exist _ (String _ EmptyString) _ => true            (* ++candidate == last *)
  | exist _ (String _ (String c1 after1)) Hfind =>
      if negb (Ascii.eqb c1 ".") then
        dots_loop (String c1 after1)                    (* continue *)
      else
        (* ++candidate *)
        match after1 as a return after1 = a -> bool with
        | EmptyString => fun _ => false                 (* candidate == last *)
        | String c2 after2 => fun Hafter1 =>
            if Ascii.eqb c2 "/" then false
            else if negb (Ascii.eqb c2 ".") then
              dots_loop (String c2 after2)              (* first = candidate; continue *)
            else
              (* ++candidate *)
              match after2 as a return after2 = a -> bool with
              | EmptyString => fun _ => false           (* candidate == last *)
              | String c3 after3 => fun Hafter2 =>
                  if Ascii.eqb c3 "/" then false
                  else dots_loop (String c3 after3)     (* first = candidate *)
              end eq_refl
        end eq_refl
  }.
Proof.
  all: assert (forall s ch, (String.length (std_find s ch) <= String.length s)%nat)
    as Hfind_length
    by (intros s ch; induction s as [|c s IH]; simpl;
        [lia | destruct (Ascii.eqb c ch); simpl; lia]).
  all: specialize (Hfind_length first "/"%char).
  all: rewrite Hfind in Hfind_length; subst; simpl in *; lia.
Qed.

Section deserializer.
Context `{Externals}.

Definition GitTreeStringDeserializer : Json.IDeserializer string :=
  Json.StringDeserializer (format "AGitObjectSha" []).

Definition RegistryPathStringDeserializer : Json.IDeserializer string :=
  Json.StringDeserializer (format "ARegistryPath" []).

(** [VersionDbEntryDeserializer::type_name]. *)
Definition entry_type_name : LocalizedString := format "AVersionDatabaseEntry" [].

(** [VersionDbEntryDeserializer::visit_object]. *)
Definition visit_object (type : VersionDbType) (registry_root : Path)
    (obj : Json.Obj) (r : Json.Reader) : option VersionDbEntry * Json.Reader :=
  let '(schemed_version, r) :=
    visit_required_schemed_deserializer entry_type_name obj r in
  let ret := mkEntry (sv_version schemed_version) (sv_scheme schemed_version)
                     EmptyString EmptyString in
  match type with
  | Git =>
      let '(tree, r) :=
        Json.required_object_field entry_type_name obj GIT_TREE (git_tree ret)
          GitTreeStringDeserializer r in
      (Some (mkEntry (entry_version ret) (entry_scheme ret) tree (p ret)), r)
  | Filesystem =>
      let '(path_res, r) :=
        Json.required_object_field entry_type_name obj PATH EmptyString
          RegistryPathStringDeserializer r in
      if negb (Strings.starts_with path_res "$/") then
        (None, Json.add_generic_error (format "ARegistryPath" [])
                 (format "ARegistryPathMustStartWithDollar" []) r)
      else if Strings.contains_char path_res "\" || Strings.contains path_res "//" then
        (None, Json.add_generic_error (format "ARegistryPath" [])
                 (format "ARegistryPathMustBeDelimitedWithForwardSlashes" []) r)
      else if negb (dots_loop path_res) then
        (None, Json.add_generic_error (format "ARegistryPath" [])
                 (format "ARegistryPathMustNotHaveDots" []) r)
      else
        (Some (mkEntry (entry_version ret) (entry_scheme ret) (git_tree ret)
                       (registry_root </> Strings.substr 2 path_res)), r)
  end.

(** [VersionDbEntryDeserializer] as a deserializer: only [visit_object] is
    overridden. *)
Definition VersionDbEntryDeserializer (type : VersionDbType) (root : Path)
    : Json.IDeserializer VersionDbEntry :=
  Json.mkDeserializer entry_type_name
    (fun value r =>
       match value with
       | Json.Object obj => visit_object type root obj r
       | _ => (None, r)
       end).

(** [VersionDbEntryArrayDeserializer]: only [visit_array] is overridden. *)
Definition VersionDbEntryArrayDeserializer (type : VersionDbType) (root : Path)
    : Json.IDeserializer (list VersionDbEntry) :=
  Json.mkDeserializer (format "AnArrayOfVersions" [])
    (fun value r =>
       match value with
       | Json.Array arr =>
           let '(entries, r') :=
             Json.array_elements arr (VersionDbEntryDeserializer type root) r in
           (Some entries, r')
       | _ => (None, r)
       end).

(** [relative_path_to_versions]: [port_name[0]] is read with no check, out
    of bounds for the empty name. *)
Definition relative_path_to_versions (port_name : string) : Outcome Path :=
  match Strings.at_ port_name 0 with
  | None => Halted OutOfBounds
  | Some c0 =>
      let prefix := Strings.c_str [c0; "-"%char; zero] in
      Done (path_plus (prefix </> port_name) ".json")
  end.

(** [load_versions_file]. *)
Definition load_versions_file (fs : ReadOnlyFilesystem) (type : VersionDbType)
    (registry_versions : Path) (port_name : string) (registry_root : Path)
    : Outcome (ExpectedL (option (list VersionDbEntry))) :=
  if bool_decide (type = Filesystem) && bool_decide (registry_root = EmptyString)
  then Halted (Unreachable "type should never = Filesystem when registry_root is empty.")
  else
    match relative_path_to_versions port_name with
    | Halted h => Halted h
    | Done relative =>
        let versions_file_path := registry_versions </> relative in
        let '(contents, ec) := read_contents fs versions_file_path in
        if negb (ec =? 0) then
          if ec =? no_such_file_or_directory
          then Done (Value None)
          else Done (Error (format_filesystem_call_error ec "read_contents"
                              [versions_file_path]))
        else
          match Json_parse contents EmptyString with
          | Error parse_error => Done (Error parse_error)
          | Value versions_json =>
              match versions_json with
              | Json.Object versions_object =>
                  match Json.get versions_object "versions" with
                  | Some (Json.Array arr as versions_array) =>
                      let '(db_entries, r) :=
                        Json.visit_in_key versions_array "versions" []
                          (VersionDbEntryArrayDeserializer type registry_root) [] in
                      match r with
                      | [] => Done (Value (Some db_entries))
                      | _ :: _ =>
                          Done (Error (format_error "FailedToParseVersionsFile"
                                         [versions_file_path] ++ join_lines r))
                      end
                  | _ =>
                      Done (Error (format_error "FailedToParseNoVersionsArray"
                                     [versions_file_path]))
                  end
              | _ =>
                  Done (Error (format_error "FailedToParseNoTopLevelObj"
                                 [versions_file_path]))
              end
          end
    end.

End deserializer.

End VersionDb.

(** ** Baselines: [parse_baseline_versions] *)

(** [std::map::emplace(key, value)] of the C++ standard library: a key that
    is present keeps its value. *)
Definition map_emplace {V : Type} (k : string) (v : V) (m : gmap string V) : gmap string V :=
  match m !! k with
  | Some _ => m
  | None => <[k := v]> m
  end.

Module BaselineParse.

Section parse.
Context `{Externals}.

(** [Baseline] is [std::map<std::string, Version, std::less<>>]:
    [gmap string Version]. *)

(** [BaselineDeserializer::visit_object]: one version per field. *)
Definition baseline_visit_object (obj : Json.Obj) (r : Json.Reader)
    : option (gmap string Version) * Json.Reader :=
  let '(result, r') :=
    fold_left
      (fun (acc : gmap string Version * Json.Reader) (pr : string * Json.Value) =>
         let '(result, r) := acc in
         let '(version, r) :=
           Json.visit_in_key (snd pr) (fst pr) (mkVersion EmptyString 0)
             versiontag_deserializer r in
         (map_emplace (fst pr) version result, r))
      obj (∅, r) in
  (Some result, r').

Definition BaselineDeserializer : Json.IDeserializer (gmap string Version) :=
  Json.mkDeserializer (format "ABaselineObject" [])
    (fun value r =>
       match value with
       | Json.Object obj => baseline_visit_object obj r
       | _ => (None, r)
       end).

(** [parse_baseline_versions]: [Value None] is "the baseline is valid but
    does not contain the requested baseline". *)
Definition parse_baseline_versions (contents baseline origin : string)
    : ExpectedL (option (gmap string Version)) :=
  match Json_parse contents origin with
  | Error parse_error => Error parse_error
  | Value value =>
      match value with
      | Json.Object obj =>
          let real_baseline :=
            if Strings.size baseline =? 0 then "default"%string else baseline in
          match Json.get obj real_baseline with
          | None => Value None
          | Some baseline_value =>
              let '(result, r) :=
                Json.visit_in_key baseline_value real_baseline ∅
                  BaselineDeserializer [] in
              match r with
              | [] => Value (Some result)
              | _ :: _ =>
                  Error (append_raw (format_error "FailedToParseBaseline" [origin])
                           (String "010"%char EmptyString)
                         ++ join_lines r)
              end
          end
      | _ => Error (format_error "FailedToParseNoTopLevelObj" [origin])
      end
  end.

End parse.

End BaselineParse.

(** ** The lock file ([LockFile], [LockFile::Entry]) *)

(** What a call leaves behind outside the objects of the core: the lines it
    printed, the metrics it defined, and the git commands it ran. *)
Inductive Event : Type :=
| Println (message : LocalizedString)
| PrintlnWarning (message : LocalizedString)
| PrintError (message : LocalizedString)
| TrackDefine (metric : string)
| GitFetchFromRemoteRegistry (repo reference : string)
| GitFindObjectId (commit path : string)
| GitExtractTree (tree : string).

Module Lock.

(** Modelled from the spec: [LockFile::EntryData] ([vcpkg/registries.h],
    not among the sources), the reference, the commit and the stale flag of
    a lock entry. *)
Record EntryData : Type := mkEntryData {
  reference : string;
  commit_id : string;
  stale : bool;
}.

(** Modelled from the spec: [LockFile] ([vcpkg/registries.h]); [lockdata]
    is a [std::multimap] from the repository to its entries, here the
    entries of each repository in the order of the multimap (an [emplace]
    goes behind the entries of its key), and [modified] says whether to
    write the file back. *)
Record LockFile : Type := mkLockFile {
  lockdata : gmap string (list EntryData);
  modified : bool;
}.

(** Modelled from the spec: [LockFile::Entry] ([vcpkg/registries.h]), a
    pointer to the lock file and an iterator into [lockdata]. There is one lock file ([paths.get_installed_lockfile()]);
    the iterator is the key and the position among the entries of the key.
    Entries are never erased, so an iterator stays good. *)
Record Entry : Type := mkEntryRef {
  data_repo : string;
  data_index : nat;
}.

Section lock.
Context `{Externals}.

(** The part of [VcpkgPaths] that calls change: the world behind git and
    the disk, what was printed and run, and the installed lock file. *)
Record Paths : Type := mkPaths {
  world : World;
  trace : list Event;
  installed_lockfile : LockFile;
}.

Definition log (e : Event) : M Paths unit :=
  M_modify (fun s => mkPaths (world s) (trace s ++ [e]) (installed_lockfile s)).

Definition set_lockfile (f : LockFile -> LockFile) : M Paths unit :=
  M_modify (fun s => mkPaths (world s) (trace s) (f (installed_lockfile s))).

(** [paths.git_fetch_from_remote_registry(repo, reference)]. *)
Definition paths_git_fetch_from_remote_registry (repo reference : string)
    : M Paths (ExpectedL string) :=
  _ ← log (GitFetchFromRemoteRegistry repo reference);
  s ← M_get;
  let '(result, w) := git_fetch_from_remote_registry repo reference (world s) in
  _ ← M_modify (fun s => mkPaths w (trace s) (installed_lockfile s));
  mret result.

(** The equal range of [repo]. *)
Definition equal_range (lf : LockFile) (repo : string) : list EntryData :=
  default [] (lockdata lf !! repo).

(** [std::find_if] over the range for the entry of [reference]. *)
Fixpoint find_reference (range : list EntryData) (ref : string) : option nat :=
  match range with
  | [] => None
  | entry :: rest =>
      if String.eqb (reference entry) ref then Some O
      else S <$> find_reference rest ref
  end.

(** [LockFile::get_or_fetch]. *)
Definition get_or_fetch (repo ref : string) : M Paths (ExpectedL Entry) :=
  lf ← M_gets installed_lockfile;
  let range := equal_range lf repo in
  match find_reference range ref with
  | Some it => mret (Value (mkEntryRef repo it))
  | None =>
      _ ← log (Println (format "FetchingRegistryInfo" [repo; ref]));
      maybe_commit ← paths_git_fetch_from_remote_registry repo ref;
      match maybe_commit with
      | Value commit =>
          _ ← set_lockfile (fun lf =>
                 mkLockFile
                   (<[repo := equal_range lf repo ++ [mkEntryData ref commit false]]>
                      (lockdata lf))
                   (modified lf));
          _ ← set_lockfile (fun lf => mkLockFile (lockdata lf) true);
          mret (Value (mkEntryRef repo (length range)))
      | Error e => mret (Error e)
      end
  end.

(** [*data]: the entry behind the iterator. *)
Definition entry_data (lf : LockFile) (entry : Entry) : option EntryData :=
  equal_range lf (data_repo entry) !! data_index entry.

Definition deref (entry : Entry) : M Paths EntryData :=
  lf ← M_gets installed_lockfile;
  match entry_data lf entry with
  | Some d => mret d
  | None => M_halt OutOfBounds
  end.

(** [Entry::commit_id()] and [Entry::stale()]. *)
Definition entry_commit_id (entry : Entry) : M Paths string :=
  d ← deref entry; mret (commit_id d).
Definition entry_stale (entry : Entry) : M Paths bool :=
  d ← deref entry; mret (stale d).

(** Assignment through the iterator: [data->second = d]. *)
Definition assign_data (entry : Entry) (f : EntryData -> EntryData) : M Paths unit :=
  set_lockfile (fun lf =>
    mkLockFile
      (<[data_repo entry :=
           alter f (data_index entry) (equal_range lf (data_repo entry))]>
         (lockdata lf))
      (modified lf)).

(** [LockFile::Entry::ensure_up_to_date]. *)
Definition ensure_up_to_date (entry : Entry) : M Paths (ExpectedL unit) :=
  d ← deref entry;
  if stale d then
    let repo := data_repo entry in
    let ref := reference d in
    _ ← log (Println (format "FetchingRegistryInfo" [repo; ref]));
    maybe_commit_id ← paths_git_fetch_from_remote_registry repo ref;
    match maybe_commit_id with
    | Value new_commit_id =>
        _ ← assign_data entry (fun d => mkEntryData (reference d) new_commit_id (stale d));
        _ ← assign_data entry (fun d => mkEntryData (reference d) (commit_id d) false);
        _ ← set_lockfile (fun lf => mkLockFile (lockdata lf) true);
        mret (Value tt)
    | Error e => mret (Error e)
    end
  else mret (Value tt).

End lock.

End Lock.

(** ** The git registry ([GitRegistry]) *)

Module GitRegistry.

Import VersionDb Lock.

(** [PortVersionsGitTreesStructOfArrays]: [m_git_trees[i]] is the git tree
    of [m_port_versions[i]]. *)
Record PortVersionsGitTreesStructOfArrays : Type := mkSoA {
  m_port_versions : list Version;
  m_git_trees : list string;
}.

(** [assign]: the versions and the trees of the entries, pushed back in
    their order. *)
Definition assign (db_entries : list VersionDbEntry) : PortVersionsGitTreesStructOfArrays :=
  fold_left
    (fun soa entry =>
       mkSoA (m_port_versions soa ++ [entry_version entry])
             (m_git_trees soa ++ [git_tree entry]))
    db_entries (mkSoA [] []).

(** [std::find(begin, end, version) - begin]. *)
Fixpoint find_version (versions : list Version) (v : Version) : option nat :=
  match versions with
  | [] => None
  | x :: rest => if decide (x = v) then Some O else S <$> find_version rest v
  end.

(** [try_get_git_tree]: the tree at the position of the first equal
    version, null when there is none. *)
Definition try_get_git_tree (soa : PortVersionsGitTreesStructOfArrays) (v : Version)
    : option string :=
  match find_version (m_port_versions soa) v with
  | Some i => m_git_trees soa !! i
  | None => None
  end.

Section git_registry.
Context `{Externals}.

Definition registry_versions_dir_name : string := "versions".

(** The members of a [GitRegistry]; the caches start empty. *)
Record Members : Type := mkMembers {
  m_repo : string;
  m_reference : string;
  m_baseline_identifier : string;
  m_lock_entry : option (ExpectedL Entry);
  m_stale_versions_tree : option (ExpectedL Path);
  m_versions_tree : option (ExpectedL Path);
  m_stale_versions : gmap string (ExpectedL (option PortVersionsGitTreesStructOfArrays));
  m_live_versions : gmap string (ExpectedL (option PortVersionsGitTreesStructOfArrays));
}.

(** A registry and the [VcpkgPaths] it refers to ([m_paths]). *)
Record State : Type := mkState {
  m_paths : Paths;
  this : Members;
}.

Definition on_paths {A : Type} (m : M Paths A) : M State A :=
  M_zoom m_paths (fun paths s => mkState paths (this s)) m.

Definition set_this (f : Members -> Members) (s : State) : State :=
  mkState (m_paths s) (f (this s)).

Definition set_m_lock_entry (v : ExpectedL Entry) : State -> State :=
  set_this (fun t =>
    mkMembers (m_repo t) (m_reference t) (m_baseline_identifier t) (Some v)
      (m_stale_versions_tree t) (m_versions_tree t) (m_stale_versions t)
      (m_live_versions t)).

Definition set_m_stale_versions_tree (v : ExpectedL Path) : State -> State :=
  set_this (fun t =>
    mkMembers (m_repo t) (m_reference t) (m_baseline_identifier t) (m_lock_entry t)
      (Some v) (m_versions_tree t) (m_stale_versions t) (m_live_versions t)).

Definition set_m_versions_tree (v : ExpectedL Path) : State -> State :=
  set_this (fun t =>
    mkMembers (m_repo t) (m_reference t) (m_baseline_identifier t) (m_lock_entry t)
      (m_stale_versions_tree t) (Some v) (m_stale_versions t) (m_live_versions t)).

Definition set_m_stale_versions
    (c : gmap string (ExpectedL (option PortVersionsGitTreesStructOfArrays)))
    : State -> State :=
  set_this (fun t =>
    mkMembers (m_repo t) (m_reference t) (m_baseline_identifier t) (m_lock_entry t)
      (m_stale_versions_tree t) (m_versions_tree t) c (m_live_versions t)).

Definition set_m_live_versions
    (c : gmap string (ExpectedL (option PortVersionsGitTreesStructOfArrays)))
    : State -> State :=
  set_this (fun t =>
    mkMembers (m_repo t) (m_reference t) (m_baseline_identifier t) (m_lock_entry t)
      (m_stale_versions_tree t) (m_versions_tree t) (m_stale_versions t) c).

(** The two caches [get_versions] is called with. *)
Inductive VersionsCache : Type := StaleVersions | LiveVersions.

Definition cache_get (c : VersionsCache) (s : State) :=
  match c with
  | StaleVersions => m_stale_versions (this s)
  | LiveVersions => m_live_versions (this s)
  end.

Definition cache_set (c : VersionsCache) :=
  match c with
  | StaleVersions => set_m_stale_versions
  | LiveVersions => set_m_live_versions
  end.

(** [m_paths.git_find_object_id_for_remote_registry_path(commit, path)]. *)
Definition paths_git_find_object_id (commit path : string) : M Paths (ExpectedL string) :=
  _ ← log (GitFindObjectId commit path);
  s ← M_get;
  let '(result, w) := git_find_object_id_for_remote_registry_path commit path (world s) in
  _ ← M_modify (fun s => mkPaths w (trace s) (installed_lockfile s));
  mret result.

(** [m_paths.git_extract_tree_from_remote_registry(tree)]. *)
Definition paths_git_extract_tree (tree : string) : M Paths (ExpectedL Path) :=
  _ ← log (GitExtractTree tree);
  s ← M_get;
  let '(result, w) := git_extract_tree_from_remote_registry tree (world s) in
  _ ← M_modify (fun s => mkPaths w (trace s) (installed_lockfile s));
  mret result.

(** [GitRegistry::get_lock_entry]. *)
Definition get_lock_entry : M State (ExpectedL Entry) :=
  CacheSingle_get_lazy (fun s => m_lock_entry (this s)) set_m_lock_entry
    (t ← M_gets this;
     on_paths (get_or_fetch (m_repo t) (m_reference t))).

(** [GitRegistry::get_versions_tree_from_entry]. *)
Definition get_versions_tree_from_entry (lock_entry : Entry) (emit_telemetry : bool)
    : M State (ExpectedL Path) :=
  t ← M_gets this;
  commit ← on_paths (entry_commit_id lock_entry);
  maybe_tree ← on_paths (paths_git_find_object_id commit registry_versions_dir_name);
  match maybe_tree with
  | Error tree_error =>
      _ ← (if emit_telemetry
           then on_paths (log (TrackDefine "RegistriesErrorNoVersionsAtCommit"))
           else mret tt);
      mret (Error (format_error "CouldNotFindGitTreeAtCommit" [m_repo t; commit]
                   ++ Raw (String "010"%char EmptyString) :: tree_error))
  | Value tree =>
      maybe_path ← on_paths (paths_git_extract_tree tree);
      match maybe_path with
      | Error path_error =>
          mret (Error (format_error "FailedToCheckoutRepo" [m_repo t]
                       ++ Raw (String "010"%char EmptyString) :: path_error))
      | Value path => mret (Value path)
      end
  end.

(** [GitRegistry::get_versions(cache, port_name, vdb_path)]. *)
Definition get_versions (cache : VersionsCache) (port_name : string) (vdb_path : Path)
    : M State (ExpectedL (option PortVersionsGitTreesStructOfArrays)) :=
  Cache_get_lazy (cache_get cache) (cache_set cache) port_name
    (s ← M_get;
     match load_versions_file (get_filesystem (world (m_paths s))) Git vdb_path
             port_name EmptyString with
     | Halted h => M_halt h
     | Done (Error e) => mret (Error e)
     | Done (Value None) => mret (Value None)
     | Done (Value (Some version_entries)) => mret (Value (Some (assign version_entries)))
     end).

(** [GitRegistry::get_live_versions_tree_path]. *)
Definition get_live_versions_tree_path : M State (ExpectedL Path) :=
  CacheSingle_get_lazy (fun s => m_versions_tree (this s)) set_m_versions_tree
    (maybe_lock_entry ← get_lock_entry;
     match maybe_lock_entry with
     | Error e => mret (Error e)
     | Value lock_entry =>
         maybe_up_to_date ← on_paths (ensure_up_to_date lock_entry);
         match maybe_up_to_date with
         | Error e => mret (Error e)
         | Value _ => get_versions_tree_from_entry lock_entry true
         end
     end).

(** [GitRegistry::get_stale_versions]. *)
Definition get_stale_versions (lock_entry : Entry) (port_name : string)
    : M State (ExpectedL (option PortVersionsGitTreesStructOfArrays)) :=
  is_stale ← on_paths (entry_stale lock_entry);
  if negb is_stale then M_halt (Unreachable "Non-stale stale versions")
  else
    maybe_stale_versions_path ←
      CacheSingle_get_lazy (fun s => m_stale_versions_tree (this s))
        set_m_stale_versions_tree
        (get_versions_tree_from_entry lock_entry false);
    match maybe_stale_versions_path with
    | Error e =>
        Cache_get_lazy (cache_get StaleVersions) (cache_set StaleVersions) port_name
          (mret (Error e))
    | Value stale_versions_path => get_versions StaleVersions port_name stale_versions_path
    end.

(** [GitRegistry::get_live_versions]. *)
Definition get_live_versions (port_name : string)
    : M State (ExpectedL (option PortVersionsGitTreesStructOfArrays)) :=
  maybe_live_vdb ← get_live_versions_tree_path;
  match maybe_live_vdb with
  | Error e =>
      Cache_get_lazy (cache_get LiveVersions) (cache_set LiveVersions) port_name
        (mret (Error e))
  | Value live_vdb => get_versions LiveVersions port_name live_vdb
  end.

(** [GitRegistry::load_git_tree]. *)
Definition load_git_tree (git_tree : string)
    : M State (ExpectedL (option PathAndLocation)) :=
  t ← M_gets this;
  maybe_path ← on_paths (paths_git_extract_tree git_tree);
  mret (expected_map
          (fun path =>
             Some (mkPathAndLocation path ("git+" +:+ m_repo t +:+ "@" +:+ git_tree)))
          maybe_path).

(** The second half of [GitRegistry::get_port], from [get_live_versions]
    on: where control arrives when the stale lookup did not return. *)
Definition get_port_live (spec : VersionSpec)
    : M State (ExpectedL (option PathAndLocation)) :=
  maybe_maybe_live_versions ← get_live_versions (port_name spec);
  match maybe_maybe_live_versions with
  | Error e => mret (Error e)
  | Value (Some live_versions) =>
      match try_get_git_tree live_versions (version spec) with
      | Some git_tree => load_git_tree git_tree
      | None => mret (Value None)
      end
  | Value None => mret (Value None)
  end.

(** [GitRegistry::get_port]. *)
Definition get_port (spec : VersionSpec)
    : M State (ExpectedL (option PathAndLocation)) :=
  maybe_entry ← get_lock_entry;
  match maybe_entry with
  | Error e => mret (Error e)
  | Value lock_entry =>
      is_stale ← on_paths (entry_stale lock_entry);
      if is_stale : bool then
        maybe_maybe_stale_versions ← get_stale_versions lock_entry (port_name spec);
        match maybe_maybe_stale_versions with
        | Value (Some stale_versions) =>
            match try_get_git_tree stale_versions (version spec) with
            | Some git_tree => load_git_tree git_tree
            | None => get_port_live spec
            end
        | _ => get_port_live spec
        end
      else get_port_live spec
  end.

End git_registry.

End GitRegistry.

(** ** The builtin files registry ([BuiltinFilesRegistry]) *)

(** Modelled from the spec: [Version::to_string] is defined in
    [vcpkg/versions.cpp], which is not among the sources; the version
    string, and the port version behind a [#] when it is not zero. *)
Definition Version_to_string (v : Version) : string :=
  if port_version v =? 0 then version_text v
  else version_text v +:+ "#" +:+ pretty (port_version v).

Module BuiltinFilesRegistry.

Import Lock.

Section builtin_files.
Context `{Externals}.

(** The registry and the [VcpkgPaths] it was made from: [m_scfs] is the
    cache of loaded recipes, by directory. *)
Record State : Type := mkState {
  m_paths : Paths;
  m_builtin_ports_directory : Path;
  m_scfs : gmap string (ExpectedL (option SourceControlFile));
}.

Definition set_m_scfs (c : gmap string (ExpectedL (option SourceControlFile)))
    (s : State) : State :=
  mkState (m_paths s) (m_builtin_ports_directory s) c.

Definition on_paths {A : Type} (m : M Paths A) : M State A :=
  M_zoom m_paths (fun paths s => mkState paths (m_builtin_ports_directory s) (m_scfs s)) m.

(** [BuiltinFilesRegistry::get_scf]. *)
Definition get_scf (port_name : string) (path : Path)
    : M State (ExpectedL (option SourceControlFile)) :=
  Cache_get_lazy m_scfs set_m_scfs path
    (s ← M_get;
     mret (try_load_port (get_filesystem (world (m_paths s))) port_name path)).

(** [BuiltinFilesRegistry::get_port]. *)
Definition get_port (spec : VersionSpec) : M State (ExpectedL (option PathAndLocation)) :=
  dir ← M_gets m_builtin_ports_directory;
  let port_directory := dir </> port_name spec in
  maybe_maybe_scf ← get_scf (port_name spec) port_directory;
  match maybe_maybe_scf with
  | Error e => mret (Error e)
  | Value None => mret (Value None)
  | Value (Some scf) =>
      if negb (String.eqb (scf_name scf) (port_name spec)) then
        mret (Error (format_error "UnexpectedPortName"
                       [scf_name scf; port_name spec; port_directory]))
      else
        let actual_version := scf_version scf in
        if negb (bool_decide (actual_version = version spec)) then
          _ ← on_paths (log (PrintlnWarning
                 (format "VersionBuiltinPortTreeEntryMissing"
                    [port_name spec; Version_to_string (version spec);
                     Version_to_string actual_version])));
          mret (Value None)
        else
          mret (Value (Some (mkPathAndLocation port_directory
                  ("git+https://github.com/Microsoft/vcpkg#ports/" +:+ port_name spec))))
  end.

End builtin_files.

End BuiltinFilesRegistry.

(** ** The overlay and manifest providers (portfileprovider.cpp) *)

Module Provider.

Import Lock.

(** [const SourceControlFileAndLocation*]: the providers hand out pointers
    to the recipes they own, the overlay provider into its cache, the
    manifest provider also to its manifest. *)
Inductive ScflPtr : Type :=
| InOverlayCache (key : string)
| TheManifest.

Section providers.
Context `{Externals}.

(** [OverlayProviderImpl]: the overlay directories are fixed, the cache
    grows. *)
Record State : Type := mkState {
  m_paths : Paths;
  m_overlay_ports : list Path;
  m_overlay_cache : gmap string (ExpectedL SourceControlFileAndLocation);
}.

Definition set_m_overlay_cache
    (c : gmap string (ExpectedL SourceControlFileAndLocation)) (s : State) : State :=
  mkState (m_paths s) (m_overlay_ports s) c.

Definition on_paths {A : Type} (m : M Paths A) : M State A :=
  M_zoom m_paths (fun paths s => mkState paths (m_overlay_ports s) (m_overlay_cache s)) m.

(** The loop of [OverlayProviderImpl::load_port] over the overlays. *)
Fixpoint load_port_from (fs : ReadOnlyFilesystem) (port_name : string)
    (overlay_ports : list Path) : ExpectedL SourceControlFileAndLocation :=
  match overlay_ports with
  | [] => Value (mkScfl None EmptyString EmptyString)
  | ports_dir :: rest =>
      (* Try loading individual port *)
      match try_load_port_location fs ports_dir with
      | Error e => Error e
      | Value scfl =>
          match source_control_file scfl with
          | Some scf =>
              if String.eqb (scf_name scf) port_name then Value scfl
              else
                (* the directory is a port, but not the one we're looking for *)
                load_port_from fs port_name rest
          | None =>
              (* the directory was not a port in the first place *)
              let ports_spec := ports_dir </> port_name in
              match try_load_port_location fs ports_spec with
              | Error e => Error e
              | Value found =>
                  match source_control_file found with
                  | Some scf =>
                      if String.eqb (scf_name scf) port_name then Value found
                      else
                        Error (from_raw ports_spec ++ Raw ": " :: ErrorPrefix
                               :: format "MismatchedNames" [port_name; scf_name scf])
                  | None => load_port_from fs port_name rest
                  end
              end
          end
      end
  end.

(** [OverlayProviderImpl::load_port]. *)
Definition load_port (port_name : string) : M State (ExpectedL SourceControlFileAndLocation) :=
  s ← M_get;
  mret (load_port_from (get_filesystem (world (m_paths s))) port_name (m_overlay_ports s)).

(** [OverlayProviderImpl::get_control_file]: a reference to the cached
    recipe, or the cached error. *)
Definition overlay_get_control_file (port_name : string) : M State (ExpectedL ScflPtr) :=
  cache ← M_gets m_overlay_cache;
  cached ←
    match cache !! port_name with
    | Some it => mret it
    | None =>
        loaded ← load_port port_name;
        _ ← M_modify (fun s => set_m_overlay_cache (map_emplace port_name loaded (m_overlay_cache s)) s);
        mret loaded
    end;
  mret (expected_map (fun _ => InOverlayCache port_name) cached).

(** The three statements that end both branches of the loop of
    [load_all_control_files]: emplace into the cache, exit unless the
    cached entry is a recipe, emplace a pointer to it into [out]. *)
Definition cache_and_emit (name : string) (scfl : SourceControlFileAndLocation)
    (out : gmap string ScflPtr) : M State (gmap string ScflPtr) :=
  _ ← M_modify (fun s => set_m_overlay_cache (map_emplace name (Value scfl) (m_overlay_cache s)) s);
  cache ← M_gets m_overlay_cache;
  match cache !! name with
  | Some (Value _) => mret (map_emplace name (InOverlayCache name) out)
  | Some (Error _) => M_halt ExitFailure
  | None => M_halt OutOfBounds
  end.

(** The inner loop over [results.paragraphs]. A paragraph there is a port
    that loaded: its [source_control_file] is not null. *)
Fixpoint emit_paragraphs (paragraphs : list SourceControlFileAndLocation)
    (out : gmap string ScflPtr) : M State (gmap string ScflPtr) :=
  match paragraphs with
  | [] => mret out
  | scfl :: rest =>
      match source_control_file scfl with
      | Some scf =>
          out' ← cache_and_emit (scf_name scf) scfl out;
          emit_paragraphs rest out'
      | None => M_halt OutOfBounds
      end
  end.

(** The loop of [OverlayProviderImpl::load_all_control_files], over the
    overlays from the last to the first. *)
Fixpoint load_all_from (reversed_overlay_ports : list Path) (out : gmap string ScflPtr)
    : M State (gmap string ScflPtr) :=
  match reversed_overlay_ports with
  | [] => mret out
  | ports_dir :: rest =>
      s ← M_get;
      let fs := get_filesystem (world (m_paths s)) in
      (* Try loading individual port *)
      match try_load_port_location fs ports_dir with
      | Error e =>
          _ ← on_paths (log (PrintError e));
          M_halt ExitFailure
      | Value scfl =>
          match source_control_file scfl with
          | Some scf =>
              out' ← cache_and_emit (scf_name scf) scfl out;
              load_all_from rest out'
          | None =>
              (* Try loading all ports inside ports_dir *)
              let '(paragraphs, errors) := try_load_overlay_ports fs ports_dir in
              match errors with
              | _ :: _ =>
                  _ ← on_paths (log (PrintError (join_lines (map snd errors))));
                  M_halt ExitFailure
              | [] =>
                  out' ← emit_paragraphs paragraphs out;
                  load_all_from rest out'
              end
          end
      end
  end.

(** [OverlayProviderImpl::load_all_control_files]. *)
Definition overlay_load_all_control_files (out : gmap string ScflPtr)
    : M State (gmap string ScflPtr) :=
  overlays ← M_gets m_overlay_ports;
  load_all_from (rev overlays) out.

(** [ManifestProviderImpl]: the overlay provider [m_overlay_ports] is the
    [State]; the manifest recipe is fixed, its [source_control_file] the
    recipe the constructor was given. *)
Record ManifestProviderImpl : Type := mkManifestProvider {
  manifest_scf : SourceControlFile;
  manifest_path : Path;
}.

Definition m_manifest_scf_and_location (mp : ManifestProviderImpl)
    : SourceControlFileAndLocation :=
  mkScfl (Some (manifest_scf mp)) (manifest_path mp) EmptyString.

(** [m_manifest_scf_and_location.to_name()]. *)
Definition manifest_name (mp : ManifestProviderImpl) : string :=
  scf_name (manifest_scf mp).

(** [ManifestProviderImpl::get_control_file]. *)
Definition manifest_get_control_file (mp : ManifestProviderImpl) (port_name : string)
    : M State (ExpectedL ScflPtr) :=
  if String.eqb port_name (manifest_name mp) then mret (Value TheManifest)
  else overlay_get_control_file port_name.

(** [ManifestProviderImpl::load_all_control_files]. *)
Definition manifest_load_all_control_files (mp : ManifestProviderImpl)
    (out : gmap string ScflPtr) : M State (gmap string ScflPtr) :=
  out' ← overlay_load_all_control_files out;
  mret (map_emplace (manifest_name mp) TheManifest out').

(** The recipe behind a pointer. *)
Definition pointee (mp : ManifestProviderImpl) (s : State) (ptr : ScflPtr)
    : option SourceControlFileAndLocation :=
  match ptr with
  | TheManifest => Some (m_manifest_scf_and_location mp)
  | InOverlayCache key => m_overlay_cache s !! key ≫= expected_get
  end.

End providers.

End Provider.

(** ** Notions the statements use *)

(** A comparison like the one of [registries_for_port], for any key: [lhs]
    goes first when its key is greater. *)
Definition key_before {A : Type} (key : A -> Z) (lhs rhs : A) : bool :=
  key rhs <? key lhs.

(** The score of a registry for a name: the greatest score of its
    patterns, as the inner loop of [registries_for_port] computes it. *)
Definition registry_score {Impl : Type} (name : string) (r : Routing.Registry Impl) : Z :=
  Routing.longest_prefix name (Routing.patterns r).

(** The registries that match a name, in the order of the configuration. *)
Definition matching_registries {Impl : Type} (name : string)
    (rs : Routing.RegistrySet Impl) : list (Routing.Registry Impl) :=
  List.filter (fun r => 0 <? registry_score name r) (Routing.registries rs).

(** The elements of a path: the pieces between its [/] separators. *)
Fixpoint components (path : string) : list string :=
  match path with
  | EmptyString => [EmptyString]
  | String c rest =>
      if Ascii.eqb c "/" then EmptyString :: components rest
      else
        match components rest with
        | element :: elements => String c element :: elements
        | [] => [String c EmptyString]
        end
  end.

(** The elements of a path, joined by [/] again. *)
Fixpoint join_components (elements : list string) : string :=
  match elements with
  | [] => EmptyString
  | [element] => element
  | element :: rest => element +:+ "/" +:+ join_components rest
  end.

(** What the spec asks of the path of a filesystem registry entry: it
    begins with [$/], holds no backslash and no [//], and none of its
    elements is [.] or [..]. *)
Definition valid_registry_path (path : string) : Prop :=
  (exists rest, path = "$/" +:+ rest) /\
  ~ (exists a b, path = a +:+ "\" +:+ b) /\
  ~ (exists a b, path = a +:+ "//" +:+ b) /\
  Forall (fun element => element <> "."%string /\ element <> ".."%string) (components path).

(** The same, computed. *)
Definition not_dots (element : string) : bool :=
  negb (String.eqb element ".") && negb (String.eqb element "..").

Definition valid_registry_path_b (path : string) : bool :=
  Strings.starts_with path "$/"
  && negb (Strings.contains_char path "\")
  && negb (Strings.contains path "//")
  && forallb not_dots (components path).

(** A fetch from the remote of a registry, among the events of a call. *)
Definition is_fetch (e : Event) : bool :=
  match e with
  | GitFetchFromRemoteRegistry _ _ => true
  | _ => false
  end.

Section git_registry_notions.
Context `{Externals}.

(** From [s] to [s'] the lock file was not touched and no fetch ran: the
    lock entry was not refreshed. *)
Definition not_refreshed (s s' : GitRegistry.State) : Prop :=
  Lock.installed_lockfile (GitRegistry.m_paths s')
    = Lock.installed_lockfile (GitRegistry.m_paths s) /\
  exists events,
    Lock.trace (GitRegistry.m_paths s') = Lock.trace (GitRegistry.m_paths s) ++ events /\
    Forall (fun e => is_fetch e = false) events.

(** From [s] to [s'] the members of the registry that serve the live
    lookup are the same. *)
Definition live_side_kept (s s' : GitRegistry.State) : Prop :=
  GitRegistry.m_repo (GitRegistry.this s') = GitRegistry.m_repo (GitRegistry.this s) /\
  GitRegistry.m_reference (GitRegistry.this s')
    = GitRegistry.m_reference (GitRegistry.this s) /\
  GitRegistry.m_lock_entry (GitRegistry.this s')
    = GitRegistry.m_lock_entry (GitRegistry.this s) /\
  GitRegistry.m_versions_tree (GitRegistry.this s')
    = GitRegistry.m_versions_tree (GitRegistry.this s) /\
  GitRegistry.m_live_versions (GitRegistry.this s')
    = GitRegistry.m_live_versions (GitRegistry.this s).

(** The call that took [s] to [s'] began by refreshing the lock entry: it
    announced the fetch and ran it, before anything else. *)
Definition refresh_forced (repo ref : string) (s s' : GitRegistry.State) : Prop :=
  exists events,
    Lock.trace (GitRegistry.m_paths s') =
      Lock.trace (GitRegistry.m_paths s)
      ++ Println (format "FetchingRegistryInfo" [repo; ref])
      :: GitFetchFromRemoteRegistry repo ref :: events.

(** The stale version database, as [get_stale_versions] returned it, has
    no entry for the version. *)
Definition stale_miss
    (r : ExpectedL (option GitRegistry.PortVersionsGitTreesStructOfArrays))
    (v : Version) : Prop :=
  forall stale_versions,
    r = Value (Some stale_versions) ->
    GitRegistry.try_get_git_tree stale_versions v = None.

End git_registry_notions.

(** ** A small world for the examples

    One remote git registry whose lock entry comes from an earlier run (it
    is stale) and whose remote cannot be reached; a builtin ports tree with
    [zlib] 1.3; a project [app] with an overlay directory that also holds a
    port called [app]. *)

Module Scenario.

Definition registry_url : string := "https://example.com/registry".

(** The text of [c-/curl.json] in the versions tree of the stale commit;
    the parser below gives its value. *)
Definition curl_versions_text : string :=
  "{ versions: [ { version: 8.0, git-tree: tree-curl-8 } ] }".

Definition curl_versions_json : Json.Value :=
  Json.Object
    [("versions"%string,
      Json.Array
        [Json.Object [("version"%string, Json.Str "8.0");
                      ("git-tree"%string, Json.Str "tree-curl-8")]])].

Definition version_field (obj : Json.Obj) : Version :=
  match Json.get obj "version" with
  | Some (Json.Str text) => mkVersion text 0
  | _ => mkVersion EmptyString 0
  end.

Definition overlay_app : SourceControlFileAndLocation :=
  mkScfl (Some (mkScf "app" (mkVersion "0.1-overlay" 0))) "/overlays/app" EmptyString.

#[export] Instance externals : Externals := {|
  World := unit;
  ReadOnlyFilesystem := unit;
  get_filesystem := fun _ => tt;
  read_contents := fun _ path =>
    if String.eqb path "/registries/tree-0/c-/curl.json"
    then (curl_versions_text, 0)
    else (EmptyString, no_such_file_or_directory);
  Json_parse := fun text _ =>
    if String.eqb text curl_versions_text then Value curl_versions_json
    else Error (from_raw "unexpected character");
  visit_required_schemed_deserializer := fun _ obj r =>
    (mkSchemedVersion SchemeRelaxed (version_field obj), r);
  versiontag_deserializer :=
    Json.mkDeserializer (format "AVersionObject" [])
      (fun value r =>
         match value with
         | Json.Object obj => (Some (version_field obj), r)
         | _ => (None, r)
         end);
  git_fetch_from_remote_registry := fun _ _ w =>
    (Error (from_raw "could not reach the remote"), w);
  git_find_object_id_for_remote_registry_path := fun commit _ w =>
    if String.eqb commit "commit-0" then (Value "tree-0"%string, w)
    else (Error (from_raw "no such commit"), w);
  git_extract_tree_from_remote_registry := fun tree w =>
    (Value ("/registries" </> tree), w);
  try_load_port := fun _ _ path =>
    if String.eqb path "/vcpkg/ports/zlib"
    then Value (Some (mkScf "zlib" (mkVersion "1.3" 0)))
    else Value None;
  try_load_port_location := fun _ path =>
    if String.eqb path "/overlays/app" then Value overlay_app
    else Value (mkScfl None path EmptyString);
  try_load_overlay_ports := fun _ dir =>
    if String.eqb dir "/overlays" then ([overlay_app], []) else ([], []);
|}.

(** The lock file as loaded from disk: one entry, stale. *)
Definition lockfile : Lock.LockFile :=
  Lock.mkLockFile {[ registry_url := [Lock.mkEntryData "main" "commit-0" true] ]} false.

Definition paths : Lock.Paths := Lock.mkPaths tt [] lockfile.

(** A fresh [GitRegistry] for the registry. *)
Definition git_registry : GitRegistry.State :=
  GitRegistry.mkState paths
    (GitRegistry.mkMembers registry_url "main" EmptyString None None None ∅ ∅).

(** A fresh [BuiltinFilesRegistry]. *)
Definition builtin_files : BuiltinFilesRegistry.State :=
  BuiltinFilesRegistry.mkState paths "/vcpkg/ports" ∅.

(** The manifest provider of the project [app]. *)
Definition overlay_provider : Provider.State :=
  Provider.mkState paths ["/overlays"%string] ∅.

Definition manifest_provider : Provider.ManifestProviderImpl :=
  Provider.mkManifestProvider (mkScf "app" (mkVersion "0.1" 0)) "/project/vcpkg.json".

Definition zlib_1_3 : VersionSpec := mkVersionSpec "zlib" (mkVersion "1.3" 0).
Definition curl_8 : VersionSpec := mkVersionSpec "curl" (mkVersion "8.0" 0).

(** The lock entry of the registry, as [get_lock_entry] finds it. *)
Definition lock_entry : Lock.Entry := Lock.mkEntryRef registry_url 0.

(** The fresh registry after [get_lock_entry], after the stale lookup of
    [curl], and after the query for [curl] 8.0. *)
Definition git_registry_locked : GitRegistry.State :=
  Eval vm_compute in
    match GitRegistry.get_lock_entry git_registry with
    | Done (_, s) => s
    | Halted _ => git_registry
    end.

Definition git_registry_after_curl_lookup : GitRegistry.State :=
  Eval vm_compute in
    match GitRegistry.get_stale_versions lock_entry "curl" git_registry_locked with
    | Done (_, s) => s
    | Halted _ => git_registry
    end.

Definition git_registry_after_curl : GitRegistry.State :=
  Eval vm_compute in
    match GitRegistry.get_port curl_8 git_registry with
    | Done (_, s) => s
    | Halted _ => git_registry
    end.

Definition git_registry_after_zlib_lookup : GitRegistry.State :=
  Eval vm_compute in
    match GitRegistry.get_stale_versions lock_entry "zlib" git_registry_locked with
    | Done (_, s) => s
    | Halted _ => git_registry
    end.

(** The registry after a first query, for [zlib] 1.3: the stale version
    database has no [zlib], and the refresh failed. *)
Definition git_registry_after_failed_refresh : GitRegistry.State :=
  Eval vm_compute in
    match GitRegistry.get_port zlib_1_3 git_registry with
    | Done (_, s) => s
    | Halted _ => git_registry
    end.

End Scenario.

(** ** More of the registries

    The functions of registries.cpp around the ones above: the baseline
    file, the filesystem registry, the builtin git registry, the rest of
    the git registry, and the operations of [RegistrySet] that go through
    the implementations. *)

(** The collaborators that only these functions use: three git commands of
    [VcpkgPaths], and two constants of the message library. *)
Class Collaborators `{Externals} : Type := {
  (* VcpkgPaths::git_checkout_port(port_name, git_tree, dot_git_dir) *)
  git_checkout_port : string -> string -> Path -> World -> ExpectedL Path * World;
  (* VcpkgPaths::git_show_from_remote_registry(hash, relative_path) *)
  git_show_from_remote_registry : string -> Path -> World -> ExpectedL string * World;
  (* VcpkgPaths::git_fetch(repo, treeish) *)
  git_fetch : string -> string -> World -> ExpectedL unit * World;
  (* what LocalizedString::append_indent() appends *)
  indent : string;
  (* docs::versioning_url *)
  versioning_url : string;
}.

(** These git commands, as a registry records having run them. *)
Inductive GitCommand : Type :=
| GitCheckoutPort (port_name git_tree : string) (dot_git : Path)
| GitShowFromRemoteRegistry (hash : string) (relative_path : Path)
| GitFetch (repo treeish : string).

Module BaselineFile.

Section baseline_file.
Context `{Externals}.

(** [load_baseline_versions]: a baseline file that is not there is "no
    baseline", after a line of output. *)
Definition load_baseline_versions (fs : ReadOnlyFilesystem) (baseline_path : Path)
    (baseline : string) : M Lock.Paths (ExpectedL (option (gmap string Version))) :=
  let '(contents, ec) := read_contents fs baseline_path in
  if negb (ec =? 0) then
    if ec =? no_such_file_or_directory then
      _ ← Lock.log (Println (format "FailedToFindBaseline" []));
      mret (Value None)
    else
      mret (Error (format_filesystem_call_error ec "read_contents" [baseline_path]))
  else
    mret (BaselineParse.parse_baseline_versions contents baseline baseline_path).

(** [get_builtin_baseline]; [builtin_registry_versions] is the member of
    [VcpkgPaths] of that name. *)
Definition get_builtin_baseline (builtin_registry_versions : Path)
    : M Lock.Paths (ExpectedL (gmap string Version)) :=
  let baseline_path := builtin_registry_versions </> "baseline.json" in
  s ← M_get;
  maybe_baseline ←
    load_baseline_versions (get_filesystem (Lock.world s)) baseline_path EmptyString;
  match maybe_baseline with
  | Error e => mret (Error e)
  | Value (Some baseline) => mret (Value baseline)
  | Value None =>
      mret (Error (format_error "BaselineFileNoDefaultFieldPath" [baseline_path]))
  end.

(** [get_builtin_versions]. *)
Definition get_builtin_versions (fs : ReadOnlyFilesystem)
    (builtin_registry_versions : Path) (port_name : string)
    : Outcome (ExpectedL (option (list (SchemedVersion * string)))) :=
  match VersionDb.load_versions_file fs VersionDb.Git builtin_registry_versions
          port_name EmptyString with
  | Halted h => Halted h
  | Done (Error e) => Done (Error e)
  | Done (Value None) => Done (Value None)
  | Done (Value (Some versions)) =>
      Done (Value (Some
        (map (fun entry =>
                (mkSchemedVersion (VersionDb.entry_scheme entry)
                                  (VersionDb.entry_version entry),
                 VersionDb.git_tree entry))
             versions)))
  end.

End baseline_file.

End BaselineFile.

(** ** The filesystem registry ([FilesystemRegistry]) *)

Module FilesystemRegistry.

(** [FilesystemRegistryEntry]: [version_paths[i]] is the path of
    [port_versions[i]]. *)
Record FilesystemRegistryEntry : Type := mkFsEntry {
  port_versions : list Version;
  version_paths : list Path;
}.

Section filesystem_registry.
Context `{Externals}.

(** The registry; [m_paths] stands for the file system [m_fs] it refers to
    and for what it prints. *)
Record State : Type := mkState {
  m_paths : Lock.Paths;
  m_path : Path;
  m_baseline_identifier : string;
  m_baseline : option (ExpectedL (option (gmap string Version)));
  m_entries : gmap string (ExpectedL (option FilesystemRegistryEntry));
}.

Definition on_paths {A : Type} (m : M Lock.Paths A) : M State A :=
  M_zoom m_paths
    (fun paths s =>
       mkState paths (m_path s) (m_baseline_identifier s) (m_baseline s) (m_entries s))
    m.

Definition set_m_baseline (v : ExpectedL (option (gmap string Version))) (s : State)
    : State :=
  mkState (m_paths s) (m_path s) (m_baseline_identifier s) (Some v) (m_entries s).

Definition set_m_entries
    (c : gmap string (ExpectedL (option FilesystemRegistryEntry))) (s : State) : State :=
  mkState (m_paths s) (m_path s) (m_baseline_identifier s) (m_baseline s) c.

(** The loop of [get_entry] that fills the two vectors. *)
Definition entry_of (version_entries : list VersionDb.VersionDbEntry)
    : FilesystemRegistryEntry :=
  fold_left
    (fun res version_entry =>
       mkFsEntry (port_versions res ++ [VersionDb.entry_version version_entry])
                 (version_paths res ++ [VersionDb.p version_entry]))
    version_entries (mkFsEntry [] []).

(** [FilesystemRegistry::get_entry]. *)
Definition get_entry (port_name : string)
    : M State (ExpectedL (option FilesystemRegistryEntry)) :=
  Cache_get_lazy m_entries set_m_entries port_name
    (s ← M_get;
     match VersionDb.load_versions_file (get_filesystem (Lock.world (m_paths s)))
             VersionDb.Filesystem
             (m_path s </> GitRegistry.registry_versions_dir_name)
             port_name (m_path s) with
     | Halted h => M_halt h
     | Done (Error e) => mret (Error e)
     | Done (Value None) => mret (Value None)
     | Done (Value (Some version_entries)) =>
         mret (Value (Some (entry_of version_entries)))
     end).

(** [FilesystemRegistry::get_port]. *)
Definition get_port (spec : VersionSpec) : M State (ExpectedL (option PathAndLocation)) :=
  maybe_maybe_entry ← get_entry (port_name spec);
  match maybe_maybe_entry with
  | Error e => mret (Error e)
  | Value None => mret (Value None)
  | Value (Some entry) =>
      match GitRegistry.find_version (port_versions entry) (version spec) with
      | None => mret (Value None)
      | Some it =>
          match version_paths entry !! it with
          | Some path => mret (Value (Some (mkPathAndLocation path EmptyString)))
          | None => M_halt OutOfBounds
          end
      end
  end.

(** [FilesystemRegistry::get_all_port_versions]. *)
Definition get_all_port_versions (port_name : string)
    : M State (ExpectedL (option (list Version))) :=
  maybe_maybe_entry ← get_entry port_name;
  match maybe_maybe_entry with
  | Error e => mret (Error e)
  | Value None => mret (Value None)
  | Value (Some entry) => mret (Value (Some (port_versions entry)))
  end.

(** [FilesystemRegistry::get_baseline_version]. *)
Definition get_baseline_version (port_name : string)
    : M State (ExpectedL (option Version)) :=
  maybe_maybe_baseline ←
    CacheSingle_get_lazy m_baseline set_m_baseline
      (s ← M_get;
       let path_to_baseline :=
         m_path s </> GitRegistry.registry_versions_dir_name </> "baseline.json" in
       on_paths (BaselineFile.load_baseline_versions
                   (get_filesystem (Lock.world (m_paths s)))
                   path_to_baseline (m_baseline_identifier s)));
  match maybe_maybe_baseline with
  | Error e => mret (Error e)
  | Value None => mret (Value None)
  | Value (Some baseline) => mret (Value (baseline !! port_name))
  end.

End filesystem_registry.

End FilesystemRegistry.

(** ** The builtin registries, continued *)

Module BuiltinFiles.

Section builtin_files_baseline.
Context `{Externals}.

(** [BuiltinFilesRegistry::get_baseline_version]: without a baseline, the
    version in the ports directory. *)
Definition get_baseline_version (port_name : string)
    : M BuiltinFilesRegistry.State (ExpectedL (option Version)) :=
  dir ← M_gets BuiltinFilesRegistry.m_builtin_ports_directory;
  maybe_maybe_scf ← BuiltinFilesRegistry.get_scf port_name (dir </> port_name);
  match maybe_maybe_scf with
  | Error e => mret (Error e)
  | Value None => mret (Value None)
  | Value (Some scf) => mret (Value (Some (scf_version scf)))
  end.

End builtin_files_baseline.

End BuiltinFiles.

Module BuiltinGitRegistry.

Section builtin_git.
Context `{Collaborators}.

(** The registry: [m_files_impl] is the files registry it owns (and with it
    the [VcpkgPaths]); [root] and [builtin_registry_versions] are the
    members of [VcpkgPaths] of these names; [git_commands] are the
    checkouts it ran. *)
Record State : Type := mkState {
  m_files_impl : BuiltinFilesRegistry.State;
  root : Path;
  builtin_registry_versions : Path;
  m_baseline_identifier : string;
  m_versions :
    gmap string (ExpectedL (option GitRegistry.PortVersionsGitTreesStructOfArrays));
  git_commands : list GitCommand;
}.

Definition on_files {A : Type} (m : M BuiltinFilesRegistry.State A) : M State A :=
  M_zoom m_files_impl
    (fun files s =>
       mkState files (root s) (builtin_registry_versions s) (m_baseline_identifier s)
         (m_versions s) (git_commands s))
    m.

Definition set_m_versions
    (c : gmap string (ExpectedL (option GitRegistry.PortVersionsGitTreesStructOfArrays)))
    (s : State) : State :=
  mkState (m_files_impl s) (root s) (builtin_registry_versions s)
    (m_baseline_identifier s) c (git_commands s).

Definition log_command (c : GitCommand) : M State unit :=
  M_modify (fun s =>
    mkState (m_files_impl s) (root s) (builtin_registry_versions s)
      (m_baseline_identifier s) (m_versions s) (git_commands s ++ [c])).

(** [BuiltinGitRegistry::get_versions]; the path [versions_path] is
    computed though not used. *)
Definition get_versions (port_name : string)
    : M State (ExpectedL (option GitRegistry.PortVersionsGitTreesStructOfArrays)) :=
  Cache_get_lazy m_versions set_m_versions port_name
    (s ← M_get;
     match VersionDb.relative_path_to_versions port_name with
     | Halted h => M_halt h
     | Done _ =>
         match VersionDb.load_versions_file
                 (get_filesystem
                    (Lock.world (BuiltinFilesRegistry.m_paths (m_files_impl s))))
                 VersionDb.Git (builtin_registry_versions s) port_name EmptyString with
         | Halted h => M_halt h
         | Done (Error e) => mret (Error e)
         | Done (Value None) => mret (Value None)
         | Done (Value (Some version_entries)) =>
             mret (Value (Some (GitRegistry.assign version_entries)))
         end
     end).

(** [format_version_git_entry_missing]. *)
Definition format_version_git_entry_missing (port_name : string)
    (expected_version : Version) (versions : list Version) : LocalizedString :=
  append_raw
    (format_error "VersionGitEntryMissing"
       [port_name; Version_to_string expected_version])
    (String "010"%char EmptyString)
  ++ flat_map
       (fun v => [Raw indent; Raw (Version_to_string v);
                  Raw (String "010"%char EmptyString)])
       versions
  ++ format "VersionIncomparable4" [versioning_url].

(** [m_paths.git_checkout_port(port_name, git_tree, dot_git)]. *)
Definition paths_git_checkout_port (port_name git_tree : string) (dot_git : Path)
    : M State (ExpectedL Path) :=
  _ ← log_command (GitCheckoutPort port_name git_tree dot_git);
  s ← M_get;
  let '(result, w) :=
    git_checkout_port port_name git_tree dot_git
      (Lock.world (BuiltinFilesRegistry.m_paths (m_files_impl s))) in
  _ ← on_files (BuiltinFilesRegistry.on_paths
         (M_modify (fun p => Lock.mkPaths w (Lock.trace p) (Lock.installed_lockfile p))));
  mret result.

(** [BuiltinGitRegistry::get_port]. *)
Definition get_port (spec : VersionSpec) : M State (ExpectedL (option PathAndLocation)) :=
  maybe_maybe_versions ← get_versions (port_name spec);
  match maybe_maybe_versions with
  | Error e => mret (Error e)
  | Value None => on_files (BuiltinFilesRegistry.get_port spec)
  | Value (Some versions) =>
      match GitRegistry.try_get_git_tree versions (version spec) with
      | None =>
          mret (Error
                  (append_raw
                     (format_version_git_entry_missing (port_name spec) (version spec)
                        (GitRegistry.m_port_versions versions))
                     (String "010"%char EmptyString)
                   ++ NotePrefix :: format "ChecksUpdateVcpkg" []))
      | Some git_tree =>
          dot_git ← M_gets (fun s => root s </> ".git");
          maybe_path ← paths_git_checkout_port (port_name spec) git_tree dot_git;
          mret (expected_map
                  (fun path =>
                     Some (mkPathAndLocation path
                             ("git+https://github.com/Microsoft/vcpkg@" +:+ git_tree)))
                  maybe_path)
      end
  end.

End builtin_git.

End BuiltinGitRegistry.

(** ** The git registry, continued *)

(** [is_git_commit_sha]: forty characters, each a digit or a lower-case
    letter from [a] to [f]. *)
Definition is_lcase_ascii_hex (ch : ascii) : bool :=
  let c := N_of_ascii ch in
  ((N_of_ascii "0" <=? c) && (c <=? N_of_ascii "9")
   || (N_of_ascii "a" <=? c) && (c <=? N_of_ascii "f"))%N.

Definition is_git_commit_sha (sv : string) : bool :=
  (Strings.size sv =? 40) && forallb is_lcase_ascii_hex (list_ascii_of_string sv).

Module GitRegistryImplementation.

Import Lock GitRegistry.

Section git_registry_implementation.
Context `{Collaborators}.

(** [GitRegistry::get_all_port_versions]. *)
Definition get_all_port_versions (port_name : string)
    : M GitRegistry.State (ExpectedL (option (list Version))) :=
  maybe_maybe_live_versions ← get_live_versions port_name;
  match maybe_maybe_live_versions with
  | Error e => mret (Error e)
  | Value (Some live_versions) => mret (Value (Some (m_port_versions live_versions)))
  | Value None => mret (Value None)
  end.

(** The registry with the member that [get_baseline_version] fills, and the
    commands it ran to find the baseline. *)
Record State : Type := mkState {
  registry : GitRegistry.State;
  m_baseline : option (ExpectedL (gmap string Version));
  git_commands : list GitCommand;
}.

Definition on_registry {A : Type} (m : M GitRegistry.State A) : M State A :=
  M_zoom registry (fun r s => mkState r (m_baseline s) (git_commands s)) m.

Definition set_m_baseline (v : ExpectedL (gmap string Version)) (s : State) : State :=
  mkState (registry s) (Some v) (git_commands s).

Definition log_command (c : GitCommand) : M State unit :=
  M_modify (fun s => mkState (registry s) (m_baseline s) (git_commands s ++ [c])).

Definition set_world (w : World) : M State unit :=
  on_registry (GitRegistry.on_paths
    (M_modify (fun p => mkPaths w (trace p) (installed_lockfile p)))).

(** [m_paths.git_show_from_remote_registry(hash, relative_path)]. *)
Definition paths_git_show_from_remote_registry (hash : string) (relative_path : Path)
    : M State (ExpectedL string) :=
  _ ← log_command (GitShowFromRemoteRegistry hash relative_path);
  s ← M_get;
  let '(result, w) :=
    git_show_from_remote_registry hash relative_path (world (m_paths (registry s))) in
  _ ← set_world w;
  mret result.

(** [m_paths.git_fetch(repo, treeish)]. *)
Definition paths_git_fetch (repo treeish : string) : M State (ExpectedL unit) :=
  _ ← log_command (GitFetch repo treeish);
  s ← M_get;
  let '(result, w) := git_fetch repo treeish (world (m_paths (registry s))) in
  _ ← set_world w;
  mret result.

Definition track_define (metric : string) : M State unit :=
  on_registry (GitRegistry.on_paths (log (TrackDefine metric))).

Definition path_to_baseline : Path := registry_versions_dir_name </> "baseline.json".

(** The end of the function that loads the baseline, from the last
    [if (!maybe_contents)] on. *)
Definition baseline_of_contents (port_name : string) (maybe_contents : ExpectedL string)
    : M State (ExpectedL (gmap string Version)) :=
  t ← M_gets (fun s => this (registry s));
  match maybe_contents with
  | Error e =>
      _ ← track_define "RegistriesErrorCouldNotFindBaseline";
      mret (Error (append_raw
                     (format_error "CouldNotFindBaselineInCommit"
                        [m_repo t; m_baseline_identifier t; port_name])
                     (String "010"%char EmptyString)
                   ++ e))
  | Value contents =>
      match BaselineParse.parse_baseline_versions contents "default" path_to_baseline with
      | Value (Some p) => mret (Value p)
      | Value None =>
          _ ← track_define "RegistriesErrorCouldNotFindBaseline";
          mret (Error (format_error "BaselineMissingDefault"
                         [m_baseline_identifier t; m_repo t]))
      | Error e =>
          mret (Error (append_raw
                         (format_error "ErrorWhileFetchingBaseline"
                            [m_baseline_identifier t; m_repo t])
                         (String "010"%char EmptyString)
                       ++ e))
      end
  end.

(** The part before it, from the second [if (!maybe_contents)] on: the
    fetch of the baseline commit itself. *)
Definition baseline_after_refresh (port_name : string) (maybe_contents : ExpectedL string)
    : M State (ExpectedL (gmap string Version)) :=
  t ← M_gets (fun s => this (registry s));
  match maybe_contents with
  | Error _ =>
      _ ← on_registry (GitRegistry.on_paths
             (log (Println (format "FetchingBaselineInfo" [m_repo t]))));
      maybe_err ← paths_git_fetch (m_repo t) (m_baseline_identifier t);
      match maybe_err with
      | Error e =>
          _ ← track_define "RegistriesErrorCouldNotFindBaseline";
          mret (Error (append_raw (format_error "FailedToFetchRepo" [m_repo t])
                         (String "010"%char EmptyString)
                       ++ e))
      | Value _ =>
          maybe_contents ←
            paths_git_show_from_remote_registry (m_baseline_identifier t) path_to_baseline;
          baseline_of_contents port_name maybe_contents
      end
  | Value _ => baseline_of_contents port_name maybe_contents
  end.

(** The function handed to [m_baseline.get_lazy]. *)
Definition load_baseline (port_name : string) : M State (ExpectedL (gmap string Version)) :=
  t ← M_gets (fun s => this (registry s));
  (* We delay baseline validation until here to give better error messages *)
  if negb (is_git_commit_sha (m_baseline_identifier t)) then
    maybe_lock_entry ← on_registry get_lock_entry;
    match maybe_lock_entry with
    | Error e => mret (Error e)
    | Value lock_entry =>
        maybe_up_to_date ← on_registry (GitRegistry.on_paths (ensure_up_to_date lock_entry));
        match maybe_up_to_date with
        | Value _ =>
            commit ← on_registry (GitRegistry.on_paths (entry_commit_id lock_entry));
            mret (Error (format_error "GitRegistryMustHaveBaseline" [m_repo t; commit]))
        | Error e => mret (Error e)
        end
    end
  else
    maybe_contents ←
      paths_git_show_from_remote_registry (m_baseline_identifier t) path_to_baseline;
    match maybe_contents with
    | Error _ =>
        maybe_lock_entry ← on_registry get_lock_entry;
        match maybe_lock_entry with
        | Error e => mret (Error e)
        | Value lock_entry =>
            maybe_up_to_date ←
              on_registry (GitRegistry.on_paths (ensure_up_to_date lock_entry));
            match maybe_up_to_date with
            | Error e => mret (Error e)
            | Value _ =>
                maybe_contents ←
                  paths_git_show_from_remote_registry (m_baseline_identifier t)
                    path_to_baseline;
                baseline_after_refresh port_name maybe_contents
            end
        end
    | Value _ => baseline_after_refresh port_name maybe_contents
    end.

(** [GitRegistry::get_baseline_version]. *)
Definition get_baseline_version (port_name : string)
    : M State (ExpectedL (option Version)) :=
  maybe_baseline ← CacheSingle_get_lazy m_baseline set_m_baseline (load_baseline port_name);
  match maybe_baseline with
  | Error e => mret (Error e)
  | Value baseline => mret (Value (baseline !! port_name))
  end.

End git_registry_implementation.

End GitRegistryImplementation.

(** ** [RegistrySet], through the implementations *)

(** Modelled from the spec: [Util::sort_unique_erase] ([vcpkg/base/util.h],
    not among the sources) sorts and deduplicates: [std::sort] with [<] of
    [std::string], then [std::unique], which keeps the first of each run of
    equal elements. *)
Fixpoint unique_from (prev : string) (l : list string) : list string :=
  match l with
  | [] => []
  | x :: rest =>
      if String.eqb prev x then unique_from prev rest else x :: unique_from x rest
  end.

Definition std_unique (l : list string) : list string :=
  match l with
  | [] => []
  | x :: rest => x :: unique_from x rest
  end.

Definition sort_unique_erase (l : list string) : list string :=
  std_unique (merge_sort String.le l).

(** The virtual functions of [RegistryImplementation], on the state [St]
    that the implementations share. The two functions that take the vector
    of names to append to give the names they append: no implementation
    does anything else to the vector than [push_back]. *)
Class RegistryImplementation (Impl St : Type) : Type := {
  impl_get_port : Impl -> VersionSpec -> M St (ExpectedL (option PathAndLocation));
  impl_get_all_port_versions : Impl -> string -> M St (ExpectedL (option (list Version)));
  impl_append_all_port_names : Impl -> M St (ExpectedL unit * list string);
  impl_try_append_all_port_names_no_network : Impl -> M St (ExpectedL bool * list string);
  impl_get_baseline_version : Impl -> string -> M St (ExpectedL (option Version));
}.

Module RegistrySetOps.

Import Routing.

(** [remove_unreachable_port_names_by_patterns]: [std::remove_if] and
    [erase] on the names from [start_at] on. *)
Definition remove_unreachable_port_names_by_patterns (result : list string)
    (start_at : nat) (pats : list string) : list string :=
  take start_at result
  ++ List.filter
       (fun name =>
          negb (negb (existsb
                        (fun pattern => negb (package_pattern_match name pattern =? 0))
                        pats)))
       (drop start_at result).

(** The predicate of [std::remove_copy_if] in
    [get_all_known_reachable_port_names_no_network]. *)
Definition empty_or_wildcard (package_pattern : string) : bool :=
  (Strings.size package_pattern =? 0)
  || bool_decide
       (Strings.at_ package_pattern (Strings.size package_pattern - 1) = Some "*"%char).

Section registry_set_ops.
Context {Impl St : Type} `{RegistryImplementation Impl St}.

(** [RegistrySet::baseline_for_port]. *)
Definition baseline_for_port (rs : RegistrySet Impl) (port_name : string)
    : M St (ExpectedL (option Version)) :=
  match registry_for_port rs port_name with
  | None => mret (Error (ErrorPrefix :: format "NoRegistryForPort" [port_name]))
  | Some impl => impl_get_baseline_version impl port_name
  end.

(** The loop of [get_all_reachable_port_names] over the registries. *)
Fixpoint append_reachable (regs : list (Registry Impl)) (result : list string)
    : M St (ExpectedL (list string)) :=
  match regs with
  | [] => mret (Value result)
  | registry :: rest =>
      let start_at := length result in
      '(this_append, names) ← impl_append_all_port_names (implementation registry);
      match this_append with
      | Error e => mret (Error e)
      | Value _ =>
          append_reachable rest
            (remove_unreachable_port_names_by_patterns (result ++ names) start_at
               (patterns registry))
      end
  end.

(** [RegistrySet::get_all_reachable_port_names]. *)
Definition get_all_reachable_port_names (rs : RegistrySet Impl)
    : M St (ExpectedL (list string)) :=
  maybe_result ← append_reachable (registries rs) [];
  match maybe_result with
  | Error e => mret (Error e)
  | Value result =>
      match default_registry rs with
      | Some registry =>
          '(this_append, names) ← impl_append_all_port_names registry;
          match this_append with
          | Error e => mret (Error e)
          | Value _ => mret (Value (sort_unique_erase (result ++ names)))
          end
      | None => mret (Value (sort_unique_erase result))
      end
  end.

(** The loop of [get_all_known_reachable_port_names_no_network]. *)
Fixpoint append_known_reachable (regs : list (Registry Impl)) (result : list string)
    : M St (ExpectedL (list string)) :=
  match regs with
  | [] => mret (Value result)
  | registry :: rest =>
      let start_at := length result in
      let pats := patterns registry in
      '(maybe_append, names) ←
        impl_try_append_all_port_names_no_network (implementation registry);
      match maybe_append with
      | Error e => mret (Error e)
      | Value true =>
          append_known_reachable rest
            (remove_unreachable_port_names_by_patterns (result ++ names) start_at pats)
      | Value false =>
          (* we don't know all names, but we can at least assume the exact match
             patterns will be names *)
          append_known_reachable rest
            ((result ++ names) ++ List.filter (fun p => negb (empty_or_wildcard p)) pats)
      end
  end.

(** [RegistrySet::get_all_known_reachable_port_names_no_network]. *)
Definition get_all_known_reachable_port_names_no_network (rs : RegistrySet Impl)
    : M St (ExpectedL (list string)) :=
  maybe_result ← append_known_reachable (registries rs) [];
  match maybe_result with
  | Error e => mret (Error e)
  | Value result =>
      match default_registry rs with
      | Some registry =>
          '(maybe_append, names) ← impl_try_append_all_port_names_no_network registry;
          match maybe_append with
          | Error e => mret (Error e)
          | Value _ => mret (Value (sort_unique_erase (result ++ names)))
          end
      | None => mret (Value (sort_unique_erase result))
      end
  end.

(** [RegistrySet::get_port]. *)
Definition get_port (rs : RegistrySet Impl) (spec : VersionSpec)
    : M St (ExpectedL (option PathAndLocation)) :=
  match registry_for_port rs (port_name spec) with
  | None => mret (Value None)
  | Some impl => impl_get_port impl spec
  end.

(** [RegistrySet::get_port_required]. *)
Definition get_port_required (rs : RegistrySet Impl) (spec : VersionSpec)
    : M St (ExpectedL PathAndLocation) :=
  maybe_maybe_port ← get_port rs spec;
  match maybe_maybe_port with
  | Error e => mret (Error e)
  | Value None =>
      mret (Error (format_error "VersionDatabaseEntryMissing"
                     [port_name spec; Version_to_string (version spec)]))
  | Value (Some port) => mret (Value port)
  end.

(** [RegistrySet::get_all_port_versions]. *)
Definition get_all_port_versions (rs : RegistrySet Impl) (port_name : string)
    : M St (ExpectedL (option (list Version))) :=
  match registry_for_port rs port_name with
  | None => mret (Value None)
  | Some impl => impl_get_all_port_versions impl port_name
  end.

(** [RegistrySet::get_all_port_versions_required]. *)
Definition get_all_port_versions_required (rs : RegistrySet Impl) (port_name : string)
    : M St (ExpectedL (list Version)) :=
  maybe_maybe_versions ← get_all_port_versions rs port_name;
  match maybe_maybe_versions with
  | Error e => mret (Error e)
  | Value None =>
      mret (Error (format_error "VersionDatabaseEntriesMissing" [port_name]))
  | Value (Some versions) => mret (Value versions)
  end.

End registry_set_ops.

End RegistrySetOps.

(** ** Notions used to state the properties of these functions *)

(** A path inside a filesystem registry: [root / rest] for a registry path
    [$/rest] that is valid. *)
Definition confined_to (root : Path) (path : Path) : Prop :=
  exists rest, valid_registry_path ("$/" +:+ rest) /\ path = root </> rest.

(** The entries that a [FilesystemRegistry] has cached are as [get_entry]
    makes them: a path for every version, each inside the registry. *)
Definition entries_well_formed `{Externals} (s : FilesystemRegistry.State) : Prop :=
  forall name entry,
    FilesystemRegistry.m_entries s !! name = Some (Value (Some entry)) ->
    length (FilesystemRegistry.version_paths entry)
      = length (FilesystemRegistry.port_versions entry) /\
    Forall (confined_to (FilesystemRegistry.m_path s))
      (FilesystemRegistry.version_paths entry).

(** A git registry after a command of git that left the world [w], and
    after it logged [events]. *)
Definition after_git `{Externals} (w : World) (r : GitRegistry.State) : GitRegistry.State :=
  GitRegistry.mkState
    (Lock.mkPaths w (Lock.trace (GitRegistry.m_paths r))
       (Lock.installed_lockfile (GitRegistry.m_paths r)))
    (GitRegistry.this r).

Definition after_events `{Externals} (events : list Event) (r : GitRegistry.State)
    : GitRegistry.State :=
  GitRegistry.mkState
    (Lock.mkPaths (Lock.world (GitRegistry.m_paths r))
       (Lock.trace (GitRegistry.m_paths r) ++ events)
       (Lock.installed_lockfile (GitRegistry.m_paths r)))
    (GitRegistry.this r).

(** Strictly ascending, for [std::string]'s [<]. *)
Definition string_lt (a b : string) : Prop := String.le a b /\ a <> b.

(** Every recipe in the cache of an [OverlayProviderImpl] is stored under
    its own name. *)
Definition overlay_cache_named `{Externals} (s : Provider.State) : Prop :=
  forall key scfl scf,
    Provider.m_overlay_cache s !! key = Some (Value scfl) ->
    source_control_file scfl = Some scf ->
    scf_name scf = key.

(** ** Registries for the examples

    A registry that lists its names, and one that cannot tell them without
    the network. *)
Module Listing.

Inductive Impl : Type :=
| Listed (names : list string)
| Remote.

#[export] Instance listing : RegistryImplementation Impl unit := {|
  impl_get_port := fun _ _ => mret (Value None);
  impl_get_all_port_versions := fun _ _ => mret (Value None);
  impl_append_all_port_names := fun impl =>
    mret (match impl with
          | Listed names => (Value tt, names)
          | Remote => (Value tt, [])
          end);
  impl_try_append_all_port_names_no_network := fun impl =>
    mret (match impl with
          | Listed names => (Value true, names)
          | Remote => (Value false, [])
          end);
  impl_get_baseline_version := fun _ _ => mret (Value None);
|}.

End Listing.

(** What the registries list, one after the other: from the state [s],
    each registry of [regs] in turn lists the names at the same place in
    [listing], and the last leaves the state [s']. *)
Fixpoint listed_in_turn {Impl St : Type} `{RegistryImplementation Impl St}
    (regs : list (Routing.Registry Impl)) (s : St) (listing : list (list string))
    (s' : St) : Prop :=
  match regs, listing with
  | [], [] => s' = s
  | registry :: regs, names :: listing =>
      exists s1,
        impl_append_all_port_names (Routing.implementation registry) s
          = Done ((Value tt, names), s1) /\
        listed_in_turn regs s1 listing s'
  | _, _ => False
  end.

(** What [load_all_control_files] may do to the map it fills and to the
    cache: add. Nothing that was there is replaced, the provider is
    otherwise as it was, and a pointer that is new in the map points into
    the cache, to the entry of its own key. *)
Definition overlay_load_extends `{Externals}
    (out : gmap string Provider.ScflPtr) (s : Provider.State)
    (out' : gmap string Provider.ScflPtr) (s' : Provider.State) : Prop :=
  Provider.m_paths s' = Provider.m_paths s /\
  Provider.m_overlay_ports s' = Provider.m_overlay_ports s /\
  (forall key ptr, out !! key = Some ptr -> out' !! key = Some ptr) /\
  (forall key cached,
     Provider.m_overlay_cache s !! key = Some cached ->
     Provider.m_overlay_cache s' !! key = Some cached) /\
  (forall key ptr,
     out' !! key = Some ptr -> out !! key = None ->
     ptr = Provider.InOverlayCache key /\
     exists scfl, Provider.m_overlay_cache s' !! key = Some (Value scfl)) /\
  (overlay_cache_named s -> overlay_cache_named s').

(** ** A second small world for the examples

    The remote of the git registry can be reached; its baseline is a commit
    that git can show. There is a filesystem registry under [/local] with
    two versions of [zlib], the builtin versions tree lists [zlib] 1.2 only
    while the ports tree holds 1.3, and two overlay directories are both
    the port [fmt]. The versions tree of the git registry at the fetched
    commit lists [fmt] 10.0; the one at the locked commit lists nothing. *)

Module Online.

Definition registry_url : string := "https://example.com/registry".

(** The baseline commit, and one that git does not have. *)
Definition baseline_sha : string := "aaaaaaaaaaaaaaaaaaaaaaaaaaaaaaaaaaaaaaaa".
Definition unknown_sha : string := "bbbbbbbbbbbbbbbbbbbbbbbbbbbbbbbbbbbbbbbb".

Definition baseline_text : string := "{ default: { zlib: { baseline: 1.3 } } }".

Definition baseline_json : Json.Value :=
  Json.Object
    [("default"%string,
      Json.Object [("zlib"%string, Json.Object [("baseline"%string, Json.Str "1.3")])])].

(** A baseline file whose [default] is a string, not an object. *)
Definition flat_baseline_text : string := "{ default: 1.3 }".

Definition flat_baseline_json : Json.Value :=
  Json.Object [("default"%string, Json.Str "1.3")].

(** [/local/versions/z-/zlib.json]. *)
Definition local_zlib_text : string :=
  "{ versions: [ { version: 1.3, path: $/ports/zlib/1.3 }, { version: 1.2, path: $/ports/zlib/1.2 } ] }".

Definition local_zlib_json : Json.Value :=
  Json.Object
    [("versions"%string,
      Json.Array
        [Json.Object [("version"%string, Json.Str "1.3");
                      ("path"%string, Json.Str "$/ports/zlib/1.3")];
         Json.Object [("version"%string, Json.Str "1.2");
                      ("path"%string, Json.Str "$/ports/zlib/1.2")]])].

(** [/vcpkg/versions/z-/zlib.json]. *)
Definition builtin_zlib_text : string :=
  "{ versions: [ { version: 1.2, git-tree: tree-zlib-1.2 } ] }".

Definition builtin_zlib_json : Json.Value :=
  Json.Object
    [("versions"%string,
      Json.Array
        [Json.Object [("version"%string, Json.Str "1.2");
                      ("git-tree"%string, Json.Str "tree-zlib-1.2")]])].

(** [f-/fmt.json] in the versions tree of the git registry at [commit-1]. *)
Definition registry_fmt_text : string :=
  "{ versions: [ { version: 10.0, git-tree: tree-fmt-10 } ] }".

Definition registry_fmt_json : Json.Value :=
  Json.Object
    [("versions"%string,
      Json.Array
        [Json.Object [("version"%string, Json.Str "10.0");
                      ("git-tree"%string, Json.Str "tree-fmt-10")]])].

Definition text_field (key : string) (obj : Json.Obj) : Version :=
  match Json.get obj key with
  | Some (Json.Str text) => mkVersion text 0
  | _ => mkVersion EmptyString 0
  end.

Definition fmt_a : SourceControlFileAndLocation :=
  mkScfl (Some (mkScf "fmt" (mkVersion "10.0-a" 0))) "/overlay-a" EmptyString.
Definition fmt_b : SourceControlFileAndLocation :=
  mkScfl (Some (mkScf "fmt" (mkVersion "10.0-b" 0))) "/overlay-b" EmptyString.

#[export] Instance externals : Externals := {|
  World := unit;
  ReadOnlyFilesystem := unit;
  get_filesystem := fun _ => tt;
  read_contents := fun _ path =>
    if String.eqb path "/local/versions/z-/zlib.json" then (local_zlib_text, 0)
    else if String.eqb path "/local/versions/baseline.json" then (baseline_text, 0)
    else if String.eqb path "/vcpkg/versions/z-/zlib.json" then (builtin_zlib_text, 0)
    else if String.eqb path "/registries/tree-of-commit-1/f-/fmt.json"
    then (registry_fmt_text, 0)
    else (EmptyString, no_such_file_or_directory);
  Json_parse := fun text _ =>
    if String.eqb text local_zlib_text then Value local_zlib_json
    else if String.eqb text baseline_text then Value baseline_json
    else if String.eqb text builtin_zlib_text then Value builtin_zlib_json
    else if String.eqb text registry_fmt_text then Value registry_fmt_json
    else if String.eqb text flat_baseline_text then Value flat_baseline_json
    else Error (from_raw "unexpected character");
  visit_required_schemed_deserializer := fun _ obj r =>
    (mkSchemedVersion SchemeRelaxed (text_field "version" obj), r);
  versiontag_deserializer :=
    Json.mkDeserializer (format "AVersionObject" [])
      (fun value r =>
         match value with
         | Json.Object obj => (Some (text_field "baseline" obj), r)
         | _ => (None, r)
         end);
  git_fetch_from_remote_registry := fun _ _ w => (Value "commit-1"%string, w);
  git_find_object_id_for_remote_registry_path := fun commit _ w =>
    (Value ("tree-of-" +:+ commit), w);
  git_extract_tree_from_remote_registry := fun tree w =>
    (Value ("/registries" </> tree), w);
  try_load_port := fun _ _ path =>
    if String.eqb path "/vcpkg/ports/zlib"
    then Value (Some (mkScf "zlib" (mkVersion "1.3" 0)))
    else Value None;
  try_load_port_location := fun _ path =>
    if String.eqb path "/overlay-a" then Value fmt_a
    else if String.eqb path "/overlay-b" then Value fmt_b
    else Value (mkScfl None path EmptyString);
  try_load_overlay_ports := fun _ _ => ([], []);
|}.

#[export] Instance collaborators : Collaborators := {|
  git_checkout_port := fun port_name git_tree _ w =>
    (Value ("/buildtrees/versioning_" </> port_name </> git_tree), w);
  git_show_from_remote_registry := fun hash path w =>
    if String.eqb hash baseline_sha && String.eqb path "versions/baseline.json"
    then (Value baseline_text, w)
    else (Error (from_raw "no such object"), w);
  git_fetch := fun _ _ w => (Value tt, w);
  indent := "    ";
  versioning_url := "https://learn.microsoft.com/vcpkg/users/versioning";
|}.

(** The lock file knows the registry at [main], from an earlier run. *)
Definition lockfile : Lock.LockFile :=
  Lock.mkLockFile {[ registry_url := [Lock.mkEntryData "main" "commit-0" true] ]} false.

Definition paths : Lock.Paths := Lock.mkPaths tt [] lockfile.

Definition lock_entry : Lock.Entry := Lock.mkEntryRef registry_url 0.

(** The lock file after the entry of [main] was brought up to date, and
    after the registry was asked for at [release], which is new. *)
Definition paths_refreshed : Lock.Paths :=
  Eval vm_compute in
    match Lock.ensure_up_to_date lock_entry paths with
    | Done (_, s) => s
    | Halted _ => paths
    end.

Definition paths_with_release : Lock.Paths :=
  Eval vm_compute in
    match Lock.get_or_fetch registry_url "release" paths with
    | Done (_, s) => s
    | Halted _ => paths
    end.

(** The filesystem registry under [/local], fresh, and after its versions
    of [zlib] were listed. *)
Definition filesystem_registry : FilesystemRegistry.State :=
  FilesystemRegistry.mkState paths "/local" EmptyString None ∅.

Definition filesystem_registry_listed : FilesystemRegistry.State :=
  Eval vm_compute in
    match FilesystemRegistry.get_all_port_versions "zlib" filesystem_registry with
    | Done (_, s) => s
    | Halted _ => filesystem_registry
    end.

Definition filesystem_registry_with_baseline : FilesystemRegistry.State :=
  Eval vm_compute in
    match FilesystemRegistry.get_baseline_version "zlib" filesystem_registry with
    | Done (_, s) => s
    | Halted _ => filesystem_registry
    end.

(** The builtin files registry of [/vcpkg/ports], fresh, and after it
    loaded the recipe of [zlib]. *)
Definition builtin_files : BuiltinFilesRegistry.State :=
  BuiltinFilesRegistry.mkState paths "/vcpkg/ports" ∅.

Definition builtin_files_loaded : BuiltinFilesRegistry.State :=
  Eval vm_compute in
    match BuiltinFiles.get_baseline_version "zlib" builtin_files with
    | Done (_, s) => s
    | Halted _ => builtin_files
    end.

(** The builtin git registry of [/vcpkg], fresh, and after it read the
    versions file of [zlib]. *)
Definition builtin_git : BuiltinGitRegistry.State :=
  BuiltinGitRegistry.mkState (BuiltinFilesRegistry.mkState paths "/vcpkg/ports" ∅)
    "/vcpkg" "/vcpkg/versions" baseline_sha ∅ [].

Definition builtin_git_with_zlib : BuiltinGitRegistry.State :=
  Eval vm_compute in
    match BuiltinGitRegistry.get_versions "zlib" builtin_git with
    | Done (_, s) => s
    | Halted _ => builtin_git
    end.

Definition zlib_1_2 : VersionSpec := mkVersionSpec "zlib" (mkVersion "1.2" 0).
Definition zlib_1_3 : VersionSpec := mkVersionSpec "zlib" (mkVersion "1.3" 0).

(** Git registries with a baseline that is the commit git can show, one
    that git does not have, and one that is no commit at all. *)
Definition git_registry (baseline : string) : GitRegistryImplementation.State :=
  GitRegistryImplementation.mkState
    (GitRegistry.mkState paths
       (GitRegistry.mkMembers registry_url "main" baseline None None None ∅ ∅))
    None [].

Definition git_registry_with_baseline : GitRegistryImplementation.State :=
  Eval vm_compute in
    match GitRegistryImplementation.get_baseline_version "zlib"
            (git_registry baseline_sha) with
    | Done (_, s) => s
    | Halted _ => git_registry baseline_sha
    end.

Definition git_registry_gave_up : GitRegistryImplementation.State :=
  Eval vm_compute in
    match GitRegistryImplementation.get_baseline_version "zlib"
            (git_registry unknown_sha) with
    | Done (_, s) => s
    | Halted _ => git_registry unknown_sha
    end.

Definition git_registry_no_sha : GitRegistryImplementation.State :=
  Eval vm_compute in
    match GitRegistryImplementation.get_baseline_version "zlib" (git_registry "main") with
    | Done (_, s) => s
    | Halted _ => git_registry "main"
    end.

(** The git registry once its lock entry is up to date, and after it was
    asked for [zlib] 1.3. *)
Definition git_registry_up_to_date : GitRegistry.State :=
  GitRegistry.mkState paths_refreshed
    (GitRegistry.mkMembers registry_url "main" baseline_sha (Some (Value lock_entry))
       None None ∅ ∅).

Definition git_registry_asked : GitRegistry.State :=
  Eval vm_compute in
    match GitRegistry.get_port zlib_1_3 git_registry_up_to_date with
    | Done (_, s) => s
    | Halted _ => git_registry_up_to_date
    end.

(** The git registry with its stale lock entry, fresh; after
    [get_lock_entry]; after the stale lookup of [fmt]; and after the query
    for [fmt] 10.0. *)
Definition fmt_10 : VersionSpec := mkVersionSpec "fmt" (mkVersion "10.0" 0).

Definition git_registry_stale : GitRegistry.State :=
  GitRegistry.mkState paths
    (GitRegistry.mkMembers registry_url "main" baseline_sha None None None ∅ ∅).

Definition git_registry_locked : GitRegistry.State :=
  Eval vm_compute in
    match GitRegistry.get_lock_entry git_registry_stale with
    | Done (_, s) => s
    | Halted _ => git_registry_stale
    end.

Definition git_registry_after_fmt_lookup : GitRegistry.State :=
  Eval vm_compute in
    match GitRegistry.get_stale_versions lock_entry "fmt" git_registry_locked with
    | Done (_, s) => s
    | Halted _ => git_registry_stale
    end.

Definition git_registry_after_fmt_versions : GitRegistry.State :=
  Eval vm_compute in
    match GitRegistry.get_live_versions "fmt" git_registry_after_fmt_lookup with
    | Done (_, s) => s
    | Halted _ => git_registry_stale
    end.

Definition git_registry_after_fmt : GitRegistry.State :=
  Eval vm_compute in
    match GitRegistry.get_port fmt_10 git_registry_stale with
    | Done (_, s) => s
    | Halted _ => git_registry_stale
    end.

(** The overlay provider of the two overlays, fresh, and after all the
    recipes were loaded. *)
Definition overlay_provider : Provider.State :=
  Provider.mkState paths ["/overlay-a"%string; "/overlay-b"%string] ∅.

Definition overlay_provider_loaded : Provider.State :=
  Eval vm_compute in
    match Provider.overlay_load_all_control_files ∅ overlay_provider with
    | Done (_, s) => s
    | Halted _ => overlay_provider
    end.

Definition overlay_all : gmap string Provider.ScflPtr :=
  Eval vm_compute in
    match Provider.overlay_load_all_control_files ∅ overlay_provider with
    | Done (out, _) => out
    | Halted _ => ∅
    end.

(** The provider after it was asked for [fmt] by name. *)
Definition overlay_provider_asked : Provider.State :=
  Eval vm_compute in
    match Provider.overlay_get_control_file "fmt" overlay_provider with
    | Done (_, s) => s
    | Halted _ => overlay_provider
    end.

(** The baseline of the registries of this world. *)
Definition baseline : gmap string Version :=
  Eval vm_compute in {[ "zlib"%string := mkVersion "1.3" 0 ]}.

End Online.

(** The git registry of the first small world, asked for all the versions
    of [curl] while its lock entry is stale. *)
Module Offline.

Definition git_registry_after_versions : GitRegistry.State :=
  Eval vm_compute in
    match GitRegistryImplementation.get_all_port_versions "curl"
            Scenario.git_registry_locked with
    | Done (_, s) => s
    | Halted _ => Scenario.git_registry_locked
    end.

End Offline.

(** * Theorems *)

(** Unfolds the monad of member functions one layer. *)
Ltac M_unfold :=
  unfold mbind, M_mbind, M_bind, M_gets, M_get, M_modify, mret, M_mret, M_ret,
    M_halt, M_zoom.
Ltac M_step := M_unfold; cbn beta iota.

(** ** Facts about strings *)

Section string_facts.
Implicit Types (s p q : string) (c : ascii).

Lemma string_app_length p q :
  String.length (p +:+ q) = (String.length p + String.length q)%nat.
Proof. induction p as [|c p IH]; simpl; [reflexivity | now f_equal]. Qed.

Lemma string_app_assoc p q s : (p +:+ q) +:+ s = p +:+ (q +:+ s).
Proof. induction p as [|c p IH]; simpl; [reflexivity | now f_equal]. Qed.

Lemma string_app_nil_r p : p +:+ "" = p.
Proof. induction p as [|c p IH]; simpl; [reflexivity | now f_equal]. Qed.

Lemma string_get_app_length p c s :
  String.get (String.length p) (p +:+ String c s) = Some c.
Proof. induction p as [|d p IH]; simpl; [reflexivity | exact IH]. Qed.

(** A non-empty string is a string followed by its last character. *)
Lemma string_snoc_inv s :
  s <> "" -> exists p c, s = p +:+ String c "".
Proof.
  induction s as [|d s IH]; [congruence | intros _].
  destruct s as [|e s].
  - exists "", d. reflexivity.
  - destruct IH as (p & c & Hp); [congruence |].
    exists (String d p), c. simpl. now rewrite <- Hp.
Qed.

Lemma string_snoc_inj p q c d :
  p +:+ String c "" = q +:+ String d "" -> p = q /\ c = d.
Proof.
  revert q. induction p as [|x p IH]; intros [|y q]; simpl; intros H.
  - now inversion H.
  - inversion H as [[Hx Hq]]. destruct q; discriminate.
  - inversion H as [[Hx Hq]]. destruct p; discriminate.
  - inversion H as [[Hx Hq]]. destruct (IH _ Hq) as [-> ->]. now subst.
Qed.

Lemma std_equal_prefix p q name :
  Strings.std_equal (String.length p) (p +:+ q) name = true <->
  exists s, name = p +:+ s.
Proof.
  revert name. induction p as [|x p IH]; intros name; simpl.
  - split; [intros _; now exists name | reflexivity].
  - destruct name as [|y name].
    + split; [discriminate | intros [s Hs]; discriminate].
    + rewrite andb_true_iff, IH. split.
      * intros [Hxy [s ->]]. apply Ascii.eqb_eq in Hxy. subst. now exists s.
      * intros [s Hs]. inversion Hs; subst. split; [apply Ascii.eqb_refl | now exists s].
Qed.

Lemma starts_with_spec s p :
  Strings.starts_with s p = true <-> exists rest, s = p +:+ rest.
Proof.
  revert s. induction p as [|x p IH]; intros s; simpl.
  - split; [intros _; now exists s | reflexivity].
  - destruct s as [|y s].
    + split; [discriminate | intros [r Hr]; discriminate].
    + rewrite andb_true_iff, IH. split.
      * intros [Hxy [r ->]]. apply Ascii.eqb_eq in Hxy. subst. now exists r.
      * intros [r Hr]. inversion Hr; subst. split; [apply Ascii.eqb_refl | now exists r].
Qed.

Lemma contains_spec s needle :
  Strings.contains s needle = true <-> exists a b, s = a +:+ needle +:+ b.
Proof.
  induction s as [|c s IH]; simpl.
  - rewrite orb_false_r, starts_with_spec. split.
    + intros [r Hr]. now exists "", r.
    + intros (a & b & H). destruct a; [now exists b | discriminate].
  - rewrite orb_true_iff, IH, starts_with_spec. split.
    + intros [[r Hr] | (a & b & ->)].
      * now exists "", r.
      * now exists (String c a), b.
    + intros ([|d a] & b & H).
      * left. now exists b.
      * right. inversion H; subst. now exists a, b.
Qed.

Lemma contains_char_spec s ch :
  Strings.contains_char s ch = true <-> exists a b, s = a +:+ String ch b.
Proof.
  induction s as [|c s IH]; simpl.
  - split; [discriminate | intros ([|d a] & b & H); discriminate].
  - rewrite orb_true_iff, IH. split.
    + intros [Hc | (a & b & ->)].
      * apply Ascii.eqb_eq in Hc. subst. now exists "", s.
      * now exists (String c a), b.
    + intros ([|d a] & b & H); inversion H; subst.
      * left. apply Ascii.eqb_refl.
      * right. now exists a, b.
Qed.

Lemma substr_app p rest : Strings.substr (String.length p) (p +:+ rest) = rest.
Proof. induction p; simpl; auto. Qed.

End string_facts.

Section package_pattern_match_facts.
Import Routing.

(** The pattern ends in a star: the wildcard branch decides. *)
Lemma ppm_wildcard name p :
  Strings.size (p +:+ "*") <= SIZE_MAX ->
  package_pattern_match name (p +:+ "*") =
    if Strings.std_equal (String.length p) (p +:+ "*") name
    then Strings.size (p +:+ "*") else 0.
Proof.
  unfold package_pattern_match, Strings.size, size_t_sub, SIZE_MAX, Strings.at_.
  rewrite string_app_length. simpl String.length. intros Hsz.
  replace (Z.of_nat (String.length p + 1) - 1) with (Z.of_nat (String.length p)) by lia.
  rewrite Z.mod_small by lia.
  rewrite Nat2Z.id, string_get_app_length.
  destruct (Z.of_nat (String.length p) <? 0) eqn:Hneg; [lia |].
  rewrite bool_decide_eq_true_2 by reflexivity.
  replace (Z.of_nat (String.length p + 1) =? 0) with false
    by (symmetry; apply Z.eqb_neq; lia).
  simpl negb. cbv iota. simpl andb.
  destruct (Strings.std_equal (String.length p) (p +:+ "*") name) eqn:Heq.
  - apply std_equal_prefix in Heq as [s ->].
    rewrite string_app_length.
    replace (_ <=? _) with true by (symmetry; apply Z.leb_le; lia). reflexivity.
  - now rewrite andb_false_r.
Qed.

(** The pattern does not end in a star: the exact branch decides. *)
Lemma ppm_exact name pattern :
  Strings.size pattern <= SIZE_MAX ->
  (forall p, pattern <> p +:+ "*") ->
  package_pattern_match name pattern =
    if String.eqb name pattern then SIZE_MAX else 0.
Proof.
  intros Hsz Hns. unfold package_pattern_match.
  destruct (decide (pattern = "")) as [-> | Hne]; [reflexivity |].
  destruct (string_snoc_inv _ Hne) as (p & c & ->).
  assert (c <> "*"%char) as Hc by (intros ->; now apply (Hns p)).
  revert Hsz. unfold Strings.size, size_t_sub, SIZE_MAX, Strings.at_.
  rewrite string_app_length. simpl String.length. intros Hsz.
  replace (Z.of_nat (String.length p + 1) - 1) with (Z.of_nat (String.length p)) by lia.
  rewrite Z.mod_small by lia.
  rewrite Nat2Z.id, string_get_app_length.
  destruct (Z.of_nat (String.length p) <? 0) eqn:Hneg; [lia |].
  rewrite bool_decide_eq_false_2 by congruence.
  now rewrite andb_false_r.
Qed.

End package_pattern_match_facts.

(** ** Pattern routing *)

Section routing_facts.
Import Routing.

Lemma ends_in_star_dec (pattern : string) :
  (exists prefix, pattern = prefix +:+ "*") \/ (forall prefix, pattern <> prefix +:+ "*").
Proof.
  destruct (decide (pattern = "")) as [-> | Hne].
  - right. intros [|c prefix]; discriminate.
  - destruct (string_snoc_inv _ Hne) as (prefix & c & ->).
    destruct (decide (c = "*"%char)) as [-> | Hc].
    + left. now exists prefix.
    + right. intros q Hq. apply string_snoc_inj in Hq as [_ ?]. congruence.
Qed.

Lemma ppm_nonneg name pattern : 0 <= package_pattern_match name pattern.
Proof.
  unfold package_pattern_match, Strings.size, SIZE_MAX.
  repeat match goal with |- context [if ?b then _ else _] => destruct b end; lia.
Qed.

Lemma fold_max_ge name pats acc :
  acc <= fold_left (fun longest pattern => Z.max longest (package_pattern_match name pattern))
           pats acc.
Proof.
  revert acc. induction pats as [|p pats IH]; intros acc; simpl; [lia |].
  specialize (IH (Z.max acc (package_pattern_match name p))). lia.
Qed.

Lemma fold_max_upper name pats acc p :
  In p pats ->
  package_pattern_match name p <=
  fold_left (fun longest pattern => Z.max longest (package_pattern_match name pattern))
    pats acc.
Proof.
  revert acc. induction pats as [|q pats IH]; intros acc; simpl; [tauto |].
  intros [-> | Hin].
  - pose proof (fold_max_ge name pats (Z.max acc (package_pattern_match name p))). lia.
  - now apply IH.
Qed.

Lemma fold_max_attained name pats acc :
  let m := fold_left (fun longest pattern => Z.max longest (package_pattern_match name pattern))
             pats acc in
  m = acc \/ exists p, In p pats /\ m = package_pattern_match name p.
Proof.
  revert acc. induction pats as [|q pats IH]; intros acc; simpl; [now left |].
  destruct (IH (Z.max acc (package_pattern_match name q))) as [Heq | (p & Hin & Hp)].
  - destruct (Z.max_spec acc (package_pattern_match name q)) as [[_ Hm] | [_ Hm]].
    + right. exists q. split; [now left | simpl in *; lia].
    + left. simpl in *. lia.
  - right. exists p. split; [now right | exact Hp].
Qed.

(** [longest_prefix] is the greatest score of a pattern, [0] without one. *)
Lemma longest_prefix_max name pats :
  (forall p, In p pats -> package_pattern_match name p <= longest_prefix name pats) /\
  (longest_prefix name pats = 0 \/
   exists p, In p pats /\ longest_prefix name pats = package_pattern_match name p).
Proof.
  split.
  - intros p Hin. now apply fold_max_upper.
  - apply (fold_max_attained name pats 0).
Qed.

Lemma longest_prefix_pos_iff name pats :
  0 < longest_prefix name pats <->
  exists p, In p pats /\ 0 < package_pattern_match name p.
Proof.
  destruct (longest_prefix_max name pats) as [Hub Hatt]. split.
  - intros Hpos. destruct Hatt as [H0 | (p & Hin & Hp)]; [lia |].
    exists p. split; [assumption | lia].
  - intros (p & Hin & Hp). specialize (Hub p Hin). lia.
Qed.

End routing_facts.

Section stable_sort_facts.
Import Routing.
Context {A : Type} (key : A -> Z).

Lemma stable_insert_perm x l : Permutation (stable_insert (key_before key) x l) (x :: l).
Proof.
  induction l as [|y l IH]; simpl; [reflexivity |].
  destruct (key_before key y x); [| reflexivity].
  rewrite IH. apply perm_swap.
Qed.

Lemma stable_sort_perm l : Permutation (stable_sort (key_before key) l) l.
Proof.
  induction l as [|x l IH]; simpl; [reflexivity |].
  rewrite stable_insert_perm. now constructor.
Qed.

Lemma stable_insert_sorted x l :
  StronglySorted (fun a b => key a >= key b) l ->
  StronglySorted (fun a b => key a >= key b) (stable_insert (key_before key) x l).
Proof.
  induction 1 as [|y l Hsorted IH Hall]; simpl.
  - repeat constructor.
  - unfold key_before at 1. destruct (Z.ltb_spec (key x) (key y)) as [Hlt | Hge].
    + constructor; [assumption |].
      eapply Permutation_Forall; [symmetry; apply stable_insert_perm |].
      constructor; [lia | assumption].
    + constructor; [now constructor |].
      constructor; [lia |].
      eapply Forall_impl; [exact Hall |]. simpl. intros; lia.
Qed.

Lemma stable_sort_sorted l :
  StronglySorted (fun a b => key a >= key b) (stable_sort (key_before key) l).
Proof.
  induction l as [|x l IH]; simpl; [constructor | now apply stable_insert_sorted].
Qed.

(** Stability: the elements of one key keep their order. *)
Lemma stable_insert_filter k x l :
  List.filter (fun a => key a =? k) (stable_insert (key_before key) x l) =
  List.filter (fun a => key a =? k) (x :: l).
Proof.
  induction l as [|y l IH]; [reflexivity |].
  simpl stable_insert. unfold key_before at 1.
  destruct (Z.ltb_spec (key x) (key y)) as [Hlt | Hge]; [| reflexivity].
  simpl in *. rewrite IH.
  destruct (Z.eqb_spec (key x) k), (Z.eqb_spec (key y) k); try reflexivity. lia.
Qed.

Lemma stable_sort_filter k l :
  List.filter (fun a => key a =? k) (stable_sort (key_before key) l) =
  List.filter (fun a => key a =? k) l.
Proof.
  induction l as [|x l IH]; [reflexivity |].
  simpl stable_sort. rewrite stable_insert_filter. simpl. now rewrite IH.
Qed.

End stable_sort_facts.

Section stable_sort_map.
Import Routing.
Context {A B : Type} (f : A -> B) (comp : B -> B -> bool).

Lemma stable_insert_map x l :
  stable_insert comp (f x) (map f l) =
  map f (stable_insert (fun a b => comp (f a) (f b)) x l).
Proof.
  induction l as [|y l IH]; [reflexivity |].
  simpl. destruct (comp (f y) (f x)); simpl; [now rewrite IH | reflexivity].
Qed.

Lemma stable_sort_map l :
  stable_sort comp (map f l) = map f (stable_sort (fun a b => comp (f a) (f b)) l).
Proof.
  induction l as [|x l IH]; [reflexivity |].
  simpl. now rewrite IH, stable_insert_map.
Qed.

End stable_sort_map.

Section routing_claims.
Import Routing.

(** C1. For every name and pattern (of a size a [size_t] holds),
    [package_pattern_match name pattern] is: the size of the pattern when
    the pattern ends in a star and the name starts with the pattern less
    that star; [SIZE_MAX] when the pattern does not end in a star and the
    name is the pattern; [0] in every other case. In particular the score
    of ["curl"] is [SIZE_MAX] against ["curl"], 3 against ["cu*"], 0 against
    ["cu"] and 1 against ["*"]. *)
Theorem package_pattern_match_spec (name pattern : string) :
  Strings.size pattern <= SIZE_MAX ->
  (forall prefix, pattern = prefix +:+ "*" ->
     (exists rest, name = prefix +:+ rest) ->
     package_pattern_match name pattern = Strings.size pattern) /\
  ((forall prefix, pattern <> prefix +:+ "*") ->
     name = pattern ->
     package_pattern_match name pattern = SIZE_MAX) /\
  (~ (exists prefix rest, pattern = prefix +:+ "*" /\ name = prefix +:+ rest) ->
   ~ ((forall prefix, pattern <> prefix +:+ "*") /\ name = pattern) ->
     package_pattern_match name pattern = 0) /\
  package_pattern_match "curl" "curl" = SIZE_MAX /\
  package_pattern_match "curl" "cu*" = 3 /\
  package_pattern_match "curl" "cu" = 0 /\
  package_pattern_match "curl" "*" = 1.
Proof.
  intros Hsize. split; [| split; [| split]].
  - intros prefix -> Hstarts.
    rewrite ppm_wildcard by assumption.
    apply (std_equal_prefix prefix "*") in Hstarts. now rewrite Hstarts.
  - intros Hnostar ->.
    rewrite ppm_exact by assumption. now rewrite String.eqb_refl.
  - intros Hnoprefix Hnoexact.
    destruct (ends_in_star_dec pattern) as [[prefix ->] | Hnostar].
    + rewrite ppm_wildcard by assumption.
      destruct (Strings.std_equal _ _ _) eqn:Heq; [| reflexivity].
      apply std_equal_prefix in Heq as [rest ->].
      exfalso. apply Hnoprefix. now exists prefix, rest.
    + rewrite ppm_exact by assumption.
      destruct (String.eqb_spec name pattern) as [-> | _]; [| reflexivity].
      exfalso. now apply Hnoexact.
  - repeat split; reflexivity.
Qed.

Lemma package_pattern_match_spec_witness :
  Strings.size "boost-*" <= SIZE_MAX /\
  package_pattern_match "boost-asio" "boost-*" = 7.
Proof.
  assert (Strings.size "boost-*" <= SIZE_MAX) as Hsize by (vm_compute; discriminate).
  split; [exact Hsize |].
  destruct (package_pattern_match_spec "boost-asio" "boost-*" Hsize) as [Hwild _].
  apply (Hwild "boost-"); [reflexivity | now exists "asio"].
Defined.

Context {Impl : Type}.
Implicit Types (rs : RegistrySet Impl) (r : Registry Impl).

Lemma registry_score_nonneg name r : 0 <= registry_score name r.
Proof. apply (fold_max_ge name (patterns r) 0). Qed.

Lemma collect_candidates_acc name (regs : list (Registry Impl)) acc :
  fold_left
    (fun candidates registry =>
       let lp := longest_prefix name (patterns registry) in
       if negb (lp =? 0)
       then candidates ++ [mkCandidate (implementation registry) lp]
       else candidates)
    regs acc =
  acc ++ map (fun r => mkCandidate (implementation r) (registry_score name r))
             (List.filter (fun r => 0 <? registry_score name r) regs).
Proof.
  revert acc. induction regs as [|r regs IH]; intros acc; simpl.
  - now rewrite app_nil_r.
  - rewrite IH. fold (registry_score name r).
    pose proof (registry_score_nonneg name r).
    destruct (Z.eqb_spec (registry_score name r) 0) as [H0 | Hne],
             (Z.ltb_spec 0 (registry_score name r)); simpl; try lia.
    + reflexivity.
    + now rewrite <- app_assoc.
Qed.

Lemma registries_for_port_sorted rs name :
  registries_for_port rs name =
  map implementation
    (stable_sort (key_before (registry_score name)) (matching_registries name rs)).
Proof.
  unfold registries_for_port, collect_candidates.
  rewrite collect_candidates_acc. simpl app.
  fold (matching_registries name rs).
  destruct (matching_registries name rs) as [|r l] eqn:Hm; [reflexivity |].
  rewrite <- Hm. clear Hm.
  set (mk := fun r => mkCandidate (implementation r) (registry_score name r)).
  destruct (map mk (matching_registries name rs)) eqn:Hmap.
  - destruct (matching_registries name rs); [reflexivity | discriminate].
  - rewrite <- Hmap. rewrite (stable_sort_map mk candidate_before).
    rewrite map_map. reflexivity.
Qed.

(** C2. For every port name: the score of a registry is the greatest
    score of its patterns, and is positive exactly when one of its patterns
    matches; [registries_for_port] returns the implementations of the
    matching registries, each once, ordered by descending score, the
    registries of one score in the order of the configuration;
    [registry_for_port] returns the first of them when a pattern of some
    registry matches, and the default registry (possibly none) when no
    pattern matches. *)
Theorem registries_for_port_spec rs (name : string) :
  (forall r, In r (registries rs) ->
     (forall p, In p (patterns r) -> package_pattern_match name p <= registry_score name r) /\
     (0 < registry_score name r <->
      exists p, In p (patterns r) /\ 0 < package_pattern_match name p) /\
     (0 < registry_score name r ->
      exists p, In p (patterns r) /\ registry_score name r = package_pattern_match name p)) /\
  exists sorted : list (Registry Impl),
    registries_for_port rs name = map implementation sorted /\
    Permutation sorted (matching_registries name rs) /\
    StronglySorted (fun a b => registry_score name a >= registry_score name b) sorted /\
    (forall k,
       List.filter (fun r => registry_score name r =? k) sorted =
       List.filter (fun r => registry_score name r =? k) (matching_registries name rs)) /\
    registry_for_port rs name =
      match sorted with
      | [] => default_registry rs
      | first :: _ => Some (implementation first)
      end /\
    ((exists r p, In r (registries rs) /\ In p (patterns r) /\
                  0 < package_pattern_match name p) ->
     exists first rest, sorted = first :: rest /\
       registry_for_port rs name = Some (implementation first) /\
       forall r, In r (registries rs) -> registry_score name r <= registry_score name first) /\
    ((forall r p, In r (registries rs) -> In p (patterns r) ->
                  package_pattern_match name p = 0) ->
     registries_for_port rs name = [] /\
     registry_for_port rs name = default_registry rs).
Proof.
  split.
  - intros r _. destruct (longest_prefix_max name (patterns r)) as [Hub Hatt].
    split; [exact Hub |]. split; [apply longest_prefix_pos_iff |].
    intros Hpos. destruct Hatt as [H0 | Hp]; [unfold registry_score in Hpos; lia | exact Hp].
  - set (sorted := stable_sort (key_before (registry_score name)) (matching_registries name rs)).
    assert (Permutation sorted (matching_registries name rs)) as Hperm
      by apply stable_sort_perm.
    assert (StronglySorted (fun a b => registry_score name a >= registry_score name b) sorted)
      as Hsorted by apply stable_sort_sorted.
    assert (registry_for_port rs name =
            match sorted with
            | [] => default_registry rs
            | first :: _ => Some (implementation first)
            end) as Hfirst.
    { unfold registry_for_port. rewrite registries_for_port_sorted. fold sorted.
      now destruct sorted. }
    exists sorted. split; [apply registries_for_port_sorted |].
    split; [exact Hperm |]. split; [exact Hsorted |].
    split; [intros k; apply stable_sort_filter |].
    split; [exact Hfirst |]. split.
    + intros (r & p & Hr & Hp & Hpos).
      assert (In r (matching_registries name rs)) as Hin.
      { apply filter_In. split; [exact Hr |]. apply Z.ltb_lt.
        apply longest_prefix_pos_iff. now exists p. }
      destruct sorted as [|first rest] eqn:Hs.
      { apply Permutation_nil in Hperm. rewrite Hperm in Hin. destruct Hin. }
      exists first, rest. split; [reflexivity |]. split; [exact Hfirst |].
      intros r' Hr'.
      destruct (Z.ltb_spec 0 (registry_score name r')) as [Hpos' | Hle].
      * assert (In r' (first :: rest)) as Hin'.
        { eapply Permutation_in; [symmetry; exact Hperm |].
          apply filter_In. split; [exact Hr' | now apply Z.ltb_lt]. }
        inversion Hsorted as [|? ? _ Hall]; subst.
        destruct Hin' as [-> | Hin']; [lia |].
        rewrite Forall_forall in Hall. specialize (Hall r').
        rewrite <- list_elem_of_In in Hin'. specialize (Hall Hin'). lia.
      * pose proof (registry_score_nonneg name first). lia.
    + intros Hnone.
      assert (matching_registries name rs = []) as Hempty.
      { unfold matching_registries.
        destruct (List.filter _ _) as [|r l] eqn:Hf; [reflexivity |].
        assert (In r (List.filter (fun r => 0 <? registry_score name r) (registries rs)))
          as Hin by (rewrite Hf; now left).
        apply filter_In in Hin as [Hr Hpos]. apply Z.ltb_lt in Hpos.
        apply longest_prefix_pos_iff in Hpos as (p & Hp & Hpp).
        specialize (Hnone r p Hr Hp). lia. }
      unfold registry_for_port. rewrite registries_for_port_sorted, Hempty. now split.
Qed.

End routing_claims.

(** The routing scenarios of the spec, with numbers for the registries. *)
Section routing_examples.
Import Routing.

Example registry_for_port_exact_beats_prefix :
  registry_for_port
    (mkRegistrySet [mkRegistry ["cu*"%string] 1%nat; mkRegistry ["curl"%string] 2%nat] None)
    "curl" = Some 2%nat /\
  registries_for_port
    (mkRegistrySet [mkRegistry ["cu*"%string] 1%nat; mkRegistry ["curl"%string] 2%nat] None)
    "curl" = [2%nat; 1%nat].
Proof. split; reflexivity. Qed.

Example registry_for_port_longest_prefix_then_order :
  registries_for_port
    (mkRegistrySet
       [mkRegistry ["b*"%string] 1%nat;
        mkRegistry ["boost-*"%string; "zlib"%string] 2%nat;
        mkRegistry ["boost-*"%string] 3%nat;
        mkRegistry ["fmt"%string] 4%nat] (Some 0%nat))
    "boost-asio" = [2%nat; 3%nat; 1%nat].
Proof. reflexivity. Qed.

Example registry_for_port_no_match_is_default :
  registry_for_port (mkRegistrySet [mkRegistry ["boost-*"%string] 1%nat] (Some 0%nat))
    "zlib" = Some 0%nat /\
  registry_for_port (mkRegistrySet [mkRegistry ["boost-*"%string] 1%nat] None)
    "zlib" = None /\
  registry_for_port (mkRegistrySet [mkRegistry ["boost-*"%string] 1%nat] None)
    "boost-asio" = Some 1%nat.
Proof. repeat split; reflexivity. Qed.

End routing_examples.

(** ** The path of a filesystem registry entry *)

Section components_facts.
Import VersionDb.

Lemma components_nonempty s : components s <> [].
Proof.
  destruct s as [|c s]; simpl; [discriminate |].
  destruct (Ascii.eqb c "/"); [discriminate |].
  destruct (components s); discriminate.
Qed.

Lemma components_cons c s :
  components (String c s) =
  if Ascii.eqb c "/" then "" :: components s
  else String c (hd "" (components s)) :: tl (components s).
Proof.
  simpl. destruct (Ascii.eqb c "/"); [reflexivity |].
  pose proof (components_nonempty s).
  destruct (components s); [congruence | reflexivity].
Qed.

(** [components] really splits at the separators. *)
Lemma join_components_components s : join_components (components s) = s.
Proof.
  induction s as [|c s IH]; [reflexivity |].
  rewrite components_cons.
  pose proof (components_nonempty s) as Hne.
  destruct (Ascii.eqb_spec c "/") as [-> | Hc].
  - simpl. destruct (components s) as [|e es]; [congruence |].
    simpl in *. now rewrite IH.
  - destruct (components s) as [|e es]; [congruence |].
    simpl in *. destruct es; simpl in *; now rewrite <- IH.
Qed.

Lemma components_no_separator s :
  Forall (fun element => Strings.contains_char element "/" = false) (components s).
Proof.
  induction s as [|c s IH]; [repeat constructor |].
  rewrite components_cons.
  pose proof (components_nonempty s) as Hne.
  destruct (Ascii.eqb_spec c "/") as [-> | Hc].
  - constructor; [reflexivity | exact IH].
  - destruct (components s) as [|e es]; [congruence |].
    inversion IH; subst. constructor; [| assumption].
    simpl. destruct (Ascii.eqb_spec c "/"); [congruence | assumption].
Qed.

(** The elements behind the first one are the elements of what follows
    the first separator. *)
Lemma components_find s :
  tl (components s) =
  match std_find s "/" with
  | EmptyString => []
  | String _ rest => components rest
  end.
Proof.
  induction s as [|c s IH]; [reflexivity |].
  rewrite components_cons. simpl std_find.
  destruct (Ascii.eqb c "/"); [reflexivity |]. exact IH.
Qed.

Lemma std_find_shorter s a rest :
  std_find s "/" = String a rest -> (String.length rest < String.length s)%nat.
Proof.
  induction s as [|c s IH]; simpl; [discriminate |].
  destruct (Ascii.eqb c "/").
  - intros Heq. inversion Heq; subst. lia.
  - intros Heq. specialize (IH Heq). lia.
Qed.

(** The loop, unfolded once. *)
Lemma dots_loop_unfold first :
  dots_loop first =
  match std_find first "/" with
  | EmptyString => true
  | String _ EmptyString => true
  | String _ (String c1 after1) =>
      if negb (Ascii.eqb c1 ".") then dots_loop (String c1 after1)
      else
        match after1 with
        | EmptyString => false
        | String c2 after2 =>
            if Ascii.eqb c2 "/" then false
            else if negb (Ascii.eqb c2 ".") then dots_loop (String c2 after2)
            else
              match after2 with
              | EmptyString => false
              | String c3 after3 =>
                  if Ascii.eqb c3 "/" then false else dots_loop (String c3 after3)
              end
        end
  end.
Proof.
  rewrite dots_loop_equation_1.
  destruct (inspect (std_find first "/")) as [[|a [|c1 after1]] Hfind].
  - rewrite dots_loop_clause_1_equation_1. now rewrite Hfind.
  - rewrite dots_loop_clause_1_equation_2. now rewrite Hfind.
  - rewrite dots_loop_clause_1_equation_3. rewrite Hfind.
    destruct (negb (Ascii.eqb c1 ".")); [reflexivity |].
    destruct after1 as [|c2 [|c3 after3]]; reflexivity.
Qed.

(** The loop accepts exactly when no element behind the first one is [.]
    or [..]. *)
Lemma dots_loop_components first :
  dots_loop first = forallb not_dots (tl (components first)).
Proof.
  remember (String.length first) as n eqn:Hn.
  revert first Hn. induction n as [n IH] using lt_wf_ind. intros first ->.
  rewrite dots_loop_unfold, components_find.
  destruct (std_find first "/") as [|a [|c1 after1]] eqn:Hfind; [reflexivity.. |].
  apply std_find_shorter in Hfind. simpl in Hfind.
  assert (forall c s, (String.length s <= String.length after1)%nat ->
            dots_loop (String c s) = forallb not_dots (tl (components (String c s))))
    as IH'.
  { intros c s Hs. eapply IH; [| reflexivity]. simpl. lia. }
  rewrite (components_cons c1 after1).
  destruct (Ascii.eqb_spec c1 ".") as [-> | Hc1]; simpl negb; cbv iota.
  - (* the element starts with a dot *)
    replace (Ascii.eqb "." "/") with false by reflexivity.
    destruct after1 as [|c2 after2]; [reflexivity |].
    rewrite (components_cons c2 after2).
    destruct (Ascii.eqb_spec c2 "/") as [-> | Hc2]; [reflexivity |].
    destruct (Ascii.eqb_spec c2 ".") as [-> | Hc2']; simpl negb; cbv iota.
    + destruct after2 as [|c3 after3]; [reflexivity |].
      rewrite (components_cons c3 after3).
      destruct (Ascii.eqb_spec c3 "/") as [-> | Hc3]; [reflexivity |].
      rewrite IH' by (simpl; lia).
      rewrite (components_cons c3 after3).
      destruct (Ascii.eqb_spec c3 "/"); [congruence |].
      simpl. reflexivity.
    + rewrite IH' by (simpl; lia).
      rewrite (components_cons c2 after2).
      destruct (Ascii.eqb_spec c2 "/"); [congruence |].
      simpl hd. simpl tl. simpl forallb.
      replace (not_dots (String "." (String c2 (hd "" (components after2))))) with true;
        [reflexivity |].
      unfold not_dots. simpl.
      destruct (Ascii.eqb_spec c2 "."); [congruence |].
      destruct (hd "" (components after2)); reflexivity.
  - rewrite IH' by lia.
    rewrite (components_cons c1 after1).
    destruct (Ascii.eqb_spec c1 "/") as [-> | Hc1'].
    + reflexivity.
    + simpl forallb.
      replace (not_dots (String c1 (hd "" (components after1)))) with true;
        [reflexivity |].
      unfold not_dots. simpl.
      destruct (Ascii.eqb_spec c1 "."); [congruence |]. reflexivity.
Qed.

End components_facts.

Section registry_path_claims.
Import VersionDb.

Lemma not_dots_spec element :
  not_dots element = true <-> element <> "."%string /\ element <> ".."%string.
Proof.
  unfold not_dots. rewrite andb_true_iff, !negb_true_iff.
  split.
  - intros [H1 H2]. split; intros ->; discriminate.
  - intros [H1 H2]. split.
    + destruct (String.eqb_spec element "."); congruence.
    + destruct (String.eqb_spec element ".."); congruence.
Qed.

Lemma valid_registry_path_b_spec path :
  valid_registry_path_b path = true <-> valid_registry_path path.
Proof.
  unfold valid_registry_path_b, valid_registry_path.
  rewrite !andb_true_iff, !negb_true_iff.
  rewrite starts_with_spec, forallb_forall, Forall_forall.
  rewrite <- !not_true_iff_false, contains_char_spec, contains_spec.
  split.
  - intros [[[Hstart Hback] Hslash] Hdots]. repeat split; try assumption.
    + now apply not_dots_spec, Hdots, list_elem_of_In.
    + now apply not_dots_spec, Hdots, list_elem_of_In.
  - intros (Hstart & Hback & Hslash & Hdots). repeat split; try assumption.
    intros element Hin. apply not_dots_spec, Hdots. now apply list_elem_of_In.
Qed.

(** Behind [$/] the loop decides for all the elements: the first one is [$]. *)
Lemma dots_loop_after_dollar rest :
  dots_loop ("$/" +:+ rest) = forallb not_dots (components ("$/" +:+ rest)).
Proof.
  rewrite dots_loop_components.
  change ("$/" +:+ rest) with (String "$" (String "/" rest)).
  rewrite (components_cons "$"). reflexivity.
Qed.

Context `{Externals}.

(** What [visit_object] gives for a filesystem entry with a ["path"]
    string: the checks of the source, in its order. *)
Lemma visit_object_filesystem root obj r path :
  Json.get obj PATH = Some (Json.Str path) ->
  fst (visit_object Filesystem root obj r) =
    if valid_registry_path_b path
    then
      let sv := fst (visit_required_schemed_deserializer entry_type_name obj r) in
      Some (mkEntry (sv_version sv) (sv_scheme sv) "" (root </> Strings.substr 2 path))
    else None.
Proof.
  intros Hget. unfold visit_object, valid_registry_path_b.
  destruct (visit_required_schemed_deserializer entry_type_name obj r) as [sv r'].
  unfold Json.required_object_field. rewrite Hget.
  unfold Json.visit_in_key.
  cbn [Json.visit RegistryPathStringDeserializer Json.StringDeserializer fst].
  destruct (Strings.starts_with path "$/") eqn:Hstart; cbn [negb andb fst];
    [| reflexivity].
  destruct (Strings.contains_char path "\") eqn:Hback; cbn [negb andb orb fst];
    [reflexivity |].
  destruct (Strings.contains path "//") eqn:Hslash; cbn [negb andb orb fst];
    [reflexivity |].
  apply starts_with_spec in Hstart as [rest ->].
  rewrite dots_loop_after_dollar.
  destruct (forallb not_dots _); reflexivity.
Qed.

(** C6. The deserializer of a filesystem version database entry accepts a
    ["path"] string exactly when it begins with [$/] and holds no
    backslash, no [//] and no element [.] or [..]; the entry it gives holds
    the registry root joined with what follows [$/]. It rejects
    [$/foo\bar], [$/foo//bar], [$/./foo], [$/foo/../bar] and [foo], and
    accepts [$/foo/bar]. *)
Theorem registry_path_accepted_iff_valid (root : Path) (obj : Json.Obj)
    (r : Json.Reader) (path : string) :
  Json.get obj PATH = Some (Json.Str path) ->
  (is_Some (fst (visit_object Filesystem root obj r)) <-> valid_registry_path path) /\
  (forall entry, fst (visit_object Filesystem root obj r) = Some entry ->
     exists rest, path = "$/" +:+ rest /\ p entry = root </> rest) /\
  (In path ["$/foo\bar"; "$/foo\\bar"; "$/foo//bar"; "$/./foo"; "$/foo/../bar"; "foo"]%string ->
     fst (visit_object Filesystem root obj r) = None) /\
  (path = "$/foo/bar"%string ->
     exists entry, fst (visit_object Filesystem root obj r) = Some entry /\
       p entry = root </> "foo/bar").
Proof.
  intros Hget. rewrite (visit_object_filesystem root obj r path Hget).
  split; [| split; [| split]].
  - rewrite <- valid_registry_path_b_spec.
    destruct (valid_registry_path_b path); split; intros Hs;
      try reflexivity; try discriminate; try (now eexists).
    now destruct Hs.
  - intros entry. destruct (valid_registry_path_b path) eqn:Hvalid; [| discriminate].
    intros [= <-]. apply valid_registry_path_b_spec in Hvalid as [[rest ->] _].
    exists rest. split; reflexivity.
  - intros Hin. simpl in Hin.
    repeat destruct Hin as [<- | Hin]; try reflexivity. destruct Hin.
  - intros ->. eexists. split; reflexivity.
Qed.

End registry_path_claims.

(** ** Loading a versions file *)

Section versions_file_claims.
Import VersionDb.

Lemma path_join_two c lhs1 rhs :
  c <> "/"%char ->
  String lhs1 (String c "") </> rhs = String lhs1 (String c ("/" +:+ rhs)).
Proof.
  intros Hc. unfold path_join. simpl String.length. cbn [String.get].
  rewrite bool_decide_eq_false_2 by congruence. reflexivity.
Qed.

Lemma relative_path_to_versions_cons c0 rest :
  relative_path_to_versions (String c0 rest) =
  Done (path_plus (Strings.c_str [c0; "-"%char; zero] </> String c0 rest) ".json").
Proof. reflexivity. Qed.

Lemma relative_path_to_versions_letter c0 rest :
  c0 <> zero ->
  relative_path_to_versions (String c0 rest) =
  Done (String c0 ("-/" +:+ String c0 rest +:+ ".json")).
Proof.
  intros Hc0. rewrite relative_path_to_versions_cons.
  unfold Strings.c_str.
  destruct (Ascii.eqb_spec c0 zero) as [? | _]; [congruence |].
  replace (Ascii.eqb "-" zero) with false by reflexivity.
  rewrite path_join_two by discriminate.
  unfold path_plus. simpl. now rewrite string_app_nil_r || reflexivity.
Qed.

Context `{Externals}.

(** Past its two guards, [load_versions_file] is a function of what the
    file system and the parser give. *)
Lemma load_versions_file_unfold fs type registry_versions c0 rest registry_root :
  ~ (type = Filesystem /\ registry_root = ""%string) ->
  forall relative, relative_path_to_versions (String c0 rest) = Done relative ->
  load_versions_file fs type registry_versions (String c0 rest) registry_root =
  let versions_file_path := registry_versions </> relative in
  let '(contents, ec) := read_contents fs versions_file_path in
  if negb (ec =? 0) then
    if ec =? no_such_file_or_directory
    then Done (Value None)
    else Done (Error (format_filesystem_call_error ec "read_contents" [versions_file_path]))
  else
    match Json_parse contents EmptyString with
    | Error parse_error => Done (Error parse_error)
    | Value (Json.Object versions_object) =>
        match Json.get versions_object "versions" with
        | Some (Json.Array arr) =>
            let '(db_entries, r) :=
              Json.visit_in_key (Json.Array arr) "versions" []
                (VersionDbEntryArrayDeserializer type registry_root) [] in
            match r with
            | [] => Done (Value (Some db_entries))
            | _ :: _ =>
                Done (Error (format_error "FailedToParseVersionsFile" [versions_file_path]
                             ++ join_lines r))
            end
        | _ => Done (Error (format_error "FailedToParseNoVersionsArray" [versions_file_path]))
        end
    | Value _ => Done (Error (format_error "FailedToParseNoTopLevelObj" [versions_file_path]))
    end.
Proof.
  intros Hguard relative Hrel. unfold load_versions_file.
  rewrite Hrel.
  match goal with
  | |- context [if ?b && ?c then Halted _ else _] => destruct (b && c) eqn:Hg
  end.
  - apply andb_true_iff in Hg as [Ht Hr].
    apply bool_decide_eq_true in Ht, Hr. tauto.
  - cbv zeta. destruct (read_contents fs (registry_versions </> relative)) as [contents ec].
    destruct (negb (ec =? 0)); [reflexivity |].
    destruct (Json_parse contents "") as [[| | | | | |obj]|]; try reflexivity.
    destruct (Json.get obj "versions") as [[]|]; reflexivity.
Qed.

(** C7. For every port (of a non-empty name, and not a filesystem registry
    without a root, the two preconditions of the function):
    [load_versions_file] returns no entries and no error when reading the
    versions file of the port fails with "no such file or directory"; it
    returns an error when reading fails with another error code, when the
    contents are not valid JSON, when the JSON has no top-level object, and
    when the object has no ["versions"] array. *)
Theorem load_versions_file_missing_or_malformed (fs : ReadOnlyFilesystem)
    (type : VersionDbType) (registry_versions : Path) (port_name : string)
    (registry_root : Path) :
  port_name <> ""%string ->
  ~ (type = Filesystem /\ registry_root = ""%string) ->
  exists relative,
    relative_path_to_versions port_name = Done relative /\
    let file := registry_versions </> relative in
    let contents := fst (read_contents fs file) in
    let ec := snd (read_contents fs file) in
    let result := load_versions_file fs type registry_versions port_name registry_root in
    (ec = no_such_file_or_directory -> result = Done (Value None)) /\
    (ec <> 0 -> ec <> no_such_file_or_directory ->
       result = Done (Error (format_filesystem_call_error ec "read_contents" [file]))) /\
    (ec = 0 -> forall parse_error,
       Json_parse contents "" = Error parse_error ->
       result = Done (Error parse_error)) /\
    (ec = 0 -> forall value,
       Json_parse contents "" = Value value -> Json.is_object value = false ->
       result = Done (Error (format_error "FailedToParseNoTopLevelObj" [file]))) /\
    (ec = 0 -> forall obj,
       Json_parse contents "" = Value (Json.Object obj) ->
       (forall arr, Json.get obj "versions" <> Some (Json.Array arr)) ->
       result = Done (Error (format_error "FailedToParseNoVersionsArray" [file]))).
Proof.
  intros Hname Hguard. destruct port_name as [|c0 rest]; [congruence |].
  eexists. split; [apply relative_path_to_versions_cons |].
  cbv zeta.
  rewrite (load_versions_file_unfold fs type registry_versions c0 rest registry_root
             Hguard _ (relative_path_to_versions_cons c0 rest)).
  cbv zeta.
  destruct (read_contents fs _) as [contents ec]. simpl fst. simpl snd.
  repeat split.
  - intros ->. reflexivity.
  - intros Hne Hne'.
    destruct (Z.eqb_spec ec 0); [congruence |].
    destruct (Z.eqb_spec ec no_such_file_or_directory); [congruence |]. reflexivity.
  - intros -> parse_error Hparse. simpl. now rewrite Hparse.
  - intros -> value Hparse Hobj. simpl. rewrite Hparse.
    destruct value; try reflexivity. discriminate.
  - intros -> obj Hparse Hnoarr. simpl. rewrite Hparse.
    destruct (Json.get obj "versions") as [[]|] eqn:Hget; try reflexivity.
    exfalso. now apply (Hnoarr elems).
Qed.

End versions_file_claims.

Lemma load_versions_file_in_bounds `{Externals} fs type registry_versions port_name
    registry_root :
  port_name <> ""%string ->
  VersionDb.load_versions_file fs type registry_versions port_name registry_root
    <> Halted OutOfBounds.
Proof.
  destruct port_name as [|c0 rest]; [congruence | intros _].
  unfold VersionDb.load_versions_file.
  destruct (_ && _); [discriminate |].
  rewrite relative_path_to_versions_cons.
  destruct (read_contents fs _) as [contents ec].
  destruct (negb (ec =? 0)); [destruct (ec =? _); discriminate |].
  destruct (Json_parse contents "") as [[| | | | | |obj]|]; try discriminate.
  destruct (Json.get obj "versions") as [[]|]; try discriminate.
  destruct (Json.visit_in_key _ _ _ _ _) as [db_entries [|]]; discriminate.
Qed.

(** C10. The path of a versions file is [<first-letter>-/<port-name>.json],
    where the first letter is read at index 0 of the port name with no
    check: for a non-empty name the index is in bounds and the path is
    computed (the directory is a C string, so the form is the one given when
    the first character is not NUL); for the empty name the read is out of
    bounds. Hence [load_versions_file] and [GitRegistry::get_versions],
    which reach it, never read out of bounds for a non-empty name, and do
    for the empty one. *)
Theorem relative_path_to_versions_in_bounds :
  (forall c0 rest,
     Strings.at_ (String c0 rest) 0 = Some c0 /\
     VersionDb.relative_path_to_versions (String c0 rest) =
       Done (path_plus (Strings.c_str [c0; "-"%char; zero] </> String c0 rest) ".json") /\
     (c0 <> zero ->
      VersionDb.relative_path_to_versions (String c0 rest) =
        Done (String c0 ("-/" +:+ String c0 rest +:+ ".json")))) /\
  VersionDb.relative_path_to_versions "zlib" = Done "z-/zlib.json"%string /\
  VersionDb.relative_path_to_versions "" = Halted OutOfBounds /\
  (forall (E : Externals) fs type registry_versions port_name registry_root,
     port_name <> ""%string ->
     VersionDb.load_versions_file fs type registry_versions port_name registry_root
       <> Halted OutOfBounds) /\
  (forall (E : Externals) fs registry_versions,
     VersionDb.load_versions_file fs VersionDb.Git registry_versions "" ""
       = Halted OutOfBounds) /\
  (forall (E : Externals) cache port_name vdb_path s,
     port_name <> ""%string ->
     GitRegistry.get_versions cache port_name vdb_path s <> Halted OutOfBounds) /\
  (forall (E : Externals) cache vdb_path s,
     GitRegistry.cache_get cache s !! ""%string = None ->
     GitRegistry.get_versions cache "" vdb_path s = Halted OutOfBounds).
Proof.
  split; [| split; [| split; [| split; [| split; [| split]]]]].
  - intros c0 rest. split; [reflexivity |].
    split; [apply relative_path_to_versions_cons | apply relative_path_to_versions_letter].
  - reflexivity.
  - reflexivity.
  - intros E. apply load_versions_file_in_bounds.
  - reflexivity.
  - intros E cache port_name vdb_path s Hname.
    unfold GitRegistry.get_versions, Cache_get_lazy.
    unfold mbind, M_mbind, M_bind, M_gets, M_get, M_modify, mret, M_mret, M_ret, M_halt.
    destruct (GitRegistry.cache_get cache s !! port_name); [discriminate |].
    pose proof (load_versions_file_in_bounds
                  (get_filesystem (Lock.world (GitRegistry.m_paths s)))
                  VersionDb.Git vdb_path port_name "" Hname) as Hload.
    destruct (VersionDb.load_versions_file _ _ _ _ _) as [[[[]|]|]|h];
      try discriminate.
    intros [= ->]. now apply Hload.
  - intros E cache vdb_path s Hmiss.
    unfold GitRegistry.get_versions, Cache_get_lazy.
    unfold mbind, M_mbind, M_bind, M_gets, M_get, M_modify, mret, M_mret, M_ret, M_halt.
    rewrite Hmiss. reflexivity.
Qed.

(** ** Baselines *)

Section baseline_claims.
Import BaselineParse.
Context `{Externals}.

(** C8. For every file contents and origin, [parse_baseline_versions] with
    the empty baseline name is [parse_baseline_versions] with the name
    ["default"]; and when the contents parse to a top-level object without
    the requested key (["default"] for the empty name), the result is "no
    baseline found", a value and not an error, whereas contents that do not
    parse give the parse error. *)
Theorem parse_baseline_versions_default (contents origin : string) :
  parse_baseline_versions contents "" origin =
    parse_baseline_versions contents "default" origin /\
  (forall baseline obj,
     Json_parse contents origin = Value (Json.Object obj) ->
     Json.get obj (if Strings.size baseline =? 0 then "default"%string else baseline) = None ->
     parse_baseline_versions contents baseline origin = Value None) /\
  (forall baseline parse_error,
     Json_parse contents origin = Error parse_error ->
     parse_baseline_versions contents baseline origin = Error parse_error /\
     parse_baseline_versions contents baseline origin <> Value None).
Proof.
  split; [reflexivity |]. split.
  - intros baseline obj Hparse Hget. unfold parse_baseline_versions.
    rewrite Hparse. cbv zeta. now rewrite Hget.
  - intros baseline parse_error Hparse. unfold parse_baseline_versions.
    rewrite Hparse. split; [reflexivity | discriminate].
Qed.

End baseline_claims.

(** ** The lock file *)

Section lock_claims.
Import Lock.
Context `{Externals}.

(** C9. When the fetch fails, [LockFile::get_or_fetch] (for a pair that
    has no entry) and [LockFile::Entry::ensure_up_to_date] (for a stale
    entry) return the error of the fetch and leave the lock file as it was:
    no entry added, the commit and the stale flag of every entry and the
    modified flag unchanged. *)
Theorem lockfile_failed_fetch_unchanged :
  (forall (repo ref : string) (s : Paths) (e : LocalizedString) (w : World),
     find_reference (equal_range (installed_lockfile s) repo) ref = None ->
     git_fetch_from_remote_registry repo ref (world s) = (Error e, w) ->
     exists s',
       get_or_fetch repo ref s = Done (Error e, s') /\
       installed_lockfile s' = installed_lockfile s /\
       lockdata (installed_lockfile s') = lockdata (installed_lockfile s) /\
       modified (installed_lockfile s') = modified (installed_lockfile s)) /\
  (forall (entry : Entry) (s : Paths) (d : EntryData) (e : LocalizedString) (w : World),
     entry_data (installed_lockfile s) entry = Some d ->
     stale d = true ->
     git_fetch_from_remote_registry (data_repo entry) (reference d) (world s) = (Error e, w) ->
     exists s',
       ensure_up_to_date entry s = Done (Error e, s') /\
       installed_lockfile s' = installed_lockfile s /\
       entry_data (installed_lockfile s') entry = Some d /\
       modified (installed_lockfile s') = modified (installed_lockfile s)).
Proof.
  split.
  - intros repo ref s e w Hfind Hfetch.
    unfold get_or_fetch, paths_git_fetch_from_remote_registry, log, set_lockfile.
    unfold mbind, M_mbind, M_bind, M_gets, M_get, M_modify, mret, M_mret, M_ret.
    rewrite Hfind. cbn [world trace installed_lockfile]. rewrite Hfetch.
    eexists. split; [reflexivity |]. now repeat split.
  - intros entry s d e w Hdata Hstale Hfetch.
    unfold ensure_up_to_date, deref, paths_git_fetch_from_remote_registry, log.
    unfold mbind, M_mbind, M_bind, M_gets, M_get, M_modify, mret, M_mret, M_ret.
    rewrite Hdata, Hstale. cbn [world trace installed_lockfile]. rewrite Hfetch.
    eexists. split; [reflexivity |]. now repeat split.
Qed.

End lock_claims.

(** ** The builtin files registry *)

Section builtin_files_claims.
Import BuiltinFilesRegistry.
Context `{Externals}.

(** [get_scf] gives the recipe stored for the directory, or loads the
    directory and stores what it got. *)
Lemma get_scf_Done (name path : string) (s : State) r s' :
  get_scf name path s = Done (r, s') ->
  (m_scfs s !! path = Some r /\ s' = s) \/
  (m_scfs s !! path = None /\
   r = try_load_port (get_filesystem (Lock.world (m_paths s))) name path /\
   s' = set_m_scfs (<[path := r]> (m_scfs s)) s).
Proof.
  unfold get_scf, Cache_get_lazy. M_step.
  destruct (m_scfs s !! path) as [cached|]; M_step; intros Hrun;
    injection Hrun as <- <-; [left | right]; now repeat split.
Qed.

(** C5. When [get_scf] gives the recipe [scf] for the directory
    [<builtin-ports>/<name>] of the requested port: if the name of the
    recipe is not the requested name, [get_port] returns the "unexpected
    port name" error; otherwise, if the version of the recipe is not the
    requested version, it prints a warning and returns no port and no
    error; otherwise it returns the port directory with the location
    [git+https://github.com/Microsoft/vcpkg#ports/<name>]. *)
Theorem builtin_files_get_port_spec (spec : VersionSpec) (s s1 : State)
    (scf : SourceControlFile) :
  get_scf (port_name spec) (m_builtin_ports_directory s </> port_name spec) s
    = Done (Value (Some scf), s1) ->
  let port_directory := m_builtin_ports_directory s </> port_name spec in
  (scf_name scf <> port_name spec ->
     get_port spec s =
       Done (Error (format_error "UnexpectedPortName"
                      [scf_name scf; port_name spec; port_directory]), s1)) /\
  (scf_name scf = port_name spec -> scf_version scf <> version spec ->
     exists warning,
       get_port spec s =
         Done (Value None,
               mkState (Lock.mkPaths (Lock.world (m_paths s1))
                          (Lock.trace (m_paths s1) ++ [PrintlnWarning warning])
                          (Lock.installed_lockfile (m_paths s1)))
                       (m_builtin_ports_directory s1) (m_scfs s1))) /\
  (scf_name scf = port_name spec -> scf_version scf = version spec ->
     get_port spec s =
       Done (Value (Some (mkPathAndLocation port_directory
               ("git+https://github.com/Microsoft/vcpkg#ports/" +:+ port_name spec))), s1)).
Proof.
  intros Hscf. cbv zeta. unfold get_port.
  M_step. rewrite Hscf. cbn beta iota.
  split; [| split].
  - intros Hname.
    destruct (String.eqb_spec (scf_name scf) (port_name spec)); [congruence |].
    reflexivity.
  - intros Hname Hversion.
    destruct (String.eqb_spec (scf_name scf) (port_name spec)); [| congruence].
    cbn [negb]. rewrite bool_decide_eq_false_2 by assumption. cbn [negb].
    eexists. reflexivity.
  - intros Hname Hversion.
    destruct (String.eqb_spec (scf_name scf) (port_name spec)); [| congruence].
    cbn [negb]. rewrite bool_decide_eq_true_2 by assumption. reflexivity.
Qed.

End builtin_files_claims.

(** ** The claims so far, on the small world *)

Section scenario_witnesses.
Import Scenario.

Lemma registry_path_accepted_iff_valid_witness :
  Json.get [("version"%string, Json.Str "1.0"); ("path"%string, Json.Str "$/ports/zlib/1.0")]
    VersionDb.PATH = Some (Json.Str "$/ports/zlib/1.0") /\
  exists entry,
    fst (VersionDb.visit_object VersionDb.Filesystem "/registry"
           [("version"%string, Json.Str "1.0"); ("path"%string, Json.Str "$/ports/zlib/1.0")] [])
      = Some entry /\
    VersionDb.p entry = "/registry/ports/zlib/1.0"%string.
Proof.
  assert (Json.get [("version"%string, Json.Str "1.0");
                    ("path"%string, Json.Str "$/ports/zlib/1.0")] VersionDb.PATH
          = Some (Json.Str "$/ports/zlib/1.0")) as Hget by reflexivity.
  split; [exact Hget |].
  destruct (registry_path_accepted_iff_valid "/registry" _ [] _ Hget)
    as (Hiff & Hentry & _).
  assert (valid_registry_path "$/ports/zlib/1.0") as Hvalid
    by (apply valid_registry_path_b_spec; reflexivity).
  apply Hiff in Hvalid as [entry Hsome].
  exists entry. split; [exact Hsome |].
  destruct (Hentry entry Hsome) as (rest & Hrest & ->).
  injection Hrest as <-. reflexivity.
Defined.

Lemma load_versions_file_missing_or_malformed_witness :
  "zlib"%string <> ""%string /\
  ~ (VersionDb.Git = VersionDb.Filesystem /\ ""%string = ""%string) /\
  VersionDb.load_versions_file tt VersionDb.Git "/registries/tree-0" "zlib" ""
    = Done (Value None).
Proof.
  assert ("zlib"%string <> ""%string) as Hname by discriminate.
  assert (~ (VersionDb.Git = VersionDb.Filesystem /\ ""%string = ""%string)) as Hguard
    by (intros [Htype _]; discriminate).
  split; [exact Hname |]. split; [exact Hguard |].
  destruct (load_versions_file_missing_or_malformed (H := externals) tt VersionDb.Git
              "/registries/tree-0" "zlib" "" Hname Hguard)
    as (relative & Hrel & Hmissing & _).
  apply Hmissing. injection Hrel as <-. reflexivity.
Defined.

Lemma builtin_files_get_port_spec_witness :
  BuiltinFilesRegistry.get_port (mkVersionSpec "zlib" (mkVersion "1.3" 0)) builtin_files
    = Done (Value (Some (mkPathAndLocation "/vcpkg/ports/zlib"
                           "git+https://github.com/Microsoft/vcpkg#ports/zlib")),
            BuiltinFilesRegistry.mkState paths "/vcpkg/ports"
              {[ "/vcpkg/ports/zlib"%string :=
                   Value (Some (mkScf "zlib" (mkVersion "1.3" 0))) ]}) /\
  exists warning,
    BuiltinFilesRegistry.get_port (mkVersionSpec "zlib" (mkVersion "1.2" 0)) builtin_files
    = Done (Value None,
            BuiltinFilesRegistry.mkState
              (Lock.mkPaths tt [PrintlnWarning warning] lockfile) "/vcpkg/ports"
              {[ "/vcpkg/ports/zlib"%string :=
                   Value (Some (mkScf "zlib" (mkVersion "1.3" 0))) ]}).
Proof.
  assert (
    BuiltinFilesRegistry.get_scf "zlib"
      (BuiltinFilesRegistry.m_builtin_ports_directory builtin_files </> "zlib") builtin_files
    = Done (Value (Some (mkScf "zlib" (mkVersion "1.3" 0))),
            BuiltinFilesRegistry.mkState paths "/vcpkg/ports"
              {[ "/vcpkg/ports/zlib"%string :=
                   Value (Some (mkScf "zlib" (mkVersion "1.3" 0))) ]}))
    as Hscf by reflexivity.
  split.
  - destruct (builtin_files_get_port_spec (mkVersionSpec "zlib" (mkVersion "1.3" 0))
                builtin_files _ _ Hscf) as (_ & _ & Hmatch).
    apply Hmatch; reflexivity.
  - destruct (builtin_files_get_port_spec (mkVersionSpec "zlib" (mkVersion "1.2" 0))
                builtin_files _ _ Hscf) as (_ & Hversion & _).
    destruct Hversion as [warning Hw]; [reflexivity | discriminate |].
    exists warning. exact Hw.
Defined.

End scenario_witnesses.

(** ** The manifest provider *)

Section provider_facts.
Import Provider.
Context `{Externals}.

(** [get_control_file] on the name of the manifest gives the manifest,
    whatever the overlays hold. *)
Lemma manifest_get_control_file_own_name (mp : ManifestProviderImpl) (s : State) :
  manifest_get_control_file mp (manifest_name mp) s = Done (Value TheManifest, s).
Proof.
  unfold manifest_get_control_file. now rewrite String.eqb_refl.
Qed.

(** [load_all_control_files] emplaces the manifest behind the overlays: a
    port of the overlays that has the name of the manifest keeps its place
    in the map. *)
Lemma manifest_load_all_control_files_shadowed (mp : ManifestProviderImpl)
    (out out' : gmap string ScflPtr) (s s' : State) (ptr : ScflPtr) :
  overlay_load_all_control_files out s = Done (out', s') ->
  out' !! manifest_name mp = Some ptr ->
  manifest_load_all_control_files mp out s = Done (out', s') /\
  out' !! manifest_name mp = Some ptr.
Proof.
  intros Hoverlay Hin. split; [| exact Hin].
  unfold manifest_load_all_control_files. M_step. rewrite Hoverlay.
  unfold map_emplace. now rewrite Hin.
Qed.

(** Without such a port the manifest is in the map. *)
Lemma manifest_load_all_control_files_fresh (mp : ManifestProviderImpl)
    (out out' : gmap string ScflPtr) (s s' : State) :
  overlay_load_all_control_files out s = Done (out', s') ->
  out' !! manifest_name mp = None ->
  exists out'',
    manifest_load_all_control_files mp out s = Done (out'', s') /\
    out'' !! manifest_name mp = Some TheManifest.
Proof.
  intros Hoverlay Hnotin.
  exists (<[manifest_name mp := TheManifest]> out'). split.
  - unfold manifest_load_all_control_files. M_step. rewrite Hoverlay.
    unfold map_emplace. now rewrite Hnotin.
  - apply lookup_insert_eq.
Qed.

End provider_facts.

Section provider_claims.
Import Provider Scenario.

(** C4, on the project [app] whose overlay directory holds a port [app]:
    [get_control_file "app"] gives the recipe of the manifest, but in the
    map of [load_all_control_files] the name [app] points to the recipe of
    the overlay, which is another recipe: [std::map::emplace] does not
    replace the entry the overlays made. *)
Theorem manifest_load_all_control_files_keeps_overlay :
  manifest_get_control_file manifest_provider "app" overlay_provider
    = Done (Value TheManifest, overlay_provider) /\
  exists (out : gmap string ScflPtr) (s' : State),
    manifest_load_all_control_files manifest_provider ∅ overlay_provider = Done (out, s') /\
    out !! "app"%string = Some (InOverlayCache "app") /\
    pointee manifest_provider s' (InOverlayCache "app") = Some overlay_app /\
    pointee manifest_provider s' TheManifest
      = Some (m_manifest_scf_and_location manifest_provider) /\
    overlay_app <> m_manifest_scf_and_location manifest_provider.
Proof.
  split; [reflexivity |].
  assert (overlay_load_all_control_files ∅ overlay_provider
          = Done ({[ "app"%string := InOverlayCache "app" ]},
                  mkState paths ["/overlays"%string]
                    {[ "app"%string := Value overlay_app ]})) as Hoverlay
    by reflexivity.
  destruct (manifest_load_all_control_files_shadowed manifest_provider _ _ _ _
              (InOverlayCache "app") Hoverlay) as [Hall Hin]; [reflexivity |].
  eexists _, _. split; [exact Hall |]. split; [exact Hin |].
  split; [reflexivity |]. split; [reflexivity | discriminate].
Qed.

End provider_claims.

(** ** The git registry *)

Section monad_facts.
Context {St A B : Type}.

Lemma M_bind_Done (f : A -> M St B) (m : M St A) s b s2 :
  M_bind f m s = Done (b, s2) ->
  exists a s1, m s = Done (a, s1) /\ f a s1 = Done (b, s2).
Proof.
  unfold M_bind. destruct (m s) as [[a s1]|h]; [| discriminate].
  intros Hf. now exists a, s1.
Qed.

Lemma M_bind_run (f : A -> M St B) (m : M St A) s a s1 :
  m s = Done (a, s1) -> M_bind f m s = f a s1.
Proof. unfold M_bind. now intros ->. Qed.

Lemma M_bind_halt (f : A -> M St B) (m : M St A) s h :
  m s = Halted h -> M_bind f m s = Halted h.
Proof. unfold M_bind. now intros ->. Qed.

End monad_facts.

(** Runs a member function symbolically: unfolds the monad and splits on
    every value the code branches on. *)
Ltac M_case :=
  match goal with
  | |- context [match ?x with _ => _ end] =>
      lazymatch x with
      | context [match _ with _ => _ end] => fail
      | _ => destruct x eqn:?
      end
  end.
Ltac M_cases := repeat (M_step; M_case); M_step.

Section git_registry_facts.
Import Lock GitRegistry.
Context `{Externals}.

Lemma not_refreshed_refl s : not_refreshed s s.
Proof. split; [reflexivity |]. exists []. now rewrite app_nil_r. Qed.

Lemma not_refreshed_trans s1 s2 s3 :
  not_refreshed s1 s2 -> not_refreshed s2 s3 -> not_refreshed s1 s3.
Proof.
  intros [Hl12 (ev12 & Ht12 & Hf12)] [Hl23 (ev23 & Ht23 & Hf23)].
  split; [congruence |]. exists (ev12 ++ ev23).
  rewrite Ht23, Ht12, <- app_assoc. split; [reflexivity | now apply Forall_app].
Qed.

Lemma live_side_kept_refl s : live_side_kept s s.
Proof. now repeat split. Qed.

Lemma live_side_kept_trans s1 s2 s3 :
  live_side_kept s1 s2 -> live_side_kept s2 s3 -> live_side_kept s1 s3.
Proof.
  unfold live_side_kept. intros (? & ? & ? & ? & ?) (? & ? & ? & ? & ?).
  repeat split; congruence.
Qed.

(** Reading through the iterator changes nothing. *)
Lemma entry_stale_run lock_entry s d :
  entry_data (installed_lockfile (m_paths s)) lock_entry = Some d ->
  on_paths (entry_stale lock_entry) s = Done (stale d, s).
Proof.
  intros Hd. unfold on_paths, entry_stale, deref. M_step. rewrite Hd.
  now destruct s.
Qed.

Lemma entry_stale_Done lock_entry s b s' :
  on_paths (entry_stale lock_entry) s = Done (b, s') ->
  s' = s /\ exists d,
    entry_data (installed_lockfile (m_paths s)) lock_entry = Some d /\ b = stale d.
Proof.
  unfold on_paths, entry_stale, deref. M_step.
  destruct (entry_data _ _) as [d|]; [| discriminate].
  intros [= <- <-]. split; [now destruct s | now exists d].
Qed.

(** [get_versions_tree_from_entry] runs git, but no fetch, and changes no
    member. *)
Lemma get_versions_tree_from_entry_frame lock_entry emit s r s' :
  get_versions_tree_from_entry lock_entry emit s = Done (r, s') ->
  this s' = this s /\ not_refreshed s s'.
Proof.
  unfold get_versions_tree_from_entry, on_paths, entry_commit_id, deref,
    paths_git_find_object_id, paths_git_extract_tree, log.
  M_cases; intros [= <- <-]; (split; [reflexivity |]);
    (split; [reflexivity |]); cbn [m_paths trace];
    eexists; (split; [rewrite <- ?app_assoc; reflexivity |]);
    repeat constructor.
Qed.

(** [get_versions] reads the disk and stores the result in its cache. *)
Lemma get_versions_frame cache name vdb_path s r s' :
  get_versions cache name vdb_path s = Done (r, s') ->
  m_paths s' = m_paths s /\
  (s' = s \/ s' = cache_set cache (<[name := r]> (cache_get cache s)) s).
Proof.
  unfold get_versions, Cache_get_lazy.
  M_cases; intros [= <- <-]; (split; [now destruct cache |]);
    first [now left | now right].
Qed.

Lemma load_git_tree_frame tree s r s' :
  load_git_tree tree s = Done (r, s') ->
  this s' = this s /\ not_refreshed s s'.
Proof.
  unfold load_git_tree, on_paths, paths_git_extract_tree, log.
  M_cases; intros [= <- <-]; (split; [reflexivity |]);
    (split; [reflexivity |]); cbn [m_paths trace];
    eexists; (split; [rewrite <- ?app_assoc; reflexivity |]);
    repeat constructor.
Qed.

End git_registry_facts.

Section cache_facts.
Context {St T : Type}.

Lemma CacheSingle_get_lazy_Done (get : St -> option T) (set : T -> St -> St)
    (f : M St T) s v s' :
  CacheSingle_get_lazy get set f s = Done (v, s') ->
  (get s = Some v /\ s' = s) \/
  (get s = None /\ exists s1, f s = Done (v, s1) /\ s' = set v s1).
Proof.
  unfold CacheSingle_get_lazy. M_step.
  destruct (get s) as [cached|].
  - intros [= <- <-]. now left.
  - destruct (f s) as [[v1 s1]|h]; [| discriminate].
    intros [= <- <-]. right. split; [reflexivity |]. now exists s1.
Qed.

Lemma CacheSingle_get_lazy_cached (get : St -> option T) (set : T -> St -> St)
    (f : M St T) s v :
  get s = Some v -> CacheSingle_get_lazy get set f s = Done (v, s).
Proof. unfold CacheSingle_get_lazy. M_step. now intros ->. Qed.

Lemma Cache_get_lazy_Done (get : St -> gmap string T)
    (set : gmap string T -> St -> St) (k : string) (f : M St T) s v s' :
  Cache_get_lazy get set k f s = Done (v, s') ->
  (get s !! k = Some v /\ s' = s) \/
  (get s !! k = None /\ exists s1, f s = Done (v, s1) /\ s' = set (<[k := v]> (get s1)) s1).
Proof.
  unfold Cache_get_lazy. M_step.
  destruct (get s !! k) as [cached|].
  - intros [= <- <-]. now left.
  - destruct (f s) as [[v1 s1]|h]; [| discriminate].
    intros [= <- <-]. right. split; [reflexivity |]. now exists s1.
Qed.

End cache_facts.

Section git_registry_steps.
Import Lock GitRegistry.
Context `{Externals}.

Lemma on_paths_Done {A : Type} (m : M Paths A) s a s' :
  on_paths m s = Done (a, s') ->
  exists paths', m (m_paths s) = Done (a, paths') /\ s' = mkState paths' (this s).
Proof.
  unfold on_paths, M_zoom. destruct (m (m_paths s)) as [[a1 p1]|h]; [| discriminate].
  intros [= <- <-]. now exists p1.
Qed.

(** Storing into a cache of the stale side keeps the rest. *)
Lemma stale_cache_update_kept s s1 c :
  m_paths s1 = m_paths s ->
  (s1 = s \/ s1 = cache_set StaleVersions c s) ->
  not_refreshed s s1 /\ live_side_kept s s1.
Proof.
  intros Hpaths [-> | ->].
  - split; [apply not_refreshed_refl | apply live_side_kept_refl].
  - split; [| now repeat split]. split; [reflexivity |].
    exists []. now rewrite app_nil_r.
Qed.

(** [get_stale_versions] refreshes nothing and leaves the live side alone. *)
Lemma get_stale_versions_frame lock_entry name s r s' :
  get_stale_versions lock_entry name s = Done (r, s') ->
  not_refreshed s s' /\ live_side_kept s s'.
Proof.
  unfold get_stale_versions, mbind, M_mbind. intros Hrun.
  apply M_bind_Done in Hrun as (is_stale & s0 & Hstale & Hrun).
  apply entry_stale_Done in Hstale as [-> _].
  destruct is_stale; [| discriminate]. cbn [negb] in Hrun.
  apply M_bind_Done in Hrun as (maybe_path & s1 & Htree & Hrun).
  assert (not_refreshed s s1 /\ live_side_kept s s1) as [Hq1 Hl1].
  { apply CacheSingle_get_lazy_Done in Htree as [[_ ->] | (_ & s2 & Hload & ->)].
    - split; [apply not_refreshed_refl | apply live_side_kept_refl].
    - apply get_versions_tree_from_entry_frame in Hload as [Hthis Hq].
      split.
      + destruct Hq as [Hlock Htrace]. split; [exact Hlock | exact Htrace].
      + unfold live_side_kept. cbn. rewrite Hthis. now repeat split. }
  assert (not_refreshed s1 s' /\ live_side_kept s1 s') as [Hq2 Hl2].
  { destruct maybe_path as [path | e].
    - apply get_versions_frame in Hrun as [Hpaths Hcases].
      eapply stale_cache_update_kept; eassumption.
    - apply Cache_get_lazy_Done in Hrun as [[_ ->] | (_ & s2 & Hret & ->)].
      + split; [apply not_refreshed_refl | apply live_side_kept_refl].
      + injection Hret as Hr Hs. subst s2.
        eapply stale_cache_update_kept; [reflexivity | right; reflexivity]. }
  split; [eapply not_refreshed_trans | eapply live_side_kept_trans]; eassumption.
Qed.

(** After [get_lock_entry] the entry is cached. *)
Lemma get_lock_entry_Done s r s0 :
  get_lock_entry s = Done (r, s0) ->
  m_lock_entry (this s0) = Some r /\
  m_versions_tree (this s0) = m_versions_tree (this s) /\
  m_repo (this s0) = m_repo (this s) /\
  m_reference (this s0) = m_reference (this s).
Proof.
  unfold get_lock_entry. intros Hrun.
  apply CacheSingle_get_lazy_Done in Hrun as [[Hcached ->] | (_ & s1 & Hload & ->)].
  - now repeat split.
  - unfold mbind, M_mbind in Hload.
    apply M_bind_Done in Hload as (t & s2 & Hgets & Hload).
    injection Hgets as <- <-.
    apply on_paths_Done in Hload as (paths' & _ & ->). now repeat split.
Qed.

(** A lock entry that [get_lock_entry] gives and that is stale was found in
    the lock file, not fetched: a fetched entry is fresh. *)
Lemma get_lock_entry_stale_not_refreshed s lock_entry s0 d :
  get_lock_entry s = Done (Value lock_entry, s0) ->
  entry_data (installed_lockfile (m_paths s0)) lock_entry = Some d ->
  stale d = true ->
  not_refreshed s s0.
Proof.
  unfold get_lock_entry. intros Hrun Hd Hstale.
  apply CacheSingle_get_lazy_Done in Hrun as [[Hcached ->] | (_ & s1 & Hload & ->)];
    [apply not_refreshed_refl |].
  unfold mbind, M_mbind in Hload.
  apply M_bind_Done in Hload as (t & s2 & Hgets & Hload).
  injection Hgets as <- <-.
  apply on_paths_Done in Hload as (paths' & Hfetch & ->).
  revert Hfetch Hd.
  unfold get_or_fetch, paths_git_fetch_from_remote_registry, log, set_lockfile.
  M_step.
  destruct (find_reference _ _) as [it|].
  - intros [= <- <-] _. split; [reflexivity |].
    exists []. cbn. now rewrite app_nil_r.
  - cbn [world trace installed_lockfile].
    destruct (git_fetch_from_remote_registry _ _ _) as [[commit | e] w];
      [| discriminate].
    intros [= <- <-]. cbn. unfold entry_data, equal_range. cbn.
    rewrite lookup_insert_eq. cbn.
    rewrite list_lookup_middle by reflexivity.
    intros [= <-]. discriminate.
Qed.

Lemma get_lock_entry_cached s r :
  m_lock_entry (this s) = Some r -> get_lock_entry s = Done (r, s).
Proof. intros Hc. unfold get_lock_entry. now apply CacheSingle_get_lazy_cached. Qed.

(** [ensure_up_to_date] on a stale entry announces the fetch and runs it. *)
Lemma ensure_up_to_date_stale lock_entry d s r s' :
  entry_data (installed_lockfile (m_paths s)) lock_entry = Some d ->
  stale d = true ->
  on_paths (ensure_up_to_date lock_entry) s = Done (r, s') ->
  this s' = this s /\
  exists events,
    trace (m_paths s') =
      trace (m_paths s)
      ++ Println (format "FetchingRegistryInfo" [data_repo lock_entry; reference d])
      :: GitFetchFromRemoteRegistry (data_repo lock_entry) (reference d) :: events.
Proof.
  intros Hd Hstale Hrun.
  apply on_paths_Done in Hrun as (paths' & Hrun & ->). split; [reflexivity |].
  revert Hrun.
  unfold ensure_up_to_date, deref, paths_git_fetch_from_remote_registry, log,
    assign_data, set_lockfile.
  M_step. rewrite Hd. M_step. rewrite Hstale. M_step.
  cbn [world trace installed_lockfile].
  destruct (git_fetch_from_remote_registry _ _ _) as [[commit | e] w];
    intros [= <- <-]; exists []; cbn [m_paths trace];
    rewrite <- !app_assoc; reflexivity.
Qed.

(** Events only accumulate: a call that refreshed nothing still kept what
    was there. *)
Lemma refresh_forced_then repo ref s s1 s2 :
  refresh_forced repo ref s s1 -> not_refreshed s1 s2 -> refresh_forced repo ref s s2.
Proof.
  intros [events Ht] [_ (more & Ht' & _)].
  exists (events ++ more). rewrite Ht', Ht, <- app_assoc. reflexivity.
Qed.

Lemma refresh_forced_same_paths repo ref s s1 s2 :
  refresh_forced repo ref s s1 -> m_paths s2 = m_paths s1 -> refresh_forced repo ref s s2.
Proof. intros [events Ht] Hp. exists events. now rewrite Hp. Qed.

Lemma not_refreshed_same_paths s s1 s2 :
  not_refreshed s s1 -> m_paths s2 = m_paths s1 -> not_refreshed s s2.
Proof. unfold not_refreshed. intros Hq ->. exact Hq. Qed.

(** The versions lookups of the live side, once the tree path is known. *)
Lemma live_versions_lookup_paths name (maybe_live_vdb : ExpectedL Path) s r s' :
  match maybe_live_vdb with
  | Error e =>
      Cache_get_lazy (cache_get LiveVersions) (cache_set LiveVersions) name
        (mret (Error e))
  | Value live_vdb => get_versions LiveVersions name live_vdb
  end s = Done (r, s') ->
  m_paths s' = m_paths s.
Proof.
  destruct maybe_live_vdb as [path | e]; intros Hrun.
  - now apply get_versions_frame in Hrun as [Hpaths _].
  - apply Cache_get_lazy_Done in Hrun as [[_ ->] | (_ & s2 & Hret & ->)];
      [reflexivity |].
    injection Hret as Hr Hs. subst s2. now destruct s.
Qed.

(** The end of [get_port_live], once the live versions are known. *)
Lemma get_port_live_tail_frame spec
    (mm : ExpectedL (option PortVersionsGitTreesStructOfArrays)) s r s' :
  match mm with
  | Error e => mret (Error e)
  | Value (Some live_versions) =>
      match try_get_git_tree live_versions (version spec) with
      | Some git_tree => load_git_tree git_tree
      | None => mret (Value None)
      end
  | Value None => mret (Value None)
  end s = Done (r, s') ->
  not_refreshed s s'.
Proof.
  destruct mm as [[live_versions|]|e].
  - destruct (try_get_git_tree live_versions (version spec)) as [tree|].
    + intros Hrun. now apply load_git_tree_frame in Hrun as [_ Hq].
    + intros [= <- <-]. apply not_refreshed_refl.
  - intros [= <- <-]. apply not_refreshed_refl.
  - intros [= <- <-]. apply not_refreshed_refl.
Qed.

(** The first computation of the live versions tree refreshes the stale
    lock entry. *)
Lemma get_port_live_first spec lock_entry d s result s' :
  m_lock_entry (this s) = Some (Value lock_entry) ->
  entry_data (installed_lockfile (m_paths s)) lock_entry = Some d ->
  stale d = true ->
  m_versions_tree (this s) = None ->
  get_port_live spec s = Done (result, s') ->
  refresh_forced (data_repo lock_entry) (reference d) s s'.
Proof.
  intros Hentry Hd Hstale Hfresh. unfold get_port_live, mbind, M_mbind. intros Hrun.
  apply M_bind_Done in Hrun as (mm & sa & Hlive & Htail).
  unfold get_live_versions, mbind, M_mbind in Hlive.
  apply M_bind_Done in Hlive as (maybe_vdb & sb & Htree & Hlookup).
  unfold get_live_versions_tree_path in Htree.
  apply CacheSingle_get_lazy_Done in Htree as [[Hcached _] | (_ & sc & Hload & ->)];
    [congruence |].
  unfold mbind, M_mbind in Hload.
  rewrite (M_bind_run _ _ _ _ _ (get_lock_entry_cached s _ Hentry)) in Hload.
  apply M_bind_Done in Hload as (up_to_date & sd & Hensure & Hload).
  destruct (ensure_up_to_date_stale _ _ _ _ _ Hd Hstale Hensure) as [_ Hforced].
  assert (refresh_forced (data_repo lock_entry) (reference d) s sc) as Hsc.
  { destruct up_to_date as [[]|e].
    - apply get_versions_tree_from_entry_frame in Hload as [_ Hq].
      eapply refresh_forced_then; [exact Hforced | exact Hq].
    - injection Hload as <- <-. exact Hforced. }
  apply live_versions_lookup_paths in Hlookup.
  apply get_port_live_tail_frame in Htail.
  eapply refresh_forced_then; [| exact Htail].
  eapply refresh_forced_same_paths; [exact Hsc |].
  rewrite Hlookup. reflexivity.
Qed.

(** Once the live versions tree was computed, well or not, the result is
    reused and nothing is refreshed. *)
Lemma get_port_live_memoized spec v s result s' :
  m_versions_tree (this s) = Some v ->
  get_port_live spec s = Done (result, s') ->
  not_refreshed s s'.
Proof.
  intros Hcached. unfold get_port_live, mbind, M_mbind. intros Hrun.
  apply M_bind_Done in Hrun as (mm & sa & Hlive & Htail).
  unfold get_live_versions, mbind, M_mbind in Hlive.
  unfold get_live_versions_tree_path in Hlive.
  rewrite (M_bind_run _ _ _ _ _
             (CacheSingle_get_lazy_cached _ _ _ s v Hcached)) in Hlive.
  apply live_versions_lookup_paths in Hlive.
  apply get_port_live_tail_frame in Htail.
  destruct Htail as [Hlock Htrace]. split; rewrite <- Hlive; assumption.
Qed.

Lemma get_port_live_memoized_error spec e s :
  m_versions_tree (this s) = Some (Error e) ->
  m_live_versions (this s) !! port_name spec = None ->
  get_port_live spec s =
    Done (Error e,
          set_m_live_versions (<[port_name spec := Error e]> (m_live_versions (this s))) s).
Proof.
  intros Hcached Hmiss. unfold get_port_live, mbind, M_mbind.
  unfold get_live_versions, mbind, M_mbind. unfold get_live_versions_tree_path.
  unfold M_bind at 1.
  rewrite (M_bind_run _ _ _ _ _
             (CacheSingle_get_lazy_cached _ _ _ s (Error e) Hcached)).
  unfold Cache_get_lazy. M_step. cbn [cache_get]. rewrite Hmiss. reflexivity.
Qed.

End git_registry_steps.

(** ** The live lookup *)

Section git_registry_more_facts.
Import Lock GitRegistry.
Context `{Externals}.

Lemma load_git_tree_Done tree s port s' :
  load_git_tree tree s = Done (Value (Some port), s') ->
  pal_location port = "git+" +:+ m_repo (this s) +:+ "@" +:+ tree /\
  this s' = this s.
Proof.
  unfold load_git_tree, on_paths, paths_git_extract_tree, log.
  M_step. unfold M_zoom. M_step. cbn [m_paths world trace installed_lockfile].
  destruct (git_extract_tree_from_remote_registry tree _) as [[path | e] w];
    M_step; cbn [expected_map]; [| discriminate].
  intros [= <- <-]. now split.
Qed.

(** What a versions lookup returns is what its cache then holds. *)
Lemma versions_lookup_cached cache name
    (f : M State (ExpectedL (option PortVersionsGitTreesStructOfArrays))) s r s' :
  (forall v s1, f s = Done (v, s1) -> s1 = s) ->
  Cache_get_lazy (cache_get cache) (cache_set cache) name f s = Done (r, s') ->
  cache_get cache s' !! name = Some r /\
  m_paths s' = m_paths s /\
  m_repo (this s') = m_repo (this s) /\
  m_lock_entry (this s') = m_lock_entry (this s) /\
  m_versions_tree (this s') = m_versions_tree (this s) /\
  m_stale_versions_tree (this s') = m_stale_versions_tree (this s) /\
  (cache = LiveVersions -> m_stale_versions (this s') = m_stale_versions (this s)).
Proof.
  intros Hpure Hrun.
  apply Cache_get_lazy_Done in Hrun as [[Hcached ->] | (Hnone & s1 & Hload & ->)].
  - now repeat split.
  - apply Hpure in Hload as ->.
    destruct cache; cbn; rewrite lookup_insert_eq; now repeat split.
Qed.

Lemma load_versions_pure cache_path name s v s1 :
  (s0 ← M_get;
   match VersionDb.load_versions_file (get_filesystem (world (m_paths s0))) VersionDb.Git
           cache_path name EmptyString with
   | Halted h => M_halt h
   | Done (Error e) => mret (Error e)
   | Done (Value None) => mret (Value None)
   | Done (Value (Some version_entries)) => mret (Value (Some (assign version_entries)))
   end) s = Done (v, s1) ->
  s1 = s.
Proof.
  M_step.
  destruct (VersionDb.load_versions_file _ _ _ _ _) as [[[version_entries|]|e]|h];
    M_step; try discriminate; now intros [= _ <-].
Qed.

Lemma get_stale_versions_cached lock_entry name s r s' :
  get_stale_versions lock_entry name s = Done (r, s') ->
  m_stale_versions (this s') !! name = Some r.
Proof.
  unfold get_stale_versions. intros Hrun.
  apply M_bind_Done in Hrun as (is_stale & s1 & _ & Hrun).
  destruct is_stale; [| discriminate]. cbn [negb] in Hrun.
  apply M_bind_Done in Hrun as (maybe_path & s2 & _ & Hrun).
  destruct maybe_path as [path | e].
  - apply (versions_lookup_cached StaleVersions) in Hrun as [Hc _]; [exact Hc |].
    apply load_versions_pure.
  - apply (versions_lookup_cached StaleVersions) in Hrun as [Hc _]; [exact Hc |].
    now intros v s0 [= _ <-].
Qed.

(** The first computation of the live versions tree refreshes a stale
    lock entry; the stale side is not touched. *)
Lemma get_live_versions_tree_path_Done s r s' :
  get_live_versions_tree_path s = Done (r, s') ->
  m_repo (this s') = m_repo (this s) /\
  m_stale_versions (this s') = m_stale_versions (this s) /\
  m_live_versions (this s') = m_live_versions (this s) /\
  m_versions_tree (this s') = Some r.
Proof.
  unfold get_live_versions_tree_path. intros Hrun.
  apply CacheSingle_get_lazy_Done in Hrun as [[Hcached ->] | (_ & sc & Hload & ->)];
    [now repeat split |].
  enough (m_repo (this sc) = m_repo (this s) /\
          m_stale_versions (this sc) = m_stale_versions (this s) /\
          m_live_versions (this sc) = m_live_versions (this s)) as (? & ? & ?)
    by (cbn; now repeat split).
  apply M_bind_Done in Hload as (maybe_lock_entry & sa & Hlock & Hload).
  assert (m_repo (this sa) = m_repo (this s) /\
          m_stale_versions (this sa) = m_stale_versions (this s) /\
          m_live_versions (this sa) = m_live_versions (this s)) as (Hrepo & Hstale & Hlive).
  { unfold get_lock_entry in Hlock.
    apply CacheSingle_get_lazy_Done in Hlock as [[_ ->] | (_ & sb & Hfetch & ->)];
      [now repeat split |].
    revert Hfetch. M_step. intros Hfetch.
    apply on_paths_Done in Hfetch as (paths' & _ & ->). cbn. now repeat split. }
  destruct maybe_lock_entry as [lock_entry | e].
  - apply M_bind_Done in Hload as (up_to_date & sd & Hensure & Hload).
    apply on_paths_Done in Hensure as (paths' & _ & ->).
    destruct up_to_date as [[]|e].
    + apply get_versions_tree_from_entry_frame in Hload as [-> _]. cbn. now repeat split.
    + injection Hload as _ <-. cbn. now repeat split.
  - injection Hload as _ <-. now repeat split.
Qed.

Lemma get_live_versions_Done name s r s' :
  get_live_versions name s = Done (r, s') ->
  m_live_versions (this s') !! name = Some r /\
  m_repo (this s') = m_repo (this s) /\
  m_stale_versions (this s') = m_stale_versions (this s).
Proof.
  unfold get_live_versions. intros Hrun.
  apply M_bind_Done in Hrun as (maybe_vdb & sb & Htree & Hlookup).
  apply get_live_versions_tree_path_Done in Htree as (Hrepo & Hstale & _ & _).
  assert (cache_get LiveVersions s' !! name = Some r /\
          m_repo (this s') = m_repo (this sb) /\
          m_stale_versions (this s') = m_stale_versions (this sb)) as (Hc & Hr & Hs).
  { destruct maybe_vdb as [path | e].
    - apply (versions_lookup_cached LiveVersions) in Hlookup
        as (Hc & _ & Hr & _ & _ & _ & Hs); [| apply load_versions_pure].
      split; [exact Hc |]. split; [exact Hr | now apply Hs].
    - apply (versions_lookup_cached LiveVersions) in Hlookup
        as (Hc & _ & Hr & _ & _ & _ & Hs); [| now intros v s0 [= _ <-]].
      split; [exact Hc |]. split; [exact Hr | now apply Hs]. }
  split; [exact Hc |]. split; congruence.
Qed.

Lemma get_live_versions_first name lock_entry d s mm s' :
  m_lock_entry (this s) = Some (Value lock_entry) ->
  entry_data (installed_lockfile (m_paths s)) lock_entry = Some d ->
  stale d = true ->
  m_versions_tree (this s) = None ->
  get_live_versions name s = Done (mm, s') ->
  refresh_forced (data_repo lock_entry) (reference d) s s'.
Proof.
  intros Hentry Hd Hstale Hfresh. unfold get_live_versions, mbind, M_mbind. intros Hlive.
  apply M_bind_Done in Hlive as (maybe_vdb & sb & Htree & Hlookup).
  unfold get_live_versions_tree_path in Htree.
  apply CacheSingle_get_lazy_Done in Htree as [[Hcached _] | (_ & sc & Hload & ->)];
    [congruence |].
  unfold mbind, M_mbind in Hload.
  rewrite (M_bind_run _ _ _ _ _ (get_lock_entry_cached s _ Hentry)) in Hload.
  apply M_bind_Done in Hload as (up_to_date & sd & Hensure & Hload).
  destruct (ensure_up_to_date_stale _ _ _ _ _ Hd Hstale Hensure) as [_ Hforced].
  assert (refresh_forced (data_repo lock_entry) (reference d) s sc) as Hsc.
  { destruct up_to_date as [[]|e].
    - apply get_versions_tree_from_entry_frame in Hload as [_ Hq].
      eapply refresh_forced_then; [exact Hforced | exact Hq].
    - injection Hload as <- <-. exact Hforced. }
  apply live_versions_lookup_paths in Hlookup.
  eapply refresh_forced_same_paths; [exact Hsc |].
  rewrite Hlookup. reflexivity.
Qed.

(** [load_git_tree]: one extraction, and nothing else. *)
Lemma load_git_tree_run tree s result s' :
  load_git_tree tree s = Done (result, s') ->
  result =
    expected_map
      (fun path =>
         Some (mkPathAndLocation path ("git+" +:+ m_repo (this s) +:+ "@" +:+ tree)))
      (fst (git_extract_tree_from_remote_registry tree (world (m_paths s)))) /\
  trace (m_paths s') = trace (m_paths s) ++ [GitExtractTree tree] /\
  installed_lockfile (m_paths s') = installed_lockfile (m_paths s) /\
  this s' = this s.
Proof.
  unfold load_git_tree, on_paths, paths_git_extract_tree, log.
  M_step. cbn [m_paths world trace installed_lockfile].
  destruct (git_extract_tree_from_remote_registry tree _) as [maybe_path w].
  intros [= <- <-]. now repeat split.
Qed.

(** The live lookup: the versions file of the port under the live
    versions tree, unless the port is in the live cache already. *)
Lemma get_live_versions_looks_up name s live s' :
  get_live_versions name s = Done (live, s') ->
  m_live_versions (this s') !! name = Some live /\
  exists maybe_live_vdb,
    m_versions_tree (this s') = Some maybe_live_vdb /\
    (m_live_versions (this s) !! name = None ->
     match maybe_live_vdb with
     | Error e => live = Error e
     | Value live_vdb =>
         exists loaded,
           VersionDb.load_versions_file (get_filesystem (world (m_paths s')))
             VersionDb.Git live_vdb name EmptyString = Done loaded /\
           live = expected_map (fmap assign) loaded
     end).
Proof.
  intros Hrun. pose proof (get_live_versions_Done _ _ _ _ Hrun) as (Hcached & _ & _).
  split; [exact Hcached |].
  unfold get_live_versions in Hrun.
  apply M_bind_Done in Hrun as (maybe_vdb & sb & Htree & Hlookup).
  apply get_live_versions_tree_path_Done in Htree as (_ & _ & Hlive & Htree).
  exists maybe_vdb.
  destruct maybe_vdb as [live_vdb | e].
  - unfold get_versions in Hlookup.
    apply Cache_get_lazy_Done in Hlookup as [[Hhit ->] | (Hmiss & s1 & Hload & ->)].
    + split; [exact Htree |]. intros Hnone. cbn [cache_get] in Hhit. congruence.
    + pose proof (load_versions_pure _ _ _ _ _ Hload) as ->.
      split; [exact Htree |]. intros _. cbn [cache_set set_m_live_versions set_this m_paths].
      revert Hload. M_step.
      destruct (VersionDb.load_versions_file _ _ live_vdb name "")
        as [[[version_entries|]|e]|h]; M_step; try discriminate;
        intros [= <-]; now eexists.
  - apply Cache_get_lazy_Done in Hlookup as [[Hhit ->] | (Hmiss & s1 & Hload & ->)].
    + split; [exact Htree |]. intros Hnone. cbn [cache_get] in Hhit. congruence.
    + injection Hload as <- <-. split; [exact Htree |]. now intros _.
Qed.

End git_registry_more_facts.

Section git_registry_claims.
Import Lock GitRegistry.
Context `{Externals}.


End git_registry_claims.

Section git_registry_scenario.
Import Lock GitRegistry Scenario.


(** The versions tree is computed once, well or not. On the small world a
    first query for [zlib] 1.3 misses in the stale database and tries to
    refresh; the remote cannot be reached, and the error is stored as the
    live versions tree. At the second query the lock entry is still stale
    and the stale database still has no [zlib]: [get_port] returns the
    stored error, and nothing is fetched or printed. *)
Lemma get_port_after_failed_refresh_reuses_error :
  (exists e,
     get_port zlib_1_3 git_registry = Done (Error e, git_registry_after_failed_refresh) /\
     m_versions_tree (this git_registry_after_failed_refresh) = Some (Error e) /\
     get_stale_versions lock_entry "zlib" git_registry_locked
       = Done (Value None, git_registry_after_zlib_lookup) /\
     refresh_forced registry_url "main" git_registry_after_zlib_lookup
       git_registry_after_failed_refresh) /\
  get_lock_entry git_registry_after_failed_refresh
    = Done (Value lock_entry, git_registry_after_failed_refresh) /\
  entry_data (installed_lockfile (m_paths git_registry_after_failed_refresh)) lock_entry
    = Some (mkEntryData "main" "commit-0" true) /\
  get_stale_versions lock_entry "zlib" git_registry_after_failed_refresh
    = Done (Value None, git_registry_after_failed_refresh) /\
  (exists e,
     get_port zlib_1_3 git_registry_after_failed_refresh
       = Done (Error e, git_registry_after_failed_refresh)).
Proof.
  split.
  { eexists. split; [vm_compute; reflexivity |]. split; [vm_compute; reflexivity |].
    split; [vm_compute; reflexivity |].
    eexists. vm_compute. reflexivity. }
  split; [vm_compute; reflexivity |].
  split; [vm_compute; reflexivity |].
  split; [vm_compute; reflexivity |].
  eexists; vm_compute; reflexivity.
Qed.

End git_registry_scenario.

(** * More of the code *)

(** ** The lock file, continued *)

#[local] Instance Lock_Entry_eq_dec : EqDecision Lock.Entry.
Proof. solve_decision. Defined.

Section lock_facts.
Import Lock.
Context `{Externals}.

Lemma find_reference_Some range ref i :
  find_reference range ref = Some i ->
  exists d, range !! i = Some d /\ reference d = ref.
Proof.
  revert i. induction range as [|x range IH]; intros i; simpl; [discriminate |].
  destruct (String.eqb_spec (reference x) ref) as [Heq | Hne].
  - intros [= <-]. now exists x.
  - destruct (find_reference range ref) as [j|]; [| discriminate].
    intros [= <-]. exact (IH j eq_refl).
Qed.

Lemma find_reference_snoc range ref commit b :
  find_reference range ref = None ->
  find_reference (range ++ [mkEntryData ref commit b]) ref = Some (length range).
Proof.
  induction range as [|x range IH]; simpl.
  - intros _. now rewrite String.eqb_refl.
  - destruct (String.eqb (reference x) ref); [discriminate |].
    destruct (find_reference range ref); [discriminate |].
    intros _. now rewrite IH.
Qed.

Lemma equal_range_insert (m : gmap string (list EntryData)) b b' repo range repo' :
  equal_range (mkLockFile (<[repo := range]> m) b) repo' =
  if decide (repo = repo') then range else equal_range (mkLockFile m b') repo'.
Proof.
  unfold equal_range. cbn [lockdata]. destruct (decide (repo = repo')) as [<- | Hne].
  - now rewrite lookup_insert_eq.
  - now rewrite lookup_insert_ne.
Qed.

Lemma entry_data_alter (lf : LockFile) (f : EntryData -> EntryData) (b : bool)
    (entry other : Entry) :
  entry_data
    (mkLockFile
       (<[data_repo entry := alter f (data_index entry) (equal_range lf (data_repo entry))]>
          (lockdata lf)) b) other =
  if decide (other = entry) then f <$> entry_data lf entry else entry_data lf other.
Proof.
  unfold entry_data. rewrite (equal_range_insert _ _ (modified lf)).
  destruct (decide (other = entry)) as [-> | Hne].
  - rewrite decide_True by reflexivity. now rewrite list_lookup_alter_eq.
  - destruct (decide (data_repo entry = data_repo other)) as [Hrepo | Hrepo].
    + rewrite list_lookup_alter_ne; [now rewrite Hrepo |].
      intros Hidx. apply Hne. destruct other, entry. simpl in *. congruence.
    + now destruct lf.
Qed.

End lock_facts.

Section lock_extras.
Import Lock.
Context `{Externals}.

(** X1. When [LockFile::get_or_fetch] returns an entry, the entry is one of
    the repository asked for and records the reference asked for; every
    iterator that was good before the call is good after it and sees the
    same data; and either nothing at all changed (the pair was known), or
    the pair was unknown, the fetch gave a commit, and the entry is a new
    one with this commit, not stale, in a lock file marked modified. *)
Theorem get_or_fetch_entry (repo ref : string) (s s' : Paths) (entry : Entry) :
  get_or_fetch repo ref s = Done (Value entry, s') ->
  data_repo entry = repo /\
  (exists d, entry_data (installed_lockfile s') entry = Some d /\ reference d = ref) /\
  (forall e d, entry_data (installed_lockfile s) e = Some d ->
               entry_data (installed_lockfile s') e = Some d) /\
  (s' = s \/
   find_reference (equal_range (installed_lockfile s) repo) ref = None /\
   entry_data (installed_lockfile s) entry = None /\
   exists commit w,
     git_fetch_from_remote_registry repo ref (world s) = (Value commit, w) /\
     entry_data (installed_lockfile s') entry = Some (mkEntryData ref commit false) /\
     modified (installed_lockfile s') = true).
Proof.
  unfold get_or_fetch, paths_git_fetch_from_remote_registry, log, set_lockfile.
  M_step.
  destruct (find_reference _ ref) as [it|] eqn:Hfind.
  - intros [= <- <-]. destruct (find_reference_Some _ _ _ Hfind) as (d & Hd & Href).
    split; [reflexivity |]. split; [now exists d |]. split; [auto | now left].
  - cbn [world trace installed_lockfile].
    destruct (git_fetch_from_remote_registry repo ref (world s)) as [[commit | e] w] eqn:Hfetch;
      [| discriminate].
    intros [= <- <-]. cbn [installed_lockfile lockdata modified data_repo].
    assert (forall e,
      entry_data
        {| lockdata :=
             <[repo := equal_range (installed_lockfile s) repo
                       ++ [mkEntryData ref commit false]]>
               (lockdata (installed_lockfile s));
           modified := true |} e =
      if decide (repo = data_repo e)
      then (equal_range (installed_lockfile s) repo ++ [mkEntryData ref commit false])
             !! data_index e
      else entry_data (installed_lockfile s) e) as Hdata.
    { intros e. unfold entry_data.
      rewrite (equal_range_insert _ _ (modified (installed_lockfile s))).
      destruct (decide (repo = data_repo e)); [reflexivity |].
      now destruct (installed_lockfile s). }
    assert ((equal_range (installed_lockfile s) repo ++ [mkEntryData ref commit false])
              !! length (equal_range (installed_lockfile s) repo)
            = Some (mkEntryData ref commit false)) as Hnew.
    { rewrite lookup_app_r by lia. now rewrite Nat.sub_diag. }
    split; [reflexivity |]. split; [| split].
    + exists (mkEntryData ref commit false). rewrite Hdata. cbn [data_repo data_index].
      rewrite decide_True by reflexivity. now split.
    + intros e d He. rewrite Hdata. destruct (decide (repo = data_repo e)) as [-> | Hne];
        [| exact He].
      unfold entry_data in He. now rewrite lookup_app_l by (eapply lookup_lt_Some; eauto).
    + right. split; [reflexivity |]. split.
      { unfold entry_data. cbn [data_repo data_index]. apply lookup_ge_None_2. lia. }
      exists commit, w. split; [reflexivity |]. split; [| reflexivity].
      rewrite Hdata. cbn [data_repo data_index]. now rewrite decide_True by reflexivity.
Qed.

(** X2. [LockFile::get_or_fetch] fetches a pair once: after a call that
    returned an entry, the same call returns the same entry without running
    git, printing, or changing the lock file. *)
Theorem get_or_fetch_again (repo ref : string) (s s' : Paths) (entry : Entry) :
  get_or_fetch repo ref s = Done (Value entry, s') ->
  get_or_fetch repo ref s' = Done (Value entry, s').
Proof.
  intros Hrun. revert Hrun.
  unfold get_or_fetch, paths_git_fetch_from_remote_registry, log, set_lockfile.
  M_step.
  destruct (find_reference (equal_range (installed_lockfile s) repo) ref) as [it|] eqn:Hfind.
  - intros [= <- <-]. now rewrite Hfind.
  - cbn [world trace installed_lockfile].
    destruct (git_fetch_from_remote_registry repo ref (world s)) as [[commit | e] w];
      [| discriminate].
    intros [= <- <-]. cbn [installed_lockfile].
    rewrite (equal_range_insert _ _ (modified (installed_lockfile s))).
    rewrite decide_True by reflexivity.
    now rewrite (find_reference_snoc _ _ _ _ Hfind).
Qed.

(** X3. [LockFile::Entry::ensure_up_to_date] on a stale entry whose fetch
    gives a commit: the entry keeps its reference, takes the commit and is
    no longer stale, the lock file is marked modified, and no other entry
    changes. A second call then does nothing: no fetch, no output, the same
    state. *)
Theorem ensure_up_to_date_refreshes (entry : Entry) (s : Paths) (d : EntryData)
    (new_commit_id : string) (w : World) :
  entry_data (installed_lockfile s) entry = Some d ->
  stale d = true ->
  git_fetch_from_remote_registry (data_repo entry) (reference d) (world s)
    = (Value new_commit_id, w) ->
  exists s',
    ensure_up_to_date entry s = Done (Value tt, s') /\
    entry_data (installed_lockfile s') entry
      = Some (mkEntryData (reference d) new_commit_id false) /\
    modified (installed_lockfile s') = true /\
    (forall other, other <> entry ->
       entry_data (installed_lockfile s') other = entry_data (installed_lockfile s) other) /\
    ensure_up_to_date entry s' = Done (Value tt, s').
Proof.
  intros Hdata Hstale Hfetch.
  unfold ensure_up_to_date at 1. unfold deref, paths_git_fetch_from_remote_registry, log.
  unfold assign_data, set_lockfile. M_step. rewrite Hdata, Hstale.
  cbn [world trace installed_lockfile]. rewrite Hfetch.
  eexists. split; [reflexivity |]. cbn [installed_lockfile modified].
  match goal with
  | |- entry_data ?lf2 entry = _ /\ _ =>
      assert (forall other,
        entry_data lf2 other =
        if decide (other = entry)
        then Some (mkEntryData (reference d) new_commit_id false)
        else entry_data (installed_lockfile s) other) as Hafter
  end.
  { intros other.
    etrans; [exact (entry_data_alter _ _ true entry other) |].
    destruct (decide (other = entry)) as [-> | Hne].
    - etrans; [apply (f_equal (fmap _)); exact (entry_data_alter _ _ _ entry entry) |].
      rewrite decide_True by reflexivity. now rewrite Hdata.
    - etrans; [exact (entry_data_alter _ _ _ entry other) |].
      now rewrite decide_False. }
  split; [| split; [reflexivity | split]].
  - rewrite Hafter. now rewrite decide_True.
  - intros other Hne. rewrite Hafter. now rewrite decide_False.
  - unfold ensure_up_to_date, deref. M_step. cbn [installed_lockfile].
    rewrite Hafter. now rewrite decide_True.
Qed.

End lock_extras.

(** ** Routing, continued *)

Section stable_sort_head.
Import Routing.
Context {A : Type} (key : A -> Z).

(** The first element of the greatest key comes first. *)
Lemma stable_sort_first_greatest (l1 : list A) (x : A) (l2 : list A) :
  (forall y, In y l1 -> key y < key x) ->
  (forall y, In y l2 -> key y <= key x) ->
  exists tl, stable_sort (key_before key) (l1 ++ x :: l2) = x :: tl.
Proof.
  intros Hl1 Hl2. induction l1 as [|a l1 IH]; simpl.
  - destruct (stable_sort (key_before key) l2) as [|y t] eqn:Hsorted; simpl.
    + now exists [].
    + assert (In y l2) as Hy.
      { apply (Permutation_in y (stable_sort_perm key l2)). rewrite Hsorted. now left. }
      unfold key_before. specialize (Hl2 y Hy).
      replace (key x <? key y) with false by (symmetry; apply Z.ltb_ge; lia).
      now exists (y :: t).
  - destruct IH as [tl ->]; [intros y Hy; apply Hl1; now right |].
    simpl. unfold key_before at 1.
    replace (key a <? key x) with true
      by (symmetry; apply Z.ltb_lt; apply Hl1; now left).
    now eexists.
Qed.

End stable_sort_head.

Section routing_extras.
Import Routing.
Context {Impl : Type}.
Implicit Types (rs : RegistrySet Impl) (r : Registry Impl).

Lemma ppm_le_SIZE_MAX name pattern :
  Strings.size pattern < SIZE_MAX -> package_pattern_match name pattern <= SIZE_MAX.
Proof.
  unfold package_pattern_match. intros Hsize.
  repeat match goal with |- context [if ?b then _ else _] => destruct b end;
    unfold SIZE_MAX in *; lia.
Qed.

Lemma ppm_other_lt_SIZE_MAX name pattern :
  Strings.size pattern < SIZE_MAX -> pattern <> name ->
  package_pattern_match name pattern < SIZE_MAX.
Proof.
  unfold package_pattern_match. intros Hsize Hne.
  destruct (String.eqb_spec name pattern) as [-> | _]; [congruence |].
  repeat match goal with |- context [if ?b then _ else _] => destruct b end;
    unfold SIZE_MAX in *; lia.
Qed.

Lemma registry_score_le_SIZE_MAX name r :
  (forall p, In p (patterns r) -> Strings.size p < SIZE_MAX) ->
  registry_score name r <= SIZE_MAX.
Proof.
  intros Hsize. unfold registry_score.
  destruct (longest_prefix_max name (patterns r)) as [_ [-> | (p & Hin & ->)]].
  - unfold SIZE_MAX. lia.
  - apply ppm_le_SIZE_MAX. now apply Hsize.
Qed.

Lemma registry_score_lt_SIZE_MAX name r :
  (forall p, In p (patterns r) -> Strings.size p < SIZE_MAX) ->
  ~ In name (patterns r) ->
  registry_score name r < SIZE_MAX.
Proof.
  intros Hsize Hnotin. unfold registry_score.
  destruct (longest_prefix_max name (patterns r)) as [_ [-> | (p & Hin & ->)]].
  - unfold SIZE_MAX. lia.
  - apply ppm_other_lt_SIZE_MAX; [now apply Hsize |]. now intros ->.
Qed.

Lemma registry_score_exact name r :
  (forall p, In p (patterns r) -> Strings.size p < SIZE_MAX) ->
  (forall prefix, name <> prefix +:+ "*") ->
  In name (patterns r) ->
  registry_score name r = SIZE_MAX.
Proof.
  intros Hsize Hnostar Hin.
  pose proof (registry_score_le_SIZE_MAX name r Hsize) as Hle.
  destruct (longest_prefix_max name (patterns r)) as [Hub _].
  specialize (Hub name Hin). specialize (Hsize name Hin).
  rewrite ppm_exact in Hub by (assumption || lia).
  rewrite String.eqb_refl in Hub. unfold registry_score in *. lia.
Qed.

(** X4. A port that a registry lists by its exact name goes to that
    registry whatever wildcard patterns the other registries have, and,
    when several registries list it by name, to the first of them in the
    order of the configuration. (For patterns shorter than [SIZE_MAX], and
    a name that does not itself end in a star.) *)
Theorem registry_for_port_exact_pattern rs (name : string)
    (before after : list (Registry Impl)) r :
  (forall r', In r' (registries rs) ->
     forall p, In p (patterns r') -> Strings.size p < SIZE_MAX) ->
  (forall prefix, name <> prefix +:+ "*") ->
  registries rs = before ++ r :: after ->
  In name (patterns r) ->
  (forall r', In r' before -> ~ In name (patterns r')) ->
  registry_for_port rs name = Some (implementation r).
Proof.
  intros Hsize Hnostar Hregs Hin Hbefore.
  assert (forall r', In r' (before ++ r :: after) ->
            forall p, In p (patterns r') -> Strings.size p < SIZE_MAX) as Hsize'
    by (now rewrite <- Hregs).
  assert (registry_score name r = SIZE_MAX) as Hscore.
  { apply registry_score_exact; [| assumption | assumption].
    apply Hsize'. apply in_or_app. right. now left. }
  unfold registry_for_port. rewrite registries_for_port_sorted.
  unfold matching_registries. rewrite Hregs, List.filter_app. simpl List.filter.
  rewrite Hscore. change (0 <? SIZE_MAX) with true. cbv iota.
  destruct (stable_sort_first_greatest (registry_score name)
              (List.filter (fun r0 => 0 <? registry_score name r0) before) r
              (List.filter (fun r0 => 0 <? registry_score name r0) after))
    as [tl ->]; [| | reflexivity].
  - intros y [Hy _]%filter_In. rewrite Hscore.
    apply registry_score_lt_SIZE_MAX; [| now apply Hbefore].
    apply Hsize'. apply in_or_app. now left.
  - intros y [Hy _]%filter_In. rewrite Hscore.
    apply registry_score_le_SIZE_MAX.
    apply Hsize'. apply in_or_app. right. now right.
Qed.

End routing_extras.

Section routing_extras_witnesses.
Import Routing.

(** Two registries list [curl] by name, behind one with a wildcard. *)
Lemma registry_for_port_exact_pattern_witness :
  registry_for_port
    (mkRegistrySet
       [mkRegistry ["cu*"%string; "zlib"%string] 1%nat;
        mkRegistry ["curl"%string] 2%nat;
        mkRegistry ["c*"%string; "curl"%string] 3%nat] (Some 0%nat))
    "curl" = Some 2%nat.
Proof.
  apply (registry_for_port_exact_pattern
           (mkRegistrySet
              [mkRegistry ["cu*"%string; "zlib"%string] 1%nat;
               mkRegistry ["curl"%string] 2%nat;
               mkRegistry ["c*"%string; "curl"%string] 3%nat] (Some 0%nat))
           "curl"
           [mkRegistry ["cu*"%string; "zlib"%string] 1%nat]
           [mkRegistry ["c*"%string; "curl"%string] 3%nat]
           (mkRegistry ["curl"%string] 2%nat)).
  - intros r' Hr' p Hp. simpl in Hr'.
    destruct Hr' as [<- | [<- | [<- | []]]]; simpl in Hp;
      repeat (destruct Hp as [<- | Hp]; [vm_compute; reflexivity |]); destruct Hp.
  - intros prefix Heq.
    destruct (string_snoc_inj "cur" prefix "l" "*" Heq) as [_ Hc]. discriminate Hc.
  - reflexivity.
  - simpl. now left.
  - intros r' [<- | []]. simpl. intros [Heq | [Heq | []]]; discriminate Heq.
Defined.

End routing_extras_witnesses.

(** ** Version databases, continued *)

Section version_database_facts.
Import VersionDb GitRegistry.
Context `{Externals}.

Lemma assign_acc (db_entries : list VersionDbEntry) soa :
  fold_left
    (fun soa entry =>
       mkSoA (m_port_versions soa ++ [entry_version entry])
             (m_git_trees soa ++ [git_tree entry]))
    db_entries soa =
  mkSoA (m_port_versions soa ++ map entry_version db_entries)
        (m_git_trees soa ++ map git_tree db_entries).
Proof.
  revert soa. induction db_entries as [|e db_entries IH]; intros soa; simpl.
  - rewrite !app_nil_r. now destruct soa.
  - rewrite IH. simpl. now rewrite <- !app_assoc.
Qed.

Lemma assign_eq (db_entries : list VersionDbEntry) :
  assign db_entries = mkSoA (map entry_version db_entries) (map git_tree db_entries).
Proof. unfold assign. now rewrite assign_acc. Qed.

Lemma find_version_lt versions v i :
  find_version versions v = Some i -> (i < length versions)%nat.
Proof.
  revert i. induction versions as [|x versions IH]; intros i; simpl; [discriminate |].
  destruct (decide (x = v)).
  - intros [= <-]. lia.
  - destruct (find_version versions v) as [j|]; [| discriminate].
    intros [= <-]. specialize (IH j eq_refl). lia.
Qed.

Lemma find_version_Some versions v i :
  find_version versions v = Some i -> versions !! i = Some v.
Proof.
  revert i. induction versions as [|x versions IH]; intros i; simpl; [discriminate |].
  destruct (decide (x = v)) as [-> | Hne].
  - now intros [= <-].
  - destruct (find_version versions v) as [j|]; [| discriminate].
    intros [= <-]. exact (IH j eq_refl).
Qed.

Lemma find_version_None versions v :
  find_version versions v = None <-> ~ In v versions.
Proof.
  induction versions as [|x versions IH]; simpl; [tauto |].
  destruct (decide (x = v)) as [-> | Hne].
  - split; [discriminate | intros Hn; exfalso; apply Hn; now left].
  - destruct (find_version versions v) as [j|].
    + split; [discriminate |]. intros Hn. exfalso.
      destruct IH as [_ IH]. enough (@None nat = None -> False) by auto.
      assert (~ In v versions) as Hnv by tauto. specialize (IH Hnv). discriminate IH.
    + split; [| reflexivity]. intros _ [Heq | Hin]; [congruence |].
      destruct IH as [IH _]. now apply IH.
Qed.

End version_database_facts.

Section soa_extras.
Import VersionDb GitRegistry.

(** X5. [PortVersionsGitTreesStructOfArrays]: built from the entries of a
    versions file, the two vectors have one element for each entry, and
    [try_get_git_tree] gives the git tree of the first entry of the file
    that has the version asked for, and null exactly when no entry has it:
    a version listed twice resolves to the tree listed first. *)
Theorem try_get_git_tree_assign (db_entries : list VersionDbEntry) (v : Version) :
  length (m_port_versions (assign db_entries)) = length db_entries /\
  length (m_git_trees (assign db_entries)) = length db_entries /\
  try_get_git_tree (assign db_entries) v =
    git_tree <$> List.find (fun e => bool_decide (entry_version e = v)) db_entries /\
  (try_get_git_tree (assign db_entries) v = None <->
   ~ In v (map entry_version db_entries)).
Proof.
  rewrite assign_eq. cbn [m_port_versions m_git_trees].
  rewrite !length_map. split; [reflexivity |]. split; [reflexivity |].
  assert (try_get_git_tree (mkSoA (map entry_version db_entries) (map git_tree db_entries)) v
          = git_tree <$> List.find (fun e => bool_decide (entry_version e = v)) db_entries)
    as Hfind.
  { unfold try_get_git_tree. cbn [m_port_versions m_git_trees].
    induction db_entries as [|e db_entries IH]; [reflexivity |]. simpl.
    destruct (decide (entry_version e = v)) as [Heq | Hne].
    - now rewrite bool_decide_eq_true_2.
    - rewrite bool_decide_eq_false_2 by assumption. rewrite <- IH.
      now destruct (find_version (map entry_version db_entries) v). }
  split; [exact Hfind |].
  rewrite Hfind. split.
  - intros Hnone Hin. apply in_map_iff in Hin as (e & He & Hin).
    destruct (List.find _ db_entries) as [found|] eqn:Hf; [discriminate |].
    apply (find_none _ _ Hf) in Hin. now rewrite bool_decide_eq_true_2 in Hin.
  - intros Hnotin. destruct (List.find _ db_entries) as [found|] eqn:Hf; [| reflexivity].
    apply find_some in Hf as [Hin Hv]. apply bool_decide_eq_true_1 in Hv.
    exfalso. apply Hnotin. apply in_map_iff. now exists found.
Qed.

End soa_extras.

(** ** The filesystem registry *)

Section filesystem_registry_facts.
Import VersionDb FilesystemRegistry.
Context `{Externals}.

(** An entry that the deserializer accepts has a path inside the
    registry. *)
Lemma visit_object_filesystem_confined root obj r entry r' :
  visit_object Filesystem root obj r = (Some entry, r') ->
  confined_to root (p entry).
Proof.
  unfold visit_object.
  destruct (visit_required_schemed_deserializer _ obj r) as [schemed_version r1].
  destruct (Json.required_object_field _ obj PATH _ _ r1) as [path_res r2].
  destruct (Strings.starts_with path_res "$/") eqn:Hstart; [| discriminate].
  destruct (Strings.contains_char path_res "\") eqn:Hback; [discriminate |].
  destruct (Strings.contains path_res "//") eqn:Hslash; [discriminate |].
  destruct (dots_loop path_res) eqn:Hdots; [| discriminate].
  cbn [negb orb]. intros [= <- _]. cbn [p].
  pose proof Hstart as Hrest. apply starts_with_spec in Hrest as [rest ->].
  exists rest. split; [| f_equal; exact (substr_app "$/" rest)].
  apply valid_registry_path_b_spec. unfold valid_registry_path_b.
  rewrite Hstart, Hback, Hslash. rewrite dots_loop_after_dollar in Hdots.
  now rewrite Hdots.
Qed.

Lemma array_elements_Forall {T : Type} (P : T -> Prop) (visitor : Json.IDeserializer T) arr :
  (forall value r x r', Json.visit visitor value r = (Some x, r') -> P x) ->
  forall r xs r', Json.array_elements arr visitor r = (xs, r') -> Forall P xs.
Proof.
  intros Hvisit. induction arr as [|elem arr IH]; intros r xs r'; simpl.
  - intros [= <- _]. constructor.
  - destruct (Json.visit visitor elem r) as [[x|] r1] eqn:Hx.
    + destruct (Json.array_elements arr visitor r1) as [vs r2] eqn:Hrest.
      intros [= <- _]. constructor; [eapply Hvisit; eauto | eapply IH; eauto].
    + apply IH.
Qed.

(** The versions file of a filesystem registry gives only paths inside the
    registry. *)
Lemma load_versions_file_confined fs registry_versions port_name root entries :
  load_versions_file fs Filesystem registry_versions port_name root
    = Done (Value (Some entries)) ->
  Forall (fun e => confined_to root (p e)) entries.
Proof.
  unfold load_versions_file.
  destruct (_ && _); [discriminate |].
  destruct (relative_path_to_versions port_name) as [relative|]; [| discriminate].
  cbv zeta. destruct (read_contents fs _) as [contents ec].
  destruct (negb (ec =? 0)).
  { destruct (ec =? no_such_file_or_directory); discriminate. }
  destruct (Json_parse contents "") as [[| | | | | |versions_object]|]; try discriminate.
  destruct (Json.get versions_object "versions") as [[| | | | |arr|]|]; try discriminate.
  unfold Json.visit_in_key. cbn [Json.visit VersionDbEntryArrayDeserializer].
  destruct (Json.array_elements arr _ []) as [db_entries r] eqn:Harr.
  destruct r; [| discriminate]. intros [= <-].
  eapply (array_elements_Forall (fun e => confined_to root (p e))); [| exact Harr].
  intros value r x r'. cbn [Json.visit VersionDbEntryDeserializer].
  destruct value; try discriminate. apply visit_object_filesystem_confined.
Qed.

(** For a name that is not empty and a registry root that is not empty,
    the versions file loads or fails, and does not stop the process. *)
Lemma load_versions_file_filesystem_returns fs registry_versions port_name root :
  port_name <> ""%string -> root <> ""%string ->
  exists result,
    load_versions_file fs Filesystem registry_versions port_name root = Done result.
Proof.
  intros Hname Hroot. unfold load_versions_file.
  rewrite (bool_decide_eq_false_2 (root = "")) by assumption. rewrite andb_false_r.
  destruct port_name as [|c0 rest]; [congruence |].
  rewrite relative_path_to_versions_cons. cbv zeta.
  destruct (read_contents fs _) as [contents ec].
  destruct (negb (ec =? 0)).
  { destruct (ec =? no_such_file_or_directory); now eexists. }
  destruct (Json_parse contents "") as [[| | | | | |versions_object]|]; try now eexists.
  destruct (Json.get versions_object "versions") as [[| | | | |arr|]|]; try now eexists.
  destruct (Json.visit_in_key _ _ _ _ _) as [db_entries r].
  destruct r; now eexists.
Qed.

Lemma entry_of_acc (version_entries : list VersionDbEntry) res :
  fold_left
    (fun res version_entry =>
       mkFsEntry (port_versions res ++ [entry_version version_entry])
                 (version_paths res ++ [p version_entry]))
    version_entries res =
  mkFsEntry (port_versions res ++ map entry_version version_entries)
            (version_paths res ++ map p version_entries).
Proof.
  revert res. induction version_entries as [|e version_entries IH]; intros res; simpl.
  - rewrite !app_nil_r. now destruct res.
  - rewrite IH. simpl. now rewrite <- !app_assoc.
Qed.

Lemma entry_of_eq (version_entries : list VersionDbEntry) :
  entry_of version_entries =
  mkFsEntry (map entry_version version_entries) (map p version_entries).
Proof. unfold entry_of. now rewrite entry_of_acc. Qed.

(** [get_entry] keeps the cache well formed, and touches nothing else. *)
Lemma get_entry_Done name s r s' :
  entries_well_formed s ->
  get_entry name s = Done (r, s') ->
  entries_well_formed s' /\
  m_paths s' = m_paths s /\ m_path s' = m_path s /\
  m_baseline_identifier s' = m_baseline_identifier s /\ m_baseline s' = m_baseline s /\
  m_entries s' !! name = Some r /\
  (forall other cached, m_entries s !! other = Some cached ->
                        m_entries s' !! other = Some cached).
Proof.
  intros Hwf Hrun. apply Cache_get_lazy_Done in Hrun as [[Hcached ->] | (Hnone & s1 & Hload & ->)].
  - split; [assumption |]. repeat split; auto.
  - assert (s1 = s /\
            forall entry, r = Value (Some entry) ->
              length (version_paths entry) = length (port_versions entry) /\
              Forall (confined_to (m_path s)) (version_paths entry)) as [-> Hentry].
    { revert Hload. M_step.
      destruct (load_versions_file _ Filesystem _ name (m_path s))
        as [[[version_entries|]|e]|h] eqn:Hfile; M_step;
        try discriminate; intros [= <- <-]; (split; [reflexivity |]);
        intros entry; try discriminate.
      intros [= <-]. rewrite entry_of_eq. cbn [version_paths port_versions].
      rewrite !length_map. split; [reflexivity |].
      apply Forall_map. exact (load_versions_file_confined _ _ _ _ _ Hfile). }
    unfold set_m_entries. cbn [m_paths m_path m_baseline_identifier m_baseline m_entries].
    split; [| repeat split; try reflexivity].
    + intros other entry. cbn [m_entries m_path].
      destruct (decide (name = other)) as [<- | Hne].
      * rewrite lookup_insert_eq. intros [= ->]. now apply Hentry.
      * rewrite lookup_insert_ne by assumption. apply Hwf.
    + apply lookup_insert_eq.
    + intros other cached Hother.
      destruct (decide (name = other)) as [<- | Hne]; [congruence |].
      now rewrite lookup_insert_ne.
Qed.

Lemma get_entry_returns name s :
  name <> ""%string -> m_path s <> ""%string ->
  exists r s', get_entry name s = Done (r, s').
Proof.
  intros Hname Hroot. unfold get_entry, Cache_get_lazy. M_step.
  destruct (m_entries s !! name) as [cached|]; [now eexists _, _ |]. M_step.
  destruct (load_versions_file_filesystem_returns
              (get_filesystem (Lock.world (m_paths s)))
              (m_path s </> GitRegistry.registry_versions_dir_name) name (m_path s)
              Hname Hroot) as [result ->].
  destruct result as [[version_entries|]|e]; M_step; now eexists _, _.
Qed.

End filesystem_registry_facts.

Section filesystem_registry_extras.
Import VersionDb FilesystemRegistry.
Context `{Externals}.

(** X6. [FilesystemRegistry::get_port] hands out only directories inside
    the registry: the path it returns is the registry's own path joined
    with the rest of a registry path [$/rest] that is valid (no backslash,
    no [//], no element that is [.] or [..]), and the location is empty. The
    index into the paths is always in range, so that for a port name and a
    registry path that are not empty the call returns and does not stop
    the process; and it leaves the cache as well formed as it found it. *)
Theorem filesystem_get_port_confined (spec : VersionSpec) (s : State) :
  entries_well_formed s ->
  (forall r s', get_port spec s = Done (r, s') ->
     entries_well_formed s' /\ m_path s' = m_path s /\ m_paths s' = m_paths s /\
     forall port, r = Value (Some port) ->
       pal_location port = ""%string /\ confined_to (m_path s) (pal_path port)) /\
  (port_name spec <> ""%string -> m_path s <> ""%string ->
   exists r s', get_port spec s = Done (r, s')).
Proof.
  intros Hwf. split.
  - intros r s' Hrun. unfold get_port in Hrun.
    apply M_bind_Done in Hrun as (mm & s1 & Hentry & Hrest).
    destruct (get_entry_Done _ _ _ _ Hwf Hentry)
      as (Hwf1 & Hpaths & Hroot & _ & _ & Hcached & _).
    destruct mm as [[entry|]|e]; revert Hrest; M_step.
    + destruct (GitRegistry.find_version (port_versions entry) (version spec)) as [it|];
        M_step.
      * destruct (version_paths entry !! it) as [path|] eqn:Hpath; M_step; [| discriminate].
        intros [= <- <-]. split; [assumption |]. split; [assumption |].
        split; [assumption |]. intros port [= <-]. cbn [pal_path pal_location].
        split; [reflexivity |].
        destruct (Hwf1 _ _ Hcached) as [_ Hconfined]. rewrite Hroot in Hconfined.
        rewrite Forall_forall in Hconfined. apply Hconfined.
        apply list_elem_of_lookup. now exists it.
      * intros [= <- <-]. split; [assumption |]. split; [assumption |].
        split; [assumption |]. discriminate.
    + intros [= <- <-]. split; [assumption |]. split; [assumption |].
      split; [assumption |]. discriminate.
    + intros [= <- <-]. split; [assumption |]. split; [assumption |].
      split; [assumption |]. discriminate.
  - intros Hname Hroot.
    destruct (get_entry_returns (port_name spec) s Hname Hroot) as (mm & s1 & Hentry).
    destruct (get_entry_Done _ _ _ _ Hwf Hentry) as (Hwf1 & _ & _ & _ & _ & Hcached & _).
    unfold get_port. M_step. rewrite Hentry.
    destruct mm as [[entry|]|e]; M_step; try now eexists _, _.
    destruct (GitRegistry.find_version (port_versions entry) (version spec)) as [it|] eqn:Hfind;
      M_step; [| now eexists _, _].
    destruct (Hwf1 _ _ Hcached) as [Hlen _].
    apply find_version_lt in Hfind. rewrite <- Hlen in Hfind.
    apply lookup_lt_is_Some_2 in Hfind as [path ->]. now eexists _, _.
Qed.

(** X7. [FilesystemRegistry::get_port] and [get_all_port_versions] agree:
    once [get_all_port_versions] has listed the versions of a port,
    [get_port] finds a path for a version exactly when the version is in
    the list, and reports "no such version" (not an error) otherwise;
    neither call changes the registry any more. *)
Theorem filesystem_get_port_iff_listed (name : string) (s s1 : State)
    (versions : list Version) :
  entries_well_formed s ->
  get_all_port_versions name s = Done (Value (Some versions), s1) ->
  get_all_port_versions name s1 = Done (Value (Some versions), s1) /\
  forall v,
    (In v versions ->
     exists port, get_port (mkVersionSpec name v) s1 = Done (Value (Some port), s1)) /\
    (~ In v versions -> get_port (mkVersionSpec name v) s1 = Done (Value None, s1)).
Proof.
  intros Hwf Hrun. unfold get_all_port_versions in Hrun.
  apply M_bind_Done in Hrun as (mm & s1' & Hentry & Hrest).
  destruct (get_entry_Done _ _ _ _ Hwf Hentry) as (Hwf1 & _ & _ & _ & _ & Hcached & _).
  destruct mm as [[entry|]|e]; revert Hrest; M_step; try discriminate.
  intros [= <- <-].
  assert (get_entry name s1' = Done (Value (Some entry), s1')) as Hagain.
  { unfold get_entry, Cache_get_lazy. M_step. now rewrite Hcached. }
  split.
  - unfold get_all_port_versions. M_step. now rewrite Hagain.
  - intros v. unfold get_port. M_step. cbn [port_name version]. rewrite Hagain.
    destruct (Hwf1 _ _ Hcached) as [Hlen _].
    destruct (GitRegistry.find_version (port_versions entry) v) as [it|] eqn:Hfind.
    + pose proof (find_version_lt _ _ _ Hfind) as Hlt. rewrite <- Hlen in Hlt.
      apply lookup_lt_is_Some_2 in Hlt as [path Hpath]. rewrite Hpath.
      split; [intros _; now eexists |].
      intros Hnotin. exfalso. apply Hnotin.
      apply find_version_Some in Hfind. apply list_elem_of_In, list_elem_of_lookup.
      now exists it.
    + split; [| reflexivity]. intros Hin. exfalso.
      now apply find_version_None in Hfind.
Qed.

End filesystem_registry_extras.

(** ** The builtin registries, continued *)

Section builtin_files_extras.
Import BuiltinFilesRegistry.
Context `{Externals}.

(** X8. The baseline version of the builtin files registry is a version
    that registry can load: when [get_baseline_version] gives a version
    for a port, [get_port] for the port at that version never answers "no
    such version" and prints no warning. It gives the port directory
    [<builtin-ports>/<name>], or the "unexpected port name" error when the
    recipe in that directory has another name, which
    [get_baseline_version] does not look at. Neither changes the registry
    after the first load. *)
Theorem builtin_files_baseline_version_loads (name : string) (s s1 : State) (v : Version) :
  BuiltinFiles.get_baseline_version name s = Done (Value (Some v), s1) ->
  let port_directory : string := m_builtin_ports_directory s </> name in
  exists scf,
    m_scfs s1 !! port_directory = Some (Value (Some scf)) /\
    scf_version scf = v /\
    BuiltinFiles.get_baseline_version name s1 = Done (Value (Some v), s1) /\
    get_port (mkVersionSpec name v) s1 =
      Done (if String.eqb (scf_name scf) name
            then Value (Some (mkPathAndLocation port_directory
                    ("git+https://github.com/Microsoft/vcpkg#ports/" +:+ name)))
            else Error (format_error "UnexpectedPortName"
                          [scf_name scf; name; port_directory]),
            s1).
Proof.
  intros Hrun port_directory. subst port_directory.
  unfold BuiltinFiles.get_baseline_version in Hrun.
  revert Hrun. M_step. intros Hrun.
  destruct (get_scf name (m_builtin_ports_directory s </> name) s)
    as [[[[scf|]|e] s1']|h] eqn:Hscf; try discriminate.
  injection Hrun as <- <-. exists scf.
  assert (m_scfs s1' !! (m_builtin_ports_directory s </> name : string)
            = Some (Value (Some scf)) /\
          m_builtin_ports_directory s1' = m_builtin_ports_directory s) as [Hcached Hdir].
  { apply get_scf_Done in Hscf as [[Hc ->] | (_ & _ & ->)]; [now split |].
    cbn [set_m_scfs m_scfs m_builtin_ports_directory]. split; [| reflexivity].
    apply lookup_insert_eq. }
  assert (get_scf name (m_builtin_ports_directory s </> name) s1'
          = Done (Value (Some scf), s1')) as Hagain.
  { unfold get_scf, Cache_get_lazy. M_step. now rewrite Hcached. }
  split; [exact Hcached |]. split; [reflexivity |]. split.
  - unfold BuiltinFiles.get_baseline_version. M_step. rewrite Hdir. now rewrite Hagain.
  - unfold get_port. M_step. cbn [port_name version]. rewrite Hdir, Hagain. cbn beta iota.
    destruct (String.eqb (scf_name scf) name); cbn [negb]; [| reflexivity].
    now rewrite bool_decide_eq_true_2.
Qed.

End builtin_files_extras.

Section builtin_git_extras.
Import GitRegistry BuiltinGitRegistry.
Context `{Collaborators}.

Lemma builtin_get_versions_Done name s mm s1 :
  get_versions name s = Done (mm, s1) ->
  m_files_impl s1 = m_files_impl s /\ git_commands s1 = git_commands s /\
  root s1 = root s /\ m_versions s1 !! name = Some mm.
Proof.
  intros Hrun. apply Cache_get_lazy_Done in Hrun as [[Hcached ->] | (Hnone & s0 & Hload & ->)].
  - now repeat split.
  - assert (s0 = s) as ->.
    { revert Hload. M_step.
      destruct (VersionDb.relative_path_to_versions name); M_step; [| discriminate].
      destruct (VersionDb.load_versions_file _ _ _ _ _) as [[[version_entries|]|e]|h];
        M_step; try discriminate; now intros [= _ <-]. }
    unfold set_m_versions. cbn [m_files_impl git_commands root m_versions].
    repeat split. apply lookup_insert_eq.
Qed.

(** X9. In [BuiltinGitRegistry::get_port] the versions file of the port
    decides. An error of the file is the result. Without a file the call
    is [BuiltinFilesRegistry::get_port] on the ports tree. With a file
    that does not list the version the result is an error: the ports tree
    is not consulted (even if it holds this very version) and no checkout
    runs. With a file that lists it, the one git command run is the
    checkout of the listed tree from [<root>/.git], and a checked-out port
    has the location [git+https://github.com/Microsoft/vcpkg@<tree>]. *)
Theorem builtin_git_get_port_versions_file_decides (spec : VersionSpec) (s s1 : State)
    (mm : ExpectedL (option PortVersionsGitTreesStructOfArrays)) :
  get_versions (port_name spec) s = Done (mm, s1) ->
  m_files_impl s1 = m_files_impl s /\ git_commands s1 = git_commands s /\
  match mm with
  | Error e => get_port spec s = Done (Error e, s1)
  | Value None => get_port spec s = on_files (BuiltinFilesRegistry.get_port spec) s1
  | Value (Some versions) =>
      match try_get_git_tree versions (version spec) with
      | None => exists e, get_port spec s = Done (Error e, s1)
      | Some git_tree =>
          exists maybe_path s2,
            get_port spec s =
              Done (expected_map
                      (fun path =>
                         Some (mkPathAndLocation path
                                 ("git+https://github.com/Microsoft/vcpkg@" +:+ git_tree)))
                      maybe_path,
                    s2) /\
            git_commands s2 =
              git_commands s
              ++ [GitCheckoutPort (port_name spec) git_tree (root s </> ".git")] /\
            BuiltinFilesRegistry.m_scfs (m_files_impl s2)
              = BuiltinFilesRegistry.m_scfs (m_files_impl s) /\
            Lock.trace (BuiltinFilesRegistry.m_paths (m_files_impl s2))
              = Lock.trace (BuiltinFilesRegistry.m_paths (m_files_impl s))
      end
  end.
Proof.
  intros Hversions.
  destruct (builtin_get_versions_Done _ _ _ _ Hversions) as (Hfiles & Hcommands & Hroot & _).
  split; [exact Hfiles |]. split; [exact Hcommands |].
  unfold get_port. M_step. rewrite Hversions.
  destruct mm as [[versions|]|e]; M_step; try reflexivity.
  destruct (try_get_git_tree versions (version spec)) as [git_tree|]; M_step;
    [| now eexists].
  unfold paths_git_checkout_port, log_command, on_files, BuiltinFilesRegistry.on_paths,
    M_zoom.
  M_step. cbn [m_files_impl BuiltinFilesRegistry.m_paths].
  destruct (git_checkout_port _ _ _ _) as [maybe_path w]. M_step.
  eexists maybe_path, _. split; [reflexivity |].
  cbn [git_commands m_files_impl BuiltinFilesRegistry.m_scfs BuiltinFilesRegistry.m_paths
       Lock.trace root].
  rewrite Hcommands, Hroot, Hfiles. now repeat split.
Qed.

End builtin_git_extras.

(** ** The git registry, continued *)


Section git_registry_extras.
Import Lock GitRegistry.
Context `{Externals}.

(** X10. A port that [GitRegistry::get_port] returns is one the version
    database lists: the port name has, in the stale or in the live cache of
    the registry, a database whose first entry for the requested version
    names a git tree, and the location of the port is [git+<repo>@<tree>]
    for that tree and the repository of the registry. *)
Theorem git_get_port_listed (spec : VersionSpec) (s s' : State) (port : PathAndLocation) :
  get_port spec s = Done (Value (Some port), s') ->
  exists versions git_tree,
    (m_stale_versions (this s') !! port_name spec = Some (Value (Some versions)) \/
     m_live_versions (this s') !! port_name spec = Some (Value (Some versions))) /\
    try_get_git_tree versions (version spec) = Some git_tree /\
    pal_location port = "git+" +:+ m_repo (this s) +:+ "@" +:+ git_tree.
Proof.
  assert (forall sa sb, get_port_live spec sa = Done (Value (Some port), sb) ->
            exists versions git_tree,
              m_live_versions (this sb) !! port_name spec = Some (Value (Some versions)) /\
              try_get_git_tree versions (version spec) = Some git_tree /\
              pal_location port = "git+" +:+ m_repo (this sa) +:+ "@" +:+ git_tree)
    as Hlive.
  { intros sa sb Hrun. unfold get_port_live in Hrun.
    apply M_bind_Done in Hrun as (mm & s1 & Hversions & Htail).
    apply get_live_versions_Done in Hversions as (Hcached & Hrepo & _).
    destruct mm as [[versions|]|e]; try discriminate.
    destruct (try_get_git_tree versions (version spec)) as [git_tree|] eqn:Htree;
      [| discriminate].
    apply load_git_tree_Done in Htail as (Hloc & Hthis).
    exists versions, git_tree. rewrite Hthis. split; [exact Hcached |].
    split; [exact Htree |]. now rewrite <- Hrepo. }
  intros Hrun. unfold get_port in Hrun.
  apply M_bind_Done in Hrun as (maybe_entry & s0 & Hlock & Hrun).
  apply get_lock_entry_Done in Hlock as (_ & _ & Hrepo0 & _).
  destruct maybe_entry as [lock_entry | e]; [| discriminate].
  apply M_bind_Done in Hrun as (is_stale & s0' & Hstale & Hrun).
  apply entry_stale_Done in Hstale as [-> _].
  assert (get_port_live spec s0 = Done (Value (Some port), s') ->
          exists versions git_tree,
            (m_stale_versions (this s') !! port_name spec = Some (Value (Some versions)) \/
             m_live_versions (this s') !! port_name spec = Some (Value (Some versions))) /\
            try_get_git_tree versions (version spec) = Some git_tree /\
            pal_location port = "git+" +:+ m_repo (this s) +:+ "@" +:+ git_tree) as Hlive0.
  { intros Hl. destruct (Hlive _ _ Hl) as (versions & git_tree & Hc & Ht & Hloc).
    exists versions, git_tree. rewrite <- Hrepo0. auto. }
  destruct is_stale; [| exact (Hlive0 Hrun)].
  apply M_bind_Done in Hrun as (r & s1 & Hlookup & Hrun).
  pose proof (get_stale_versions_cached _ _ _ _ _ Hlookup) as Hcached.
  apply get_stale_versions_frame in Hlookup as [_ (Hrepo1 & _)].
  assert (get_port_live spec s1 = Done (Value (Some port), s') ->
          exists versions git_tree,
            (m_stale_versions (this s') !! port_name spec = Some (Value (Some versions)) \/
             m_live_versions (this s') !! port_name spec = Some (Value (Some versions))) /\
            try_get_git_tree versions (version spec) = Some git_tree /\
            pal_location port = "git+" +:+ m_repo (this s) +:+ "@" +:+ git_tree) as Hlive1.
  { intros Hl. destruct (Hlive _ _ Hl) as (versions & git_tree & Hc & Ht & Hloc).
    exists versions, git_tree. rewrite <- Hrepo0, <- Hrepo1. auto. }
  destruct r as [[stale_versions|]|e]; try exact (Hlive1 Hrun).
  destruct (try_get_git_tree stale_versions (version spec)) as [git_tree|] eqn:Htree;
    [| exact (Hlive1 Hrun)].
  apply load_git_tree_Done in Hrun as (Hloc & Hthis).
  exists stale_versions, git_tree. rewrite Hthis. split; [now left |].
  split; [exact Htree |]. now rewrite <- Hrepo0, <- Hrepo1.
Qed.

(** X11. [GitRegistry::get_all_port_versions] answers from the live
    version database only. With a stale lock entry and the live versions
    tree not yet computed, the call announces and runs the fetch that
    refreshes the entry, whatever the stale database knows about the port;
    its answer is what the live cache then holds for the port (the
    versions in the order of the file, no port, or the error), and the
    stale cache is as it was. *)
Theorem git_get_all_port_versions_live (name : string) (s s' : State)
    (lock_entry : Entry) (d : EntryData) (r : ExpectedL (option (list Version))) :
  m_lock_entry (this s) = Some (Value lock_entry) ->
  entry_data (installed_lockfile (m_paths s)) lock_entry = Some d ->
  stale d = true ->
  m_versions_tree (this s) = None ->
  GitRegistryImplementation.get_all_port_versions name s = Done (r, s') ->
  refresh_forced (data_repo lock_entry) (reference d) s s' /\
  m_stale_versions (this s') = m_stale_versions (this s) /\
  exists live,
    m_live_versions (this s') !! name = Some live /\
    r = expected_map (fmap m_port_versions) live.
Proof.
  intros Hentry Hd Hstale Hfresh Hrun.
  unfold GitRegistryImplementation.get_all_port_versions in Hrun.
  apply M_bind_Done in Hrun as (mm & s1 & Hlive & Hret).
  assert (s1 = s' /\ r = expected_map (fmap m_port_versions) mm) as [-> ->].
  { destruct mm as [[live_versions|]|e]; injection Hret as <- <-; now split. }
  split; [exact (get_live_versions_first _ _ _ _ _ _ Hentry Hd Hstale Hfresh Hlive) |].
  apply get_live_versions_Done in Hlive as (Hcached & _ & Hstale_cache).
  split; [exact Hstale_cache |]. now exists mm.
Qed.

End git_registry_extras.

(** ** The baseline of a git registry *)

Section git_baseline_facts.
Import Lock GitRegistry GitRegistryImplementation.
Context `{Collaborators}.

Lemma on_registry_Done {A : Type} (m : M GitRegistry.State A) s a s' :
  on_registry m s = Done (a, s') ->
  exists r', m (registry s) = Done (a, r') /\
             s' = mkState r' (m_baseline s) (git_commands s).
Proof.
  unfold on_registry, M_zoom. destruct (m (registry s)) as [[a' r']|h]; [| discriminate].
  intros [= <- <-]. now exists r'.
Qed.

(** A command of git that these functions run: logged, and nothing but
    the world changes. *)
Lemma paths_git_show_from_remote_registry_run hash path s :
  exists s',
    paths_git_show_from_remote_registry hash path s =
      Done (fst (git_show_from_remote_registry hash path (world (m_paths (registry s)))), s') /\
    git_commands s' = git_commands s ++ [GitShowFromRemoteRegistry hash path] /\
    m_baseline s' = m_baseline s /\
    this (registry s') = this (registry s) /\
    trace (m_paths (registry s')) = trace (m_paths (registry s)) /\
    installed_lockfile (m_paths (registry s')) = installed_lockfile (m_paths (registry s)).
Proof.
  unfold paths_git_show_from_remote_registry, log_command, set_world, on_registry,
    GitRegistry.on_paths.
  M_step. cbn [registry m_paths world].
  destruct (git_show_from_remote_registry hash path _) as [result w].
  eexists. split; [reflexivity |]. now repeat split.
Qed.

Lemma log_run (e : Event) s :
  exists s',
    on_registry (GitRegistry.on_paths (log e)) s = Done (tt, s') /\
    git_commands s' = git_commands s /\
    m_baseline s' = m_baseline s /\
    this (registry s') = this (registry s) /\
    trace (m_paths (registry s')) = trace (m_paths (registry s)) ++ [e] /\
    installed_lockfile (m_paths (registry s')) = installed_lockfile (m_paths (registry s)) /\
    world (m_paths (registry s')) = world (m_paths (registry s)).
Proof.
  unfold on_registry, GitRegistry.on_paths, log. M_step.
  eexists. split; [reflexivity |]. now repeat split.
Qed.

(** The same, with the state that they leave. *)
Lemma paths_git_show_from_remote_registry_eq hash path s :
  paths_git_show_from_remote_registry hash path s =
    Done (fst (git_show_from_remote_registry hash path (world (m_paths (registry s)))),
          mkState
            (after_git
               (snd (git_show_from_remote_registry hash path (world (m_paths (registry s)))))
               (registry s))
            (m_baseline s)
            (git_commands s ++ [GitShowFromRemoteRegistry hash path])).
Proof.
  unfold paths_git_show_from_remote_registry, log_command, set_world, on_registry,
    GitRegistry.on_paths, after_git.
  M_step. cbn [registry m_paths world].
  now destruct (git_show_from_remote_registry hash path _) as [result w].
Qed.

Lemma paths_git_fetch_eq repo treeish s :
  paths_git_fetch repo treeish s =
    Done (fst (git_fetch repo treeish (world (m_paths (registry s)))),
          mkState
            (after_git (snd (git_fetch repo treeish (world (m_paths (registry s)))))
               (registry s))
            (m_baseline s)
            (git_commands s ++ [GitFetch repo treeish])).
Proof.
  unfold paths_git_fetch, log_command, set_world, on_registry, GitRegistry.on_paths,
    after_git.
  M_step. cbn [registry m_paths world].
  now destruct (git_fetch repo treeish _) as [result w].
Qed.

Lemma log_eq (e : Event) s :
  on_registry (GitRegistry.on_paths (log e)) s =
    Done (tt, mkState (after_events [e] (registry s)) (m_baseline s) (git_commands s)).
Proof. reflexivity. Qed.

Lemma on_registry_eq {A : Type} (m : M GitRegistry.State A) s :
  on_registry m s =
    match m (registry s) with
    | Done (a, r') => Done (a, mkState r' (m_baseline s) (git_commands s))
    | Halted h => Halted h
    end.
Proof. reflexivity. Qed.

Lemma get_lock_entry_identifier (r0 : GitRegistry.State) maybe_entry r1 :
  get_lock_entry r0 = Done (maybe_entry, r1) ->
  m_baseline_identifier (this r1) = m_baseline_identifier (this r0).
Proof.
  unfold get_lock_entry. intros Hrun.
  apply CacheSingle_get_lazy_Done in Hrun as [[_ ->] | (_ & sb & Hfetch & ->)];
    [reflexivity |].
  revert Hfetch. M_step. intros Hfetch.
  now apply on_paths_Done in Hfetch as (paths' & _ & ->).
Qed.

Lemma CacheSingle_get_lazy_miss {St T : Type} (get : St -> option T) (set : T -> St -> St)
    (f : M St T) s v s1 :
  get s = None -> f s = Done (v, s1) ->
  CacheSingle_get_lazy get set f s = Done (v, set v s1).
Proof.
  intros Hnone Hf. unfold CacheSingle_get_lazy. M_step. now rewrite Hnone, Hf.
Qed.

(** The end of the loading of the baseline, on contents that git gave. *)
Lemma baseline_of_contents_run port_name contents s :
  exists s',
    baseline_of_contents port_name (Value contents) s =
      Done (match BaselineParse.parse_baseline_versions contents "default"
                    path_to_baseline with
            | Value (Some p) => Value p
            | Value None =>
                Error (format_error "BaselineMissingDefault"
                         [m_baseline_identifier (this (registry s));
                          m_repo (this (registry s))])
            | Error e =>
                Error (append_raw
                         (format_error "ErrorWhileFetchingBaseline"
                            [m_baseline_identifier (this (registry s));
                             m_repo (this (registry s))])
                         (String "010"%char EmptyString)
                       ++ e)
            end, s') /\
    git_commands s' = git_commands s /\
    m_baseline s' = m_baseline s /\
    this (registry s') = this (registry s) /\
    installed_lockfile (m_paths (registry s')) = installed_lockfile (m_paths (registry s)) /\
    exists events,
      trace (m_paths (registry s')) = trace (m_paths (registry s)) ++ events /\
      Forall (fun e => is_fetch e = false) events.
Proof.
  unfold baseline_of_contents, track_define. M_step.
  destruct (BaselineParse.parse_baseline_versions contents "default" path_to_baseline)
    as [[p|]|e]; M_step.
  - eexists. split; [reflexivity |]. repeat split. exists []. now rewrite app_nil_r.
  - destruct (log_run (TrackDefine "RegistriesErrorCouldNotFindBaseline") s)
      as (s' & -> & Hc & Hb & Ht & Htr & Hl & _).
    eexists. split; [reflexivity |]. repeat split; try assumption.
    eexists. split; [exact Htr |]. now repeat constructor.
  - eexists. split; [reflexivity |]. repeat split. exists []. now rewrite app_nil_r.
Qed.

End git_baseline_facts.

Section git_baseline_extras.
Import Lock GitRegistry GitRegistryImplementation.
Context `{Collaborators}.

(** X12. A git registry whose baseline is not a commit sha (forty
    characters from [0-9a-f]) has no baseline version for any port:
    [get_baseline_version] is an error, found without a single
    [git show] or [git fetch] of a baseline, and the error is kept: every
    later call, for any port, returns it and does nothing. *)
Theorem git_baseline_must_be_sha (name : string) (s s' : State)
    (r : ExpectedL (option Version)) :
  m_baseline s = None ->
  is_git_commit_sha (m_baseline_identifier (this (registry s))) = false ->
  get_baseline_version name s = Done (r, s') ->
  exists e,
    r = Error e /\
    git_commands s' = git_commands s /\
    forall other, get_baseline_version other s' = Done (Error e, s').
Proof.
  intros Hnone Hsha Hrun. unfold get_baseline_version in Hrun.
  apply M_bind_Done in Hrun as (maybe_baseline & s1 & Hcache & Hret).
  apply CacheSingle_get_lazy_Done in Hcache as [[Hcached _] | (_ & s2 & Hload & ->)];
    [congruence |].
  assert (exists e, maybe_baseline = Error e /\ git_commands s2 = git_commands s)
    as (e & -> & Hcommands).
  { revert Hload. unfold load_baseline. M_step. rewrite Hsha. cbn [negb].
    destruct (on_registry get_lock_entry s) as [[[lock_entry | e] sa]|h] eqn:Hlock;
      [| | discriminate].
    - apply on_registry_Done in Hlock as (ra & _ & ->).
      destruct (on_registry (GitRegistry.on_paths (ensure_up_to_date lock_entry)) _)
        as [[[[] | e] sb]|h] eqn:Hensure; [| | discriminate].
      + apply on_registry_Done in Hensure as (rb & _ & ->).
        destruct (on_registry (GitRegistry.on_paths (entry_commit_id lock_entry)) _)
          as [[commit sc]|h] eqn:Hcommit; [| discriminate].
        apply on_registry_Done in Hcommit as (rc & _ & ->).
        intros [= <- <-]. now eexists.
      + apply on_registry_Done in Hensure as (rb & _ & ->).
        intros [= <- <-]. now eexists.
    - apply on_registry_Done in Hlock as (ra & _ & ->).
      intros [= <- <-]. now eexists. }
  injection Hret as <- <-. exists e. split; [reflexivity |]. split; [exact Hcommands |].
  intros other. unfold get_baseline_version. M_step.
  now rewrite (CacheSingle_get_lazy_cached _ _ _ (set_m_baseline (Error e) s2) (Error e)).
Qed.

(** X13. With a commit sha for baseline, the lock file is the second
    resort: when the first [git show] of [versions/baseline.json] at the
    baseline commit gives the file, [get_baseline_version] runs this one
    command, does not compute the lock entry, fetches nothing and leaves
    the lock file alone. The result is the version that the baseline named
    [default] in the file gives the port (or none), an error when the file
    has no such baseline or does not parse. What was loaded, baseline or
    error, is what the registry stores, and every later call, for any
    port, answers from it and does nothing else. *)
Theorem git_baseline_first_show (name : string) (s : State) (contents : string)
    (w : World) :
  m_baseline s = None ->
  is_git_commit_sha (m_baseline_identifier (this (registry s))) = true ->
  git_show_from_remote_registry (m_baseline_identifier (this (registry s)))
    path_to_baseline (world (m_paths (registry s))) = (Value contents, w) ->
  let loaded :=
    match BaselineParse.parse_baseline_versions contents "default" path_to_baseline with
    | Value (Some baseline) => Value baseline
    | Value None =>
        Error (format_error "BaselineMissingDefault"
                 [m_baseline_identifier (this (registry s));
                  m_repo (this (registry s))])
    | Error e =>
        Error (append_raw
                 (format_error "ErrorWhileFetchingBaseline"
                    [m_baseline_identifier (this (registry s));
                     m_repo (this (registry s))])
                 (String "010"%char EmptyString)
               ++ e)
    end in
  exists s',
    get_baseline_version name s =
      Done (match loaded with
            | Value baseline => Value (baseline !! name)
            | Error e => Error e
            end, s') /\
    git_commands s' =
      git_commands s
      ++ [GitShowFromRemoteRegistry (m_baseline_identifier (this (registry s)))
            path_to_baseline] /\
    this (registry s') = this (registry s) /\
    not_refreshed (registry s) (registry s') /\
    m_baseline s' = Some loaded /\
    forall other,
      get_baseline_version other s' =
        Done (match loaded with
              | Value baseline => Value (baseline !! other)
              | Error e => Error e
              end, s').
Proof.
  intros Hnone Hsha Hshow loaded.
  destruct (paths_git_show_from_remote_registry_run
              (m_baseline_identifier (this (registry s))) path_to_baseline s)
    as (s1 & Hrun1 & Hc1 & Hb1 & Ht1 & Htr1 & Hl1).
  rewrite Hshow in Hrun1. cbn [fst] in Hrun1.
  destruct (baseline_of_contents_run name contents s1)
    as (s2 & Hrun2 & Hc2 & Hb2 & Ht2 & Hl2 & events & Htr2 & Hevents).
  assert (load_baseline name s = Done (loaded, s2)) as Hload.
  { unfold load_baseline. M_step. rewrite Hsha. cbn [negb]. rewrite Hrun1.
    unfold baseline_after_refresh. M_step. rewrite Hrun2. now rewrite Ht1. }
  exists (set_m_baseline loaded s2).
  split.
  { unfold get_baseline_version. M_step.
    rewrite (CacheSingle_get_lazy_miss _ _ _ _ _ _ Hnone Hload).
    now destruct loaded. }
  cbn [set_m_baseline git_commands registry m_baseline].
  split; [now rewrite Hc2, Hc1 |]. split; [now rewrite Ht2, Ht1 |].
  split.
  { split; [now rewrite Hl2, Hl1 |].
    exists events. split; [now rewrite Htr2, Htr1 | exact Hevents]. }
  split; [reflexivity |].
  intros other. unfold get_baseline_version. M_step.
  rewrite (CacheSingle_get_lazy_cached _ _ _ (set_m_baseline loaded s2) loaded eq_refl).
  now destruct loaded.
Qed.

(** X14. When git cannot show the baseline file, [get_baseline_version]
    escalates in a fixed order and then gives up with an error that it
    stores: [git show]; the lock entry brought up to date and [git show]
    again; [git fetch] of the baseline commit and a third [git show]. No
    fourth attempt is made. Step by step: after the first [git show] the
    lock entry is computed; if that fails, its error is the result and
    nothing more is run. Else the entry is brought up to date; if that
    fails, its error is the result and nothing more is run. Else [git
    show] runs again, in the world that the refresh left; the fetch of
    the baseline commit is announced and run. If the fetch fails, the
    result is [FailedToFetchRepo] with its error; else the third [git
    show] runs and the result is [CouldNotFindBaselineInCommit] with its
    error. In these two cases the last thing done is to count the error
    under [RegistriesErrorCouldNotFindBaseline]. *)
Theorem git_baseline_gives_up (name : string) (s s' : State)
    (r : ExpectedL (option Version)) :
  m_baseline s = None ->
  is_git_commit_sha (m_baseline_identifier (this (registry s))) = true ->
  (forall w, exists e,
     fst (git_show_from_remote_registry (m_baseline_identifier (this (registry s)))
            path_to_baseline w) = Error e) ->
  get_baseline_version name s = Done (r, s') ->
  let repo := m_repo (this (registry s)) in
  let id := m_baseline_identifier (this (registry s)) in
  let show := GitShowFromRemoteRegistry id path_to_baseline in
  let fetch := GitFetch repo id in
  let git_show := git_show_from_remote_registry id path_to_baseline in
  exists e,
    r = Error e /\ m_baseline s' = Some (Error e) /\
    (git_commands s' = git_commands s ++ [show] \/
     (git_commands s' = git_commands s ++ [show; show; fetch] \/
      git_commands s' = git_commands s ++ [show; show; fetch; show]) /\
     last (trace (m_paths (registry s')))
       = Some (TrackDefine "RegistriesErrorCouldNotFindBaseline")) /\
    match get_lock_entry
            (after_git (snd (git_show (world (m_paths (registry s))))) (registry s)) with
    | Halted _ => False
    | Done (Error e_entry, rb) =>
        e = e_entry /\ registry s' = rb /\ git_commands s' = git_commands s ++ [show]
    | Done (Value lock_entry, rb) =>
        match GitRegistry.on_paths (ensure_up_to_date lock_entry) rb with
        | Halted _ => False
        | Done (Error e_refresh, rc) =>
            e = e_refresh /\ registry s' = rc /\
            git_commands s' = git_commands s ++ [show]
        | Done (Value _, rc) =>
            let rd :=
              after_events [Println (format "FetchingBaselineInfo" [repo])]
                (after_git (snd (git_show (world (m_paths rc)))) rc) in
            let fetched := git_fetch repo id (world (m_paths rd)) in
            let rf := after_git (snd fetched) rd in
            match fst fetched with
            | Error e_fetch =>
                e = append_raw (format_error "FailedToFetchRepo" [repo])
                      (String "010"%char EmptyString) ++ e_fetch /\
                registry s'
                  = after_events [TrackDefine "RegistriesErrorCouldNotFindBaseline"] rf /\
                git_commands s' = git_commands s ++ [show; show; fetch]
            | Value _ =>
                exists e_show,
                  fst (git_show (world (m_paths rf))) = Error e_show /\
                  e = append_raw
                        (format_error "CouldNotFindBaselineInCommit" [repo; id; name])
                        (String "010"%char EmptyString) ++ e_show /\
                  registry s'
                    = after_events [TrackDefine "RegistriesErrorCouldNotFindBaseline"]
                        (after_git (snd (git_show (world (m_paths rf)))) rf) /\
                  git_commands s' = git_commands s ++ [show; show; fetch; show]
            end
        end
    end.
Proof.
  intros Hnone Hsha Hfail Hrun. cbv zeta.
  unfold get_baseline_version in Hrun.
  apply M_bind_Done in Hrun as (maybe_baseline & s1 & Hcache & Hret).
  apply CacheSingle_get_lazy_Done in Hcache as [[Hcached _] | (_ & s2 & Hload & ->)];
    [congruence |].
  revert Hload. unfold load_baseline. M_step. rewrite Hsha. cbn [negb].
  (* the first git show *)
  rewrite paths_git_show_from_remote_registry_eq.
  destruct (Hfail (world (m_paths (registry s)))) as [e1 ->].
  (* the lock entry, brought up to date *)
  rewrite on_registry_eq. cbn [registry m_baseline git_commands].
  destruct (get_lock_entry _) as [[[lock_entry | e] rb]|h] eqn:Hlock; [| | discriminate].
  2:{ intros [= <- <-]. injection Hret as <- <-. exists e.
      cbn [set_m_baseline registry m_baseline git_commands].
      split; [reflexivity |]. split; [reflexivity |]. split; [now left |].
      now repeat split. }
  pose proof (get_lock_entry_identifier _ _ _ Hlock) as Hident_b.
  apply get_lock_entry_Done in Hlock as (_ & _ & Hrepo_b & _).
  rewrite on_registry_eq. cbn [registry m_baseline git_commands].
  destruct (GitRegistry.on_paths (ensure_up_to_date lock_entry) rb)
    as [[[[] | e] rc]|h] eqn:Hensure; [| | discriminate].
  2:{ intros [= <- <-]. injection Hret as <- <-. exists e.
      cbn [set_m_baseline registry m_baseline git_commands].
      split; [reflexivity |]. split; [reflexivity |]. split; [now left |].
      now repeat split. }
  apply on_paths_Done in Hensure as (paths_c & _ & Hrc).
  assert (this rc = this rb) as Hthis_c by now rewrite Hrc.
  (* the second git show *)
  rewrite paths_git_show_from_remote_registry_eq. cbn [registry m_baseline git_commands].
  destruct (Hfail (world (m_paths rc))) as [e2 ->].
  (* the fetch of the baseline commit *)
  unfold baseline_after_refresh. M_step. rewrite log_eq.
  cbn [registry m_baseline git_commands]. rewrite paths_git_fetch_eq.
  cbn [registry m_baseline git_commands].
  assert (m_repo (this rc) = m_repo (this (registry s))) as Hrepo
    by (now rewrite Hthis_c, Hrepo_b).
  assert (m_baseline_identifier (this rc) = m_baseline_identifier (this (registry s)))
    as Hident by (now rewrite Hthis_c, Hident_b).
  cbn [after_events after_git this m_paths world trace installed_lockfile].
  rewrite Hrepo, Hident.
  destruct (git_fetch _ _ _).1 as [[] | e_fetch].
  - (* the third git show *)
    rewrite paths_git_show_from_remote_registry_eq.
    cbn [registry m_baseline git_commands after_events after_git this m_paths world].
    match goal with
    | |- context [(git_show_from_remote_registry _ _ ?w).1] =>
        destruct (Hfail w) as [e3 ->]
    end.
    unfold baseline_of_contents, track_define. M_step. rewrite log_eq.
    cbn [registry m_baseline git_commands after_events after_git this m_paths world].
    rewrite Hrepo, Hident.
    intros [= <- <-]. injection Hret as <- <-. eexists.
    cbn [set_m_baseline registry m_baseline git_commands].
    split; [reflexivity |]. split; [reflexivity |]. split.
    + right. split; [right; now rewrite <- !app_assoc |].
      cbn [after_events m_paths trace]. apply last_snoc.
    + exists e3. split; [reflexivity |]. split; [reflexivity |].
      split; [reflexivity |]. now rewrite <- !app_assoc.
  - unfold track_define. rewrite log_eq.
    cbn [registry m_baseline git_commands].
    intros [= <- <-]. injection Hret as <- <-. eexists.
    cbn [set_m_baseline registry m_baseline git_commands].
    split; [reflexivity |]. split; [reflexivity |]. split.
    + right. split; [left; now rewrite <- !app_assoc |].
      cbn [after_events m_paths trace]. apply last_snoc.
    + split; [reflexivity |]. split; [reflexivity |]. now rewrite <- !app_assoc.
Qed.

End git_baseline_extras.

(** ** The reachable port names *)

Section sort_unique_facts.

Lemma string_lt_trans_le a b c : string_lt a b -> String.le b c -> string_lt a c.
Proof.
  intros [Hab Hne] Hbc. split; [now transitivity b |].
  intros ->. apply Hne. now apply (anti_symm String.le).
Qed.

Lemma unique_from_sorted prev l :
  StronglySorted String.le (prev :: l) ->
  StronglySorted string_lt (unique_from prev l) /\
  Forall (string_lt prev) (unique_from prev l) /\
  (forall x, x ∈ unique_from prev l <-> x ∈ l /\ x <> prev).
Proof.
  revert prev. induction l as [|x rest IH]; intros prev Hsorted; simpl.
  - split; [constructor |]. split; [constructor |].
    intros x. rewrite elem_of_nil. tauto.
  - apply StronglySorted_inv in Hsorted as [Htail Hprev].
    apply Forall_cons in Hprev as [Hpx Hprest].
    pose proof Htail as Htail'. apply StronglySorted_inv in Htail' as [Hrest Hx].
    destruct (String.eqb_spec prev x) as [<- | Hne].
    + destruct (IH prev) as (Hs & Hall & Hin); [now constructor |].
      split; [exact Hs |]. split; [exact Hall |].
      intros y. rewrite Hin, elem_of_cons. intuition congruence.
    + destruct (IH x Htail) as (Hs & Hall & Hin).
      assert (string_lt prev x) as Hlt by (split; assumption).
      split; [| split].
      * constructor; assumption.
      * constructor; [exact Hlt |].
        eapply Forall_impl; [exact Hall |]. intros y [Hxy Hney].
        split; [now transitivity x |].
        intros ->. apply Hney. now apply (anti_symm String.le).
      * intros y. rewrite !elem_of_cons, Hin. split.
        -- intros [-> | [Hy Hyx]]; [split; [now left | congruence] |].
           split; [now right |]. intros ->.
           rewrite Forall_forall in Hprest. specialize (Hprest _ Hy).
           rewrite Forall_forall in Hx. specialize (Hx _ Hy).
           apply Hyx. now apply (anti_symm String.le).
        -- intros [[-> | Hy] Hyp]; [now left |].
           destruct (decide (y = x)) as [-> | Hyx]; [now left | now right].
Qed.

(** [Util::sort_unique_erase]: strictly ascending, with the same
    elements. *)
Lemma sort_unique_erase_spec l :
  StronglySorted string_lt (sort_unique_erase l) /\
  (forall x, x ∈ sort_unique_erase l <-> x ∈ l).
Proof.
  unfold sort_unique_erase.
  pose proof (StronglySorted_merge_sort String.le l) as Hsorted.
  pose proof (merge_sort_Permutation String.le l) as Hperm.
  destruct (merge_sort String.le l) as [|x sorted]; simpl.
  - split; [constructor |]. intros x. now rewrite <- Hperm.
  - destruct (unique_from_sorted x sorted Hsorted) as (Hs & Hall & Hin).
    split; [now constructor |].
    intros y. rewrite <- Hperm, !elem_of_cons, Hin.
    destruct (decide (y = x)); tauto.
Qed.

Lemma string_lt_sorted_NoDup l : StronglySorted string_lt l -> NoDup l.
Proof.
  induction 1 as [|x l Hsorted IH Hall]; constructor; [| exact IH].
  intros Hin. rewrite Forall_forall in Hall. now destruct (Hall _ Hin).
Qed.

End sort_unique_facts.

Section reachable_names.
Import Routing RegistrySetOps.
Context {Impl St : Type} `{RegistryImplementation Impl St}.

(** A name that a pattern of a registry matches. *)
Lemma remove_unreachable_elem result names pats n :
  n ∈ remove_unreachable_port_names_by_patterns (result ++ names) (length result) pats <->
  n ∈ result \/
  n ∈ names /\ exists p, In p pats /\ package_pattern_match n p <> 0.
Proof.
  unfold remove_unreachable_port_names_by_patterns.
  rewrite take_app_length, drop_app_length, elem_of_app.
  assert (n ∈ List.filter
                (fun name =>
                   negb (negb (existsb
                                 (fun pattern => negb (package_pattern_match name pattern =? 0))
                                 pats))) names <->
          n ∈ names /\ exists p, In p pats /\ package_pattern_match n p <> 0) as ->;
    [| reflexivity].
  rewrite list_elem_of_In, filter_In, negb_involutive, existsb_exists.
  rewrite <- list_elem_of_In.
  split; intros [Hn (p & Hin & Hp)]; (split; [exact Hn |]); exists p;
    (split; [exact Hin |]).
  - now apply negb_true_iff, Z.eqb_neq in Hp.
  - now apply negb_true_iff, Z.eqb_neq.
Qed.

Lemma append_reachable_matched (all regs : list (Registry Impl)) result s out s' :
  (forall r, In r regs -> In r all) ->
  (forall n, n ∈ result ->
     exists r p, In r all /\ In p (patterns r) /\ package_pattern_match n p <> 0) ->
  append_reachable regs result s = Done (Value out, s') ->
  forall n, n ∈ out ->
    exists r p, In r all /\ In p (patterns r) /\ package_pattern_match n p <> 0.
Proof.
  revert result s. induction regs as [|registry regs IH]; intros result s Hall Hresult; simpl.
  - now intros [= <- <-].
  - M_step.
    destruct (impl_append_all_port_names (implementation registry) s)
      as [[[[[] | e] names] s1]|h]; try discriminate.
    apply IH.
    + intros r Hr. apply Hall. now right.
    + intros n [Hn | (Hn & p & Hp & Hmatch)]%remove_unreachable_elem.
      * now apply Hresult.
      * exists registry, p. split; [apply Hall; now left | now split].
Qed.

(** The loop, name by name: a name is in the result when it was there
    before, or when a registry lists it and one of the patterns of that
    same registry matches it. *)
Lemma append_reachable_listed (regs : list (Registry Impl)) result s out s' :
  append_reachable regs result s = Done (Value out, s') ->
  exists listing,
    listed_in_turn regs s listing s' /\
    forall n,
      n ∈ out <->
      n ∈ result \/
      exists i r listed p,
        regs !! i = Some r /\ listing !! i = Some listed /\ n ∈ listed /\
        In p (patterns r) /\ package_pattern_match n p <> 0.
Proof.
  revert result s. induction regs as [|registry regs IH]; intros result s; simpl.
  - intros [= <- <-]. exists []. split; [reflexivity |].
    intros n. split; [now left |].
    intros [Hn | (i & r & listed & p & Hr & _)]; [exact Hn | discriminate].
  - M_step.
    destruct (impl_append_all_port_names (implementation registry) s)
      as [[[[[] | e] names] s1]|h] eqn:Hcall; try discriminate.
    intros Hrest. apply IH in Hrest as (listing & Hturn & Hiff).
    exists (names :: listing). split; [now exists s1 |].
    intros n. rewrite Hiff, remove_unreachable_elem. split.
    + intros [[Hn | (Hn & p & Hp & Hmatch)] | (i & r & listed & p & Hr & Hl & Hrest)].
      * now left.
      * right. now exists 0%nat, registry, names, p.
      * right. now exists (S i), r, listed, p.
    + intros [Hn | (i & r & listed & p & Hr & Hl & Hn & Hp & Hmatch)]; [now left; left |].
      destruct i as [|i].
      * injection Hr as <-. injection Hl as <-. left. right. split; [exact Hn |].
        now exists p.
      * right. now exists i, r, listed, p.
Qed.

Lemma registry_for_port_matched (rs : RegistrySet Impl) n r p :
  In r (registries rs) -> In p (patterns r) -> package_pattern_match n p <> 0 ->
  is_Some (registry_for_port rs n).
Proof.
  intros Hr Hp Hmatch. unfold registry_for_port.
  destruct (registries_for_port rs n) as [|first rest] eqn:Hlist; [| now eexists].
  exfalso. rewrite registries_for_port_sorted in Hlist.
  apply map_eq_nil in Hlist.
  assert (In r (matching_registries n rs)) as Hin.
  { apply filter_In. split; [exact Hr |]. apply Z.ltb_lt.
    apply longest_prefix_pos_iff. exists p. split; [exact Hp |].
    pose proof (ppm_nonneg n p). lia. }
  apply (Permutation_in r (Permutation_sym (stable_sort_perm (registry_score n) _))) in Hin.
  rewrite Hlist in Hin. destruct Hin.
Qed.

(** X15. The names that [RegistrySet::get_all_reachable_port_names]
    returns are in strictly ascending order (sorted, each name once), and
    each of them is a name the set can resolve: [registry_for_port] finds a
    registry for it. Without a default registry every name matches a
    pattern of a configured registry. Name by name: the registries are
    asked for their names in turn, then the default registry if there is
    one; a name is returned exactly when the default registry lists it,
    or when some registry lists it and a pattern of that same registry
    matches it. What a registry lists outside its own patterns is
    dropped, also where a pattern of another registry matches it. *)
Theorem get_all_reachable_port_names_sorted_reachable (rs : RegistrySet Impl) (s s' : St)
    (names : list string) :
  get_all_reachable_port_names rs s = Done (Value names, s') ->
  StronglySorted string_lt names /\
  NoDup names /\
  (forall n, n ∈ names -> is_Some (registry_for_port rs n)) /\
  (default_registry rs = None ->
   forall n, n ∈ names ->
     exists r p, In r (registries rs) /\ In p (patterns r) /\
                 package_pattern_match n p <> 0) /\
  exists listing s1 default_names,
    listed_in_turn (registries rs) s listing s1 /\
    match default_registry rs with
    | Some registry =>
        impl_append_all_port_names registry s1 = Done ((Value tt, default_names), s')
    | None => default_names = [] /\ s' = s1
    end /\
    forall n,
      n ∈ names <->
      n ∈ default_names \/
      exists i r listed p,
        registries rs !! i = Some r /\ listing !! i = Some listed /\ n ∈ listed /\
        In p (patterns r) /\ package_pattern_match n p <> 0.
Proof.
  unfold get_all_reachable_port_names. M_step.
  destruct (append_reachable (registries rs) [] s) as [[[result | e] s1]|h] eqn:Hloop;
    try discriminate.
  assert (forall n, n ∈ result ->
            exists r p, In r (registries rs) /\ In p (patterns r) /\
                        package_pattern_match n p <> 0) as Hmatched.
  { eapply append_reachable_matched; [| | exact Hloop]; [auto |].
    intros n Hn. now apply elem_of_nil in Hn. }
  destruct (append_reachable_listed _ _ _ _ _ Hloop) as (listing & Hturn & Hlisted).
  destruct (default_registry rs) as [registry|] eqn:Hdefault.
  - destruct (impl_append_all_port_names registry s1) as [[[[[] | e] more] s2]|h]
      eqn:Hcall; try discriminate.
    intros [= <- <-].
    destruct (sort_unique_erase_spec (result ++ more)) as [Hsorted Helem].
    split; [exact Hsorted |]. split; [now apply string_lt_sorted_NoDup |].
    split; [| split; [discriminate |]].
    + intros n _. unfold registry_for_port. rewrite Hdefault.
      destruct (registries_for_port rs n); now eexists.
    + exists listing, s1, more. split; [exact Hturn |]. split; [exact Hcall |].
      intros n. rewrite Helem, elem_of_app, Hlisted, elem_of_nil. tauto.
  - intros [= <- <-].
    destruct (sort_unique_erase_spec result) as [Hsorted Helem].
    split; [exact Hsorted |]. split; [now apply string_lt_sorted_NoDup |].
    split; [| split].
    + intros n Hn. apply Helem, Hmatched in Hn as (r & p & Hr & Hp & Hmatch).
      eapply registry_for_port_matched; eauto.
    + intros _ n Hn. now apply Helem, Hmatched in Hn.
    + exists listing, s1, []. split; [exact Hturn |]. split; [now split |].
      intros n. rewrite Helem, Hlisted, !elem_of_nil. tauto.
Qed.

Lemma empty_or_wildcard_false (pattern : string) :
  pattern <> ""%string -> (forall prefix, pattern <> prefix +:+ "*") ->
  empty_or_wildcard pattern = false.
Proof.
  intros Hne Hnostar. destruct (string_snoc_inv _ Hne) as (prefix & c & ->).
  unfold empty_or_wildcard, Strings.size, Strings.at_.
  rewrite string_app_length. simpl String.length.
  replace (Z.of_nat (String.length prefix + 1) =? 0) with false
    by (symmetry; apply Z.eqb_neq; lia).
  replace (Z.of_nat (String.length prefix + 1) - 1) with (Z.of_nat (String.length prefix))
    by lia.
  replace (Z.of_nat (String.length prefix) <? 0) with false
    by (symmetry; apply Z.ltb_ge; lia).
  rewrite Nat2Z.id, string_get_app_length. cbn [orb].
  apply bool_decide_eq_false_2. intros [= ->]. now apply (Hnostar prefix).
Qed.

Lemma append_known_reachable_keeps (regs : list (Registry Impl)) result s out s' :
  append_known_reachable regs result s = Done (Value out, s') ->
  forall n, n ∈ result -> n ∈ out.
Proof.
  revert result s. induction regs as [|registry regs IH]; intros result s; simpl.
  - now intros [= <- <-].
  - M_step.
    destruct (impl_try_append_all_port_names_no_network (implementation registry) s)
      as [[[[[] | e] names] s1]|h]; try discriminate; intros Hrest n Hn.
    + apply (IH _ _ Hrest). apply remove_unreachable_elem. now left.
    + apply (IH _ _ Hrest). rewrite !elem_of_app. now left; left.
Qed.

Lemma append_known_reachable_exact (regs : list (Registry Impl)) result s out s' r :
  append_known_reachable regs result s = Done (Value out, s') ->
  In r regs ->
  (forall s0 exhaustive listed s1,
     impl_try_append_all_port_names_no_network (implementation r) s0
       = Done ((Value exhaustive, listed), s1) ->
     exhaustive = false) ->
  forall p, In p (patterns r) -> empty_or_wildcard p = false -> p ∈ out.
Proof.
  revert result s. induction regs as [|registry regs IH]; intros result s; simpl;
    [intros _ [] |].
  M_step. intros Hrun [-> | Hin] Hremote p Hp Hexact.
  - destruct (impl_try_append_all_port_names_no_network (implementation r) s)
      as [[[[exhaustive | e] names] s1]|h] eqn:Htry; try discriminate.
    rewrite (Hremote _ _ _ _ Htry) in Hrun.
    apply (append_known_reachable_keeps _ _ _ _ _ Hrun).
    rewrite elem_of_app. right. apply list_elem_of_In, filter_In.
    split; [exact Hp | now rewrite Hexact].
  - destruct (impl_try_append_all_port_names_no_network (implementation registry) s)
      as [[[[[] | e] names] s1]|h]; try discriminate; eapply IH; eauto.
Qed.

(** X16. Without the network the exact patterns stand in for the names:
    when a registry never says that its list of names is complete (as the
    git registry, which always answers [false]), every pattern of it that
    is not empty and does not end in a star is among the names that
    [get_all_known_reachable_port_names_no_network] returns; and these
    names are in strictly ascending order. *)
Theorem get_all_known_reachable_port_names_exact_patterns (rs : RegistrySet Impl)
    (s s' : St) (names : list string) (r : Registry Impl) :
  get_all_known_reachable_port_names_no_network rs s = Done (Value names, s') ->
  In r (registries rs) ->
  (forall s0 exhaustive listed s1,
     impl_try_append_all_port_names_no_network (implementation r) s0
       = Done ((Value exhaustive, listed), s1) ->
     exhaustive = false) ->
  StronglySorted string_lt names /\
  forall p, In p (patterns r) ->
    p <> ""%string -> (forall prefix, p <> prefix +:+ "*") -> p ∈ names.
Proof.
  unfold get_all_known_reachable_port_names_no_network. M_step.
  destruct (append_known_reachable (registries rs) [] s) as [[[result | e] s1]|h] eqn:Hloop;
    try discriminate.
  intros Hrun Hr Hremote.
  assert (forall p, In p (patterns r) ->
            p <> ""%string -> (forall prefix, p <> prefix +:+ "*") -> p ∈ result)
    as Hexact.
  { intros p Hp Hne Hnostar.
    eapply append_known_reachable_exact; eauto using empty_or_wildcard_false. }
  destruct (default_registry rs) as [registry|].
  - destruct (impl_try_append_all_port_names_no_network registry s1)
      as [[[[exhaustive | e] more] s2]|h]; try discriminate.
    injection Hrun as <- <-.
    destruct (sort_unique_erase_spec (result ++ more)) as [Hsorted Helem].
    split; [exact Hsorted |]. intros p Hp Hne Hnostar.
    apply Helem, elem_of_app. left. now apply Hexact.
  - injection Hrun as <- <-.
    destruct (sort_unique_erase_spec result) as [Hsorted Helem].
    split; [exact Hsorted |]. intros p Hp Hne Hnostar.
    apply Helem. now apply Hexact.
Qed.

End reachable_names.

(** ** The overlay provider, continued *)

Section overlay_facts.
Import Lock Provider.
Context `{Externals}.

(** What [load_port] finds has the name asked for. *)
Lemma load_port_from_named fs name overlays scfl scf :
  load_port_from fs name overlays = Value scfl ->
  source_control_file scfl = Some scf ->
  scf_name scf = name.
Proof.
  induction overlays as [|ports_dir rest IH]; simpl.
  - intros [= <-]. discriminate.
  - destruct (try_load_port_location fs ports_dir) as [dir_scfl | e]; [| discriminate].
    destruct (source_control_file dir_scfl) as [dir_scf|] eqn:Hdir.
    + destruct (String.eqb_spec (scf_name dir_scf) name) as [Heq | Hne]; [| exact IH].
      intros [= <-]. rewrite Hdir. now intros [= <-].
    + destruct (try_load_port_location fs (ports_dir </> name)) as [found | e];
        [| discriminate].
      destruct (source_control_file found) as [found_scf|] eqn:Hfound; [| exact IH].
      destruct (String.eqb_spec (scf_name found_scf) name) as [Heq | Hne]; [| discriminate].
      intros [= <-]. rewrite Hfound. now intros [= <-].
Qed.

Lemma map_emplace_lookup {V : Type} (k k' : string) (v : V) (m : gmap string V) :
  map_emplace k v m !! k' =
  match m !! k' with
  | Some old => Some old
  | None => if decide (k = k') then Some v else None
  end.
Proof.
  unfold map_emplace. destruct (m !! k) as [old|] eqn:Hk.
  - destruct (m !! k') as [old'|] eqn:Hk'; [reflexivity |].
    destruct (decide (k = k')) as [<- | Hne]; [congruence | reflexivity].
  - destruct (decide (k = k')) as [<- | Hne].
    + now rewrite lookup_insert_eq, Hk.
    + rewrite lookup_insert_ne by assumption. now destruct (m !! k').
Qed.

(** One port of [load_all_control_files]: nothing that is in the cache or
    in [out] is replaced, and a new pointer points into the cache, at a
    recipe stored under its own key. *)
Lemma cache_and_emit_Done scf scfl out s out' s' :
  source_control_file scfl = Some scf ->
  cache_and_emit (scf_name scf) scfl out s = Done (out', s') ->
  m_paths s' = m_paths s /\ m_overlay_ports s' = m_overlay_ports s /\
  m_overlay_cache s' = map_emplace (scf_name scf) (Value scfl) (m_overlay_cache s) /\
  out' = map_emplace (scf_name scf) (InOverlayCache (scf_name scf)) out /\
  exists cached, m_overlay_cache s' !! scf_name scf = Some (Value cached).
Proof.
  intros Hscf. unfold cache_and_emit. M_step. cbn [set_m_overlay_cache m_overlay_cache].
  destruct (map_emplace (scf_name scf) (Value scfl) (m_overlay_cache s) !! scf_name scf)
    as [[cached | e]|] eqn:Hlookup; M_step; try discriminate.
  intros [= <- <-]. cbn. repeat split. now exists cached.
Qed.

Lemma overlay_load_extends_refl out s : overlay_load_extends out s out s.
Proof.
  split; [reflexivity |]. split; [reflexivity |]. split; [auto |]. split; [auto |].
  split; [| auto]. intros key ptr Hptr Hnone. congruence.
Qed.

Lemma overlay_load_extends_trans out s out1 s1 out2 s2 :
  overlay_load_extends out s out1 s1 -> overlay_load_extends out1 s1 out2 s2 ->
  overlay_load_extends out s out2 s2.
Proof.
  intros (Hp1 & Ho1 & Hout1 & Hc1 & Hnew1 & Hn1) (Hp2 & Ho2 & Hout2 & Hc2 & Hnew2 & Hn2).
  split; [congruence |]. split; [congruence |]. split; [auto |]. split; [auto |].
  split; [| auto].
  intros key ptr Hptr Hnone.
  destruct (out1 !! key) as [ptr1|] eqn:Hmid.
  - pose proof (Hout2 _ _ Hmid) as Hsame. rewrite Hptr in Hsame. injection Hsame as <-.
    destruct (Hnew1 _ _ Hmid Hnone) as (-> & scfl & Hscfl).
    split; [reflexivity |]. exists scfl. now apply Hc2.
  - now apply Hnew2.
Qed.

Lemma cache_and_emit_extends scf scfl out s out' s' :
  source_control_file scfl = Some scf ->
  cache_and_emit (scf_name scf) scfl out s = Done (out', s') ->
  overlay_load_extends out s out' s'.
Proof.
  intros Hscf Hrun.
  destruct (cache_and_emit_Done _ _ _ _ _ _ Hscf Hrun)
    as (Hpaths & Hports & Hcache & -> & cached & Hcached).
  split; [exact Hpaths |]. split; [exact Hports |]. split; [| split; [| split]].
  - intros key ptr Hptr. now rewrite map_emplace_lookup, Hptr.
  - intros key old Hold. now rewrite Hcache, map_emplace_lookup, Hold.
  - intros key ptr. rewrite map_emplace_lookup. intros Hptr Hnone.
    rewrite Hnone in Hptr.
    destruct (decide (scf_name scf = key)) as [<- | Hne]; [| discriminate].
    injection Hptr as <-. split; [reflexivity |]. now exists cached.
  - intros Hnamed key scfl' scf'. rewrite Hcache, map_emplace_lookup.
    destruct (m_overlay_cache s !! key) as [old|] eqn:Hold.
    + intros [= ->]. now apply Hnamed.
    + destruct (decide (scf_name scf = key)) as [<- | Hne]; [| discriminate].
      intros [= <-]. rewrite Hscf. now intros [= <-].
Qed.

Lemma emit_paragraphs_extends paragraphs out s out' s' :
  emit_paragraphs paragraphs out s = Done (out', s') ->
  overlay_load_extends out s out' s'.
Proof.
  revert out s. induction paragraphs as [|scfl rest IH]; intros out s; simpl.
  - intros [= <- <-]. apply overlay_load_extends_refl.
  - destruct (source_control_file scfl) as [scf|] eqn:Hscf; [| discriminate].
    intros Hrun. apply M_bind_Done in Hrun as (out1 & s1 & Hemit & Hrest).
    eapply overlay_load_extends_trans;
      [eapply cache_and_emit_extends; eassumption | now apply IH].
Qed.

Lemma load_all_from_extends overlays out s out' s' :
  load_all_from overlays out s = Done (out', s') ->
  overlay_load_extends out s out' s'.
Proof.
  revert out s. induction overlays as [|ports_dir rest IH]; intros out s; simpl.
  - intros [= <- <-]. apply overlay_load_extends_refl.
  - M_step.
    destruct (try_load_port_location _ ports_dir) as [scfl | e].
    + destruct (source_control_file scfl) as [scf|] eqn:Hscf.
      * destruct (cache_and_emit (scf_name scf) scfl out s) as [[out1 s1]|h] eqn:Hemit;
          [| discriminate].
        intros Hrest. eapply overlay_load_extends_trans;
          [eapply cache_and_emit_extends; eassumption | now apply IH].
      * destruct (try_load_overlay_ports _ ports_dir) as [paragraphs errors].
        destruct errors as [|err errors].
        -- destruct (emit_paragraphs paragraphs out s) as [[out1 s1]|h] eqn:Hemit;
             [| discriminate].
           intros Hrest. eapply overlay_load_extends_trans;
             [eapply emit_paragraphs_extends; eassumption | now apply IH].
        -- destruct (on_paths _ s) as [[[] s1]|h]; discriminate.
    + destruct (on_paths _ s) as [[[] s1]|h]; discriminate.
Qed.

End overlay_facts.

Section overlay_extras.
Import Lock Provider.
Context `{Externals}.

(** X17. [OverlayProviderImpl::load_port] searches the overlays in their
    order and stops at the first that answers: the search of two lists of
    overlays, one behind the other, is the search of the first list when
    that finds a recipe or fails, and the search of the second list only
    when the first list has no such port. A recipe that is found has the
    name that was asked for. *)
Theorem load_port_first_overlay_wins (fs : ReadOnlyFilesystem) (name : string)
    (overlays1 overlays2 : list Path) :
  load_port_from fs name (overlays1 ++ overlays2) =
    match load_port_from fs name overlays1 with
    | Error e => Error e
    | Value scfl =>
        match source_control_file scfl with
        | Some _ => Value scfl
        | None => load_port_from fs name overlays2
        end
    end /\
  forall scfl scf,
    load_port_from fs name (overlays1 ++ overlays2) = Value scfl ->
    source_control_file scfl = Some scf ->
    scf_name scf = name.
Proof.
  split; [| apply load_port_from_named].
  induction overlays1 as [|ports_dir rest IH]; simpl; [reflexivity |].
  destruct (try_load_port_location fs ports_dir) as [dir_scfl | e]; [| reflexivity].
  destruct (source_control_file dir_scfl) as [dir_scf|] eqn:Hdir.
  - destruct (String.eqb (scf_name dir_scf) name); [| exact IH]. now rewrite Hdir.
  - destruct (try_load_port_location fs (ports_dir </> name)) as [found | e];
      [| reflexivity].
    destruct (source_control_file found) as [found_scf|] eqn:Hfound; [| exact IH].
    destruct (String.eqb (scf_name found_scf) name); [| reflexivity]. now rewrite Hfound.
Qed.

(** X18. [OverlayProviderImpl::get_control_file] keeps the cache in order
    (every recipe under its own name) and answers from it: a pointer it
    returns is the cache entry of the name asked for, which is either "no
    such port in the overlays" or a recipe of that name. The answer, an
    error included, is remembered: the same call again returns it without
    looking at the disk and changes nothing. *)
Theorem overlay_get_control_file_named (name : string) (s s' : State)
    (r : ExpectedL ScflPtr) :
  overlay_cache_named s ->
  overlay_get_control_file name s = Done (r, s') ->
  overlay_cache_named s' /\
  (forall ptr, r = Value ptr ->
     ptr = InOverlayCache name /\
     exists scfl,
       m_overlay_cache s' !! name = Some (Value scfl) /\
       forall scf, source_control_file scfl = Some scf -> scf_name scf = name) /\
  (forall paths', overlay_get_control_file name (mkState paths' (m_overlay_ports s')
                                                  (m_overlay_cache s'))
                  = Done (r, mkState paths' (m_overlay_ports s') (m_overlay_cache s'))).
Proof.
  intros Hnamed. unfold overlay_get_control_file, load_port. M_step.
  destruct (m_overlay_cache s !! name) as [cached|] eqn:Hcached; M_step.
  - intros [= <- <-]. split; [exact Hnamed |]. split.
    + intros ptr Hptr. destruct cached as [scfl | e]; [| discriminate].
      injection Hptr as <-. split; [reflexivity |]. exists scfl.
      split; [exact Hcached |]. intros scf. now apply Hnamed.
    + intros paths'. cbn [m_overlay_cache]. now rewrite Hcached.
  - set (loaded := load_port_from _ name (m_overlay_ports s)).
    intros [= <- <-]. unfold overlay_cache_named, set_m_overlay_cache.
    cbn [m_overlay_cache m_overlay_ports m_paths].
    assert (map_emplace name loaded (m_overlay_cache s) !! name = Some loaded) as Hnew.
    { rewrite map_emplace_lookup, Hcached. now rewrite decide_True. }
    split; [| split].
    + intros key scfl scf. rewrite map_emplace_lookup.
      destruct (m_overlay_cache s !! key) as [old|] eqn:Hold.
      * intros [= ->]. now apply Hnamed.
      * destruct (decide (name = key)) as [<- | Hne]; [| discriminate].
        intros [= Hloaded]. eapply load_port_from_named. exact Hloaded.
    + intros ptr Hptr. destruct loaded as [scfl | e] eqn:Hloaded; [| discriminate].
      injection Hptr as <-. split; [reflexivity |]. exists scfl.
      split; [exact Hnew |]. intros scf. eapply load_port_from_named. exact Hloaded.
    + intros paths'. now rewrite Hnew.
Qed.

(** X19. [OverlayProviderImpl::load_all_control_files] only adds: an
    entry of the map it is given keeps its pointer, an entry of the cache
    keeps its value (also a remembered miss or error), the overlays and
    the world are as they were, and the cache stays in order. Every pointer
    it adds to the map is the one into the cache at the key it is added
    under, and the cache has a value there. *)
Theorem overlay_load_all_control_files_only_adds (out out' : gmap string ScflPtr)
    (s s' : State) :
  overlay_load_all_control_files out s = Done (out', s') ->
  overlay_load_extends out s out' s'.
Proof.
  unfold overlay_load_all_control_files. M_step. apply load_all_from_extends.
Qed.

(** X20. In [load_all_control_files] the last overlay comes first: when
    the last overlay directory is itself a port, and neither the cache nor
    the map has an entry of its name yet, the entry of that name in the
    map is this recipe, whatever the overlays before it hold. The lookup
    by name goes the other way: when the first overlay directory is a port
    of this name, [load_port] gives the recipe of the first overlay. *)
Theorem overlay_load_all_last_overlay_first (out out' : gmap string ScflPtr)
    (s s' : State) (earlier : list Path) (last_dir : Path)
    (scfl : SourceControlFileAndLocation) (scf : SourceControlFile) :
  m_overlay_ports s = earlier ++ [last_dir] ->
  try_load_port_location (get_filesystem (world (m_paths s))) last_dir = Value scfl ->
  source_control_file scfl = Some scf ->
  m_overlay_cache s !! scf_name scf = None ->
  out !! scf_name scf = None ->
  overlay_load_all_control_files out s = Done (out', s') ->
  out' !! scf_name scf = Some (InOverlayCache (scf_name scf)) /\
  m_overlay_cache s' !! scf_name scf = Some (Value scfl) /\
  forall first_dir rest first_scfl first_scf,
    earlier = first_dir :: rest ->
    try_load_port_location (get_filesystem (world (m_paths s))) first_dir
      = Value first_scfl ->
    source_control_file first_scfl = Some first_scf ->
    scf_name first_scf = scf_name scf ->
    load_port (scf_name scf) s = Done (Value first_scfl, s).
Proof.
  intros Hports Hload Hscf Hcache Hout. unfold overlay_load_all_control_files. M_step.
  rewrite Hports, rev_app_distr. simpl rev. simpl app. simpl load_all_from. M_step.
  rewrite Hload, Hscf.
  destruct (cache_and_emit (scf_name scf) scfl out s) as [[out1 s1]|h] eqn:Hemit;
    [| discriminate].
  intros Hrest. apply load_all_from_extends in Hrest as (_ & _ & Hkeep & Hcached & _).
  destruct (cache_and_emit_Done _ _ _ _ _ _ Hscf Hemit) as (_ & _ & Hcache1 & -> & _).
  split; [| split].
  - apply Hkeep. rewrite map_emplace_lookup, Hout. now rewrite decide_True.
  - apply Hcached. rewrite Hcache1, map_emplace_lookup, Hcache. now rewrite decide_True.
  - intros first_dir rest first_scfl first_scf -> Hfirst Hfirst_scf Hname.
    unfold load_port. M_step. rewrite Hports. simpl.
    rewrite Hfirst, Hfirst_scf, Hname. now rewrite String.eqb_refl.
Qed.

End overlay_extras.

(** ** The baseline of a filesystem registry *)

Section filesystem_baseline_extras.
Import Lock FilesystemRegistry.
Context `{Externals}.

(** X21. A filesystem registry reads [<path>/versions/baseline.json] once.
    When the file is not there, the first [get_baseline_version] prints
    one line and answers "no baseline version" (no error), and so does
    every later call, for any port, without printing or reading again.
    When the file is there and the baseline of the registry parses from
    it, every call answers with the version this baseline gives the port
    asked for, or none, and prints nothing. *)
Theorem filesystem_baseline_read_once (name : string) (s : State) (contents : string)
    (ec : error_code) :
  m_baseline s = None ->
  read_contents (get_filesystem (world (m_paths s)))
    (m_path s </> GitRegistry.registry_versions_dir_name </> "baseline.json")
    = (contents, ec) ->
  (ec = no_such_file_or_directory ->
   exists s',
     get_baseline_version name s = Done (Value None, s') /\
     trace (m_paths s') = trace (m_paths s) ++ [Println (format "FailedToFindBaseline" [])] /\
     m_entries s' = m_entries s /\
     forall other, get_baseline_version other s' = Done (Value None, s')) /\
  (ec = 0 ->
   forall baseline,
     BaselineParse.parse_baseline_versions contents (m_baseline_identifier s)
       (m_path s </> GitRegistry.registry_versions_dir_name </> "baseline.json")
       = Value (Some baseline) ->
     exists s',
       get_baseline_version name s = Done (Value (baseline !! name), s') /\
       m_paths s' = m_paths s /\
       m_entries s' = m_entries s /\
       forall other, get_baseline_version other s' = Done (Value (baseline !! other), s')).
Proof.
  intros Hnone Hread. split.
  - intros ->. eexists. split; [| split; [| split]].
    + unfold get_baseline_version, CacheSingle_get_lazy, on_paths,
        BaselineFile.load_baseline_versions, log.
      M_step. rewrite Hnone. cbn beta iota. rewrite Hread. cbn. reflexivity.
    + reflexivity.
    + reflexivity.
    + intros other. unfold get_baseline_version, CacheSingle_get_lazy. M_step.
      reflexivity.
  - intros -> baseline Hparse. eexists. split; [| split; [| split]].
    + unfold get_baseline_version, CacheSingle_get_lazy, on_paths,
        BaselineFile.load_baseline_versions.
      M_step. rewrite Hnone. cbn beta iota. rewrite Hread. cbn [negb Z.eqb].
      M_step. rewrite Hparse. reflexivity.
    + now destruct s as [[]].
    + reflexivity.
    + intros other. unfold get_baseline_version, CacheSingle_get_lazy. M_step.
      reflexivity.
Qed.

End filesystem_baseline_extras.

(** ** Baselines, continued *)

Section baseline_parse_extras.
Import BaselineParse.
Context `{Externals}.

Lemma baseline_fold_keys (obj : Json.Obj) (acc : gmap string Version) r result r' :
  fold_left
    (fun (acc : gmap string Version * Json.Reader) (pr : string * Json.Value) =>
       let '(result, r) := acc in
       let '(version, r) :=
         Json.visit_in_key (snd pr) (fst pr) (mkVersion EmptyString 0)
           versiontag_deserializer r in
       (map_emplace (fst pr) version result, r))
    obj (acc, r) = (result, r') ->
  forall port, is_Some (result !! port) <-> is_Some (acc !! port) \/ In port (map fst obj).
Proof.
  revert acc r. induction obj as [|[key value] obj IH]; intros acc r; simpl.
  - intros [= <- <-] port. tauto.
  - destruct (Json.visit_in_key value key _ versiontag_deserializer r) as [version r1].
    intros Hfold port. rewrite (IH _ _ Hfold port), map_emplace_lookup.
    destruct (acc !! port) as [old|] eqn:Hold.
    + split; [intros _; left; now eexists | intros _; left; now eexists].
    + destruct (decide (key = port)) as [-> | Hne].
      * split; [intros _; right; now left | intros _; left; now eexists].
      * split.
        -- intros [[x Hx] | Hin]; [discriminate | right; now right].
        -- intros [[x Hx] | [Heq | Hin]]; [discriminate | congruence | now right].
Qed.

(** X22. A baseline that [parse_baseline_versions] returns has exactly the
    ports of the file: the contents parse to an object, the baseline asked
    for (["default"] for the empty name) is an object in it, and the ports
    that have a version in the result are the field names of that object.
    A baseline that is there but is not an object is an error, not an
    empty baseline and not a missing one: [FailedToParseBaseline] for the
    file, followed by the type error of the reader. *)
Theorem parse_baseline_versions_ports (contents baseline origin : string) :
  let real_baseline := if Strings.size baseline =? 0 then "default"%string else baseline in
  (forall result,
     parse_baseline_versions contents baseline origin = Value (Some result) ->
     exists top obj,
       Json_parse contents origin = Value (Json.Object top) /\
       Json.get top real_baseline = Some (Json.Object obj) /\
       forall port, is_Some (result !! port) <-> In port (map fst obj)) /\
  (forall top value,
     Json_parse contents origin = Value (Json.Object top) ->
     Json.get top real_baseline = Some value ->
     Json.is_object value = false ->
     parse_baseline_versions contents baseline origin =
       Error (append_raw (format_error "FailedToParseBaseline" [origin])
                (String "010"%char EmptyString)
              ++ join_lines [format "MismatchedType" [] ++ format "ABaselineObject" []])).
Proof.
  cbv zeta. split.
  - intros result. unfold parse_baseline_versions.
    destruct (Json_parse contents origin) as [[| | | | | |top]|]; try discriminate.
    cbv zeta.
    destruct (Json.get top _) as [baseline_value|] eqn:Hget; [| discriminate].
    unfold Json.visit_in_key at 1. cbn [Json.visit BaselineDeserializer].
    destruct baseline_value as [| | | | | |obj];
      try (unfold Json.add_expected_type_error; simpl; discriminate).
    unfold baseline_visit_object.
    match goal with
    | |- context [fold_left ?f obj ?a] =>
        destruct (fold_left f obj a) as [visited r] eqn:Hfold
    end.
    destruct r; [| discriminate]. intros [= <-].
    exists top, obj. split; [reflexivity |]. split; [exact Hget |].
    intros port. rewrite (baseline_fold_keys _ _ _ _ _ Hfold port), lookup_empty.
    split; [intros [[x Hx] | Hin]; [discriminate | exact Hin] | now right].
  - intros top value Hparse Hget Hkind. unfold parse_baseline_versions.
    rewrite Hparse. cbv zeta. rewrite Hget.
    now destruct value.
Qed.

End baseline_parse_extras.

(** ** Ports that no registry claims *)

Section unclaimed_ports.
Import Routing RegistrySetOps.
Context {Impl St : Type} `{RegistryImplementation Impl St}.

Lemma registry_for_port_unclaimed (rs : RegistrySet Impl) (name : string) :
  (forall r p, In r (registries rs) -> In p (patterns r) ->
               package_pattern_match name p = 0) ->
  registry_for_port rs name = default_registry rs.
Proof.
  intros Hnomatch. unfold registry_for_port. rewrite registries_for_port_sorted.
  assert (matching_registries name rs = []) as ->; [| reflexivity].
  unfold matching_registries.
  induction (registries rs) as [|r regs IH]; [reflexivity |]. simpl.
  assert (registry_score name r = 0) as ->.
  { unfold registry_score.
    destruct (longest_prefix_max name (patterns r)) as [_ [H0 | (p & Hin & ->)]];
      [exact H0 |].
    apply (Hnomatch r p); [now left | exact Hin]. }
  simpl. apply IH. intros r' p Hr'. apply Hnomatch. now right.
Qed.

(** X23. A port that no registry claims (no pattern of a configured
    registry matches its name, and there is no default registry) is
    answered without asking any implementation: [RegistrySet::get_port] and
    [get_all_port_versions] say "no such port", which their [_required]
    forms turn into errors, and [baseline_for_port] is the "no registry for
    port" error. *)
Theorem registry_set_unclaimed_port (rs : RegistrySet Impl) (spec : VersionSpec) (s : St) :
  default_registry rs = None ->
  (forall r p, In r (registries rs) -> In p (patterns r) ->
               package_pattern_match (port_name spec) p = 0) ->
  get_port rs spec s = Done (Value None, s) /\
  get_all_port_versions rs (port_name spec) s = Done (Value None, s) /\
  get_port_required rs spec s =
    Done (Error (format_error "VersionDatabaseEntryMissing"
                   [port_name spec; Version_to_string (version spec)]), s) /\
  get_all_port_versions_required rs (port_name spec) s =
    Done (Error (format_error "VersionDatabaseEntriesMissing" [port_name spec]), s) /\
  baseline_for_port rs (port_name spec) s =
    Done (Error (ErrorPrefix :: format "NoRegistryForPort" [port_name spec]), s).
Proof.
  intros Hdefault Hnomatch.
  pose proof (registry_for_port_unclaimed rs (port_name spec) Hnomatch) as Hnone.
  rewrite Hdefault in Hnone.
  unfold get_port_required, get_all_port_versions_required, get_port,
    get_all_port_versions, baseline_for_port.
  M_step. rewrite Hnone. now repeat split.
Qed.

End unclaimed_ports.

(** ** Commit shas *)

Section commit_sha.

Lemma is_lcase_ascii_hex_spec (ch : ascii) :
  is_lcase_ascii_hex ch = true <-> In ch (list_ascii_of_string "0123456789abcdef").
Proof.
  destruct ch as [[] [] [] [] [] [] [] []]; vm_compute;
    (split; [intros Hhex; try discriminate Hhex; tauto
            | intros Hin; try reflexivity;
              repeat (destruct Hin as [Heq | Hin]; [discriminate Heq |]); destruct Hin]).
Qed.

(** X24. [is_git_commit_sha] accepts exactly the strings of forty
    characters that are all among [0123456789abcdef]: a sha written with
    capital letters, or an abbreviated one, is not taken for a commit. *)
Theorem is_git_commit_sha_spec (sv : string) :
  is_git_commit_sha sv = true <->
  String.length sv = 40%nat /\
  forall ch, In ch (list_ascii_of_string sv) ->
             In ch (list_ascii_of_string "0123456789abcdef").
Proof.
  unfold is_git_commit_sha, Strings.size.
  rewrite andb_true_iff, Z.eqb_eq, forallb_forall.
  split; intros [Hlen Hall]; (split; [lia |]); intros ch Hin;
    apply is_lcase_ascii_hex_spec; auto.
Qed.

End commit_sha.

(** ** The builtin versions tree, read twice *)

Section builtin_versions_extras.
Import GitRegistry BuiltinGitRegistry.
Context `{Collaborators}.

Lemma load_versions_file_git_Done fs registry_versions name result :
  VersionDb.load_versions_file fs VersionDb.Git registry_versions name EmptyString
    = Done result ->
  exists relative, VersionDb.relative_path_to_versions name = Done relative.
Proof.
  unfold VersionDb.load_versions_file.
  rewrite bool_decide_eq_false_2 by discriminate. cbn [andb].
  destruct (VersionDb.relative_path_to_versions name) as [relative|h]; [| discriminate].
  intros _. now exists relative.
Qed.

(** X25. [get_builtin_versions] and the builtin git registry read the
    same file and agree: for a port whose versions the registry has not
    cached yet, [BuiltinGitRegistry::get_versions] returns what
    [get_builtin_versions] returns for the versions directory of the
    registry, the same error, "no versions file", or the same versions and
    git trees entry by entry, in the order of the file. *)
Theorem builtin_versions_agree (name : string) (s : State)
    (result : ExpectedL (option (list (SchemedVersion * string)))) :
  m_versions s !! name = None ->
  BaselineFile.get_builtin_versions
    (get_filesystem (Lock.world (BuiltinFilesRegistry.m_paths (m_files_impl s))))
    (builtin_registry_versions s) name = Done result ->
  exists s',
    get_versions name s =
      Done (expected_map
              (fmap (fun versions =>
                       mkSoA (map (fun pr => sv_version (fst pr)) versions)
                             (map snd versions)))
              result, s') /\
    m_files_impl s' = m_files_impl s /\ git_commands s' = git_commands s.
Proof.
  intros Hnone. unfold BaselineFile.get_builtin_versions.
  destruct (VersionDb.load_versions_file _ VersionDb.Git (builtin_registry_versions s) name "")
    as [loaded|h] eqn:Hfile; [| discriminate].
  destruct (load_versions_file_git_Done _ _ _ _ Hfile) as [relative Hrelative].
  intros Hresult.
  unfold get_versions, Cache_get_lazy. M_step. rewrite Hnone, Hrelative. cbn beta iota.
  rewrite Hfile.
  destruct loaded as [[versions|]|e]; injection Hresult as <-; M_step;
    (eexists; split;
     [cbn [expected_map fmap option_fmap option_map];
      rewrite ?assign_eq, ?map_map; reflexivity
     | now split]).
Qed.

End builtin_versions_extras.

(** ** A git registry that is up to date *)

Section git_up_to_date.
Import Lock GitRegistry.
Context `{Externals}.

Lemma ensure_up_to_date_fresh lock_entry d s :
  entry_data (installed_lockfile (m_paths s)) lock_entry = Some d ->
  stale d = false ->
  on_paths (ensure_up_to_date lock_entry) s = Done (Value tt, s).
Proof.
  intros Hd Hfresh. unfold on_paths, ensure_up_to_date, deref. M_step.
  rewrite Hd, Hfresh. now destruct s.
Qed.

Lemma get_live_versions_tree_path_fresh lock_entry d s r s' :
  m_lock_entry (this s) = Some (Value lock_entry) ->
  entry_data (installed_lockfile (m_paths s)) lock_entry = Some d ->
  stale d = false ->
  get_live_versions_tree_path s = Done (r, s') ->
  not_refreshed s s'.
Proof.
  intros Hentry Hd Hfresh. unfold get_live_versions_tree_path. intros Hrun.
  apply CacheSingle_get_lazy_Done in Hrun as [[_ ->] | (_ & sc & Hload & ->)];
    [apply not_refreshed_refl |].
  unfold mbind, M_mbind in Hload.
  rewrite (M_bind_run _ _ _ _ _ (get_lock_entry_cached s _ Hentry)) in Hload.
  rewrite (M_bind_run _ _ _ _ _ (ensure_up_to_date_fresh _ _ _ Hd Hfresh)) in Hload.
  apply get_versions_tree_from_entry_frame in Hload as [_ Hquiet].
  eapply not_refreshed_same_paths; [exact Hquiet | reflexivity].
Qed.

(** X26. With a lock entry that is up to date, [GitRegistry::get_port]
    goes straight to the live version database and needs no network: the
    call is the live lookup, no fetch runs, the lock file is as it was,
    and the stale cache is not filled. *)
Theorem git_get_port_up_to_date (spec : VersionSpec) (s s' : State)
    (lock_entry : Entry) (d : EntryData) (r : ExpectedL (option PathAndLocation)) :
  m_lock_entry (this s) = Some (Value lock_entry) ->
  entry_data (installed_lockfile (m_paths s)) lock_entry = Some d ->
  stale d = false ->
  get_port spec s = Done (r, s') ->
  get_port spec s = get_port_live spec s /\
  not_refreshed s s' /\
  m_stale_versions (this s') = m_stale_versions (this s).
Proof.
  intros Hentry Hd Hfresh Hrun.
  assert (get_port spec s = get_port_live spec s) as Hlive.
  { unfold get_port, mbind, M_mbind.
    rewrite (M_bind_run _ _ _ _ _ (get_lock_entry_cached s _ Hentry)).
    rewrite (M_bind_run _ _ _ _ _ (entry_stale_run _ _ _ Hd)).
    now rewrite Hfresh. }
  split; [exact Hlive |]. rewrite Hlive in Hrun. unfold get_port_live in Hrun.
  apply M_bind_Done in Hrun as (mm & s1 & Hversions & Htail).
  pose proof (get_live_versions_Done _ _ _ _ Hversions) as (_ & _ & Hstale).
  unfold get_live_versions in Hversions.
  apply M_bind_Done in Hversions as (maybe_vdb & sb & Htree & Hlookup).
  apply (get_live_versions_tree_path_fresh _ _ _ _ _ Hentry Hd Hfresh) in Htree.
  apply live_versions_lookup_paths in Hlookup.
  assert (not_refreshed s s1) as Hquiet1
    by (eapply not_refreshed_same_paths; [exact Htree | now rewrite Hlookup]).
  assert (this s' = this s1 \/ s' = s1) as Hthis.
  { destruct mm as [[versions|]|e].
    - destruct (try_get_git_tree versions (version spec)) as [git_tree|].
      + left. now apply load_git_tree_frame in Htail as [Hthis _].
      + right. now injection Htail as _ <-.
    - right. now injection Htail as _ <-.
    - right. now injection Htail as _ <-. }
  apply get_port_live_tail_frame in Htail.
  split; [eapply not_refreshed_trans; eassumption |].
  destruct Hthis as [-> | ->]; exact Hstale.
Qed.

End git_up_to_date.

(** ** The builtin baseline *)

Section builtin_baseline_extras.
Import Lock BaselineFile.
Context `{Externals}.

(** X27. [get_builtin_baseline] gives a baseline only when
    [<versions>/baseline.json] can be read, parses, and has a baseline named
    ["default"]; it then prints nothing and changes nothing. A file that is
    not there is not reported as such: one line is printed, and the result
    is the error that the file has no default field, the same as for a file
    without a ["default"] baseline. *)
Theorem get_builtin_baseline_needs_default (builtin_registry_versions : Path) (s s' : Paths)
    (r : ExpectedL (gmap string Version)) :
  get_builtin_baseline builtin_registry_versions s = Done (r, s') ->
  let baseline_path := builtin_registry_versions </> "baseline.json" in
  let contents := fst (read_contents (get_filesystem (world s)) baseline_path) in
  let ec := snd (read_contents (get_filesystem (world s)) baseline_path) in
  (forall baseline, r = Value baseline ->
     s' = s /\ ec = 0 /\
     BaselineParse.parse_baseline_versions contents "default" baseline_path
       = Value (Some baseline)) /\
  (ec = no_such_file_or_directory ->
     r = Error (format_error "BaselineFileNoDefaultFieldPath" [baseline_path]) /\
     trace s' = trace s ++ [Println (format "FailedToFindBaseline" [])]) /\
  (ec = 0 ->
   BaselineParse.parse_baseline_versions contents "default" baseline_path = Value None ->
     r = Error (format_error "BaselineFileNoDefaultFieldPath" [baseline_path]) /\ s' = s).
Proof.
  unfold get_builtin_baseline, load_baseline_versions, log. M_step.
  destruct (read_contents (get_filesystem (world s)) _) as [contents ec]. cbn [fst snd].
  destruct (Z.eqb_spec ec 0) as [-> | Hec]; cbn [negb].
  - change (BaselineParse.parse_baseline_versions contents ""
              (builtin_registry_versions </> "baseline.json"))
      with (BaselineParse.parse_baseline_versions contents "default"
              (builtin_registry_versions </> "baseline.json")).
    M_step.
    destruct (BaselineParse.parse_baseline_versions contents "default" _)
      as [[baseline|]|e]; intros [= <- <-]; (split; [| split]);
      try discriminate; try (intros; now repeat split).
    intros b [= <-]. now repeat split.
  - destruct (Z.eqb_spec ec no_such_file_or_directory) as [-> | Hother]; M_step;
      intros [= <- <-]; (split; [| split]); try discriminate; try congruence.
    intros _. now split.
Qed.

End builtin_baseline_extras.

(** ** The properties on the small worlds *)

Section lock_witnesses.
Import Lock Online.

(** The registry is asked for at [release]: the fetch gives the commit,
    and the entry of [main] is still there. *)
Lemma get_or_fetch_entry_witness :
  get_or_fetch registry_url "release" paths
    = Done (Value (mkEntryRef registry_url 1), paths_with_release) /\
  entry_data (installed_lockfile paths_with_release) (mkEntryRef registry_url 1)
    = Some (mkEntryData "release" "commit-1" false) /\
  entry_data (installed_lockfile paths_with_release) lock_entry
    = Some (mkEntryData "main" "commit-0" true).
Proof.
  assert (get_or_fetch registry_url "release" paths
          = Done (Value (mkEntryRef registry_url 1), paths_with_release)) as Hrun
    by (vm_compute; reflexivity).
  destruct (get_or_fetch_entry _ _ _ _ _ Hrun) as (_ & _ & Hkept & _).
  split; [exact Hrun |]. split; [vm_compute; reflexivity |].
  apply Hkept. vm_compute. reflexivity.
Defined.

Lemma get_or_fetch_again_witness :
  get_or_fetch registry_url "release" paths_with_release
    = Done (Value (mkEntryRef registry_url 1), paths_with_release).
Proof.
  apply (get_or_fetch_again registry_url "release" paths).
  vm_compute. reflexivity.
Defined.

Lemma ensure_up_to_date_refreshes_witness :
  exists s',
    ensure_up_to_date lock_entry paths = Done (Value tt, s') /\
    entry_data (installed_lockfile s') lock_entry
      = Some (mkEntryData "main" "commit-1" false) /\
    ensure_up_to_date lock_entry s' = Done (Value tt, s').
Proof.
  destruct (ensure_up_to_date_refreshes lock_entry paths
              (mkEntryData "main" "commit-0" true) "commit-1" tt)
    as (s' & Hrun & Hdata & _ & _ & Hagain);
    [vm_compute; reflexivity | reflexivity | reflexivity |].
  exists s'. split; [exact Hrun |]. split; [exact Hdata | exact Hagain].
Defined.

End lock_witnesses.

Section filesystem_witnesses.
Import Lock FilesystemRegistry Online.

Lemma filesystem_registry_well_formed : entries_well_formed filesystem_registry.
Proof.
  intros name entry Hcached. unfold filesystem_registry in Hcached.
  cbn [m_entries] in Hcached. rewrite lookup_empty in Hcached. discriminate.
Qed.

(** [zlib] 1.2 of the registry under [/local]. *)
Lemma filesystem_get_port_confined_witness :
  entries_well_formed filesystem_registry /\
  get_port zlib_1_2 filesystem_registry
    = Done (Value (Some (mkPathAndLocation "/local/ports/zlib/1.2" "")),
            filesystem_registry_listed) /\
  confined_to "/local" "/local/ports/zlib/1.2".
Proof.
  assert (get_port zlib_1_2 filesystem_registry
          = Done (Value (Some (mkPathAndLocation "/local/ports/zlib/1.2" "")),
                  filesystem_registry_listed)) as Hrun
    by (vm_compute; reflexivity).
  destruct (filesystem_get_port_confined zlib_1_2 filesystem_registry
              filesystem_registry_well_formed) as [Hconfined _].
  destruct (Hconfined _ _ Hrun) as (_ & _ & _ & Hport).
  destruct (Hport _ eq_refl) as [_ Hpath].
  split; [exact filesystem_registry_well_formed |]. split; [exact Hrun | exact Hpath].
Defined.

Lemma filesystem_get_port_iff_listed_witness :
  get_all_port_versions "zlib" filesystem_registry
    = Done (Value (Some [mkVersion "1.3" 0; mkVersion "1.2" 0]),
            filesystem_registry_listed) /\
  (exists port,
     get_port zlib_1_2 filesystem_registry_listed
       = Done (Value (Some port), filesystem_registry_listed)) /\
  get_port (mkVersionSpec "zlib" (mkVersion "1.1" 0)) filesystem_registry_listed
    = Done (Value None, filesystem_registry_listed).
Proof.
  assert (get_all_port_versions "zlib" filesystem_registry
          = Done (Value (Some [mkVersion "1.3" 0; mkVersion "1.2" 0]),
                  filesystem_registry_listed)) as Hrun
    by (vm_compute; reflexivity).
  destruct (filesystem_get_port_iff_listed _ _ _ _ filesystem_registry_well_formed Hrun)
    as [_ Hversions].
  split; [exact Hrun |]. split.
  - apply (Hversions (mkVersion "1.2" 0)). simpl. right. now left.
  - apply (Hversions (mkVersion "1.1" 0)). simpl.
    intros [Heq | [Heq | []]]; discriminate Heq.
Defined.

Lemma filesystem_baseline_read_once_witness :
  exists s',
    get_baseline_version "zlib" filesystem_registry
      = Done (Value (Some (mkVersion "1.3" 0)), s') /\
    get_baseline_version "curl" s' = Done (Value None, s').
Proof.
  destruct (filesystem_baseline_read_once "zlib" filesystem_registry baseline_text 0)
    as [_ Hthere]; [reflexivity | reflexivity |].
  destruct (Hthere eq_refl baseline) as (s' & Hrun & _ & _ & Hlater);
    [vm_compute; reflexivity |].
  exists s'. split; [exact Hrun | exact (Hlater "curl"%string)].
Defined.

End filesystem_witnesses.

Section builtin_witnesses.
Import Lock Online.

(** The ports tree holds [zlib] 1.3: it is the baseline version, and it
    loads. *)
Lemma builtin_files_baseline_version_loads_witness :
  BuiltinFiles.get_baseline_version "zlib" builtin_files
    = Done (Value (Some (mkVersion "1.3" 0)), builtin_files_loaded) /\
  BuiltinFilesRegistry.get_port zlib_1_3 builtin_files_loaded
    = Done (Value (Some (mkPathAndLocation "/vcpkg/ports/zlib"
                           "git+https://github.com/Microsoft/vcpkg#ports/zlib")),
            builtin_files_loaded).
Proof.
  assert (BuiltinFiles.get_baseline_version "zlib" builtin_files
          = Done (Value (Some (mkVersion "1.3" 0)), builtin_files_loaded)) as Hrun
    by (vm_compute; reflexivity).
  destruct (builtin_files_baseline_version_loads _ _ _ _ Hrun)
    as (scf & Hcached & _ & _ & Hport).
  split; [exact Hrun |].
  vm_compute in Hcached. injection Hcached as <-. exact Hport.
Defined.

(** The versions tree lists [zlib] 1.2 only: version 1.3 is an error,
    though the ports tree holds it. *)
Lemma builtin_git_get_port_versions_file_decides_witness :
  BuiltinGitRegistry.get_versions "zlib" builtin_git
    = Done (Value (Some (GitRegistry.mkSoA [mkVersion "1.2" 0] ["tree-zlib-1.2"%string])),
            builtin_git_with_zlib) /\
  (exists e, BuiltinGitRegistry.get_port zlib_1_3 builtin_git
             = Done (Error e, builtin_git_with_zlib)) /\
  BuiltinFilesRegistry.get_port zlib_1_3 builtin_files
    = Done (Value (Some (mkPathAndLocation "/vcpkg/ports/zlib"
                           "git+https://github.com/Microsoft/vcpkg#ports/zlib")),
            builtin_files_loaded).
Proof.
  assert (BuiltinGitRegistry.get_versions (port_name zlib_1_3) builtin_git
          = Done (Value (Some (GitRegistry.mkSoA [mkVersion "1.2" 0]
                                 ["tree-zlib-1.2"%string])),
                  builtin_git_with_zlib)) as Hrun
    by (vm_compute; reflexivity).
  destruct (builtin_git_get_port_versions_file_decides _ _ _ _ Hrun) as (_ & _ & Hcase).
  split; [exact Hrun |]. split; [exact Hcase |]. vm_compute. reflexivity.
Defined.

Lemma builtin_versions_agree_witness :
  BaselineFile.get_builtin_versions tt "/vcpkg/versions" "zlib"
    = Done (Value (Some [(mkSchemedVersion SchemeRelaxed (mkVersion "1.2" 0),
                          "tree-zlib-1.2"%string)])) /\
  exists s',
    BuiltinGitRegistry.get_versions "zlib" builtin_git
      = Done (Value (Some (GitRegistry.mkSoA [mkVersion "1.2" 0] ["tree-zlib-1.2"%string])),
              s').
Proof.
  assert (BaselineFile.get_builtin_versions tt "/vcpkg/versions" "zlib"
          = Done (Value (Some [(mkSchemedVersion SchemeRelaxed (mkVersion "1.2" 0),
                                "tree-zlib-1.2"%string)]))) as Hrun
    by (vm_compute; reflexivity).
  destruct (builtin_versions_agree "zlib" builtin_git _ eq_refl Hrun) as (s' & Hversions & _).
  split; [exact Hrun |]. exists s'. exact Hversions.
Defined.

End builtin_witnesses.

Section git_witnesses.
Import Lock GitRegistry Scenario.

(** [curl] 8.0 comes from the stale database of the first small world. *)
Lemma git_get_port_listed_witness :
  exists versions git_tree,
    (m_stale_versions (this git_registry_after_curl) !! "curl"%string
       = Some (Value (Some versions)) \/
     m_live_versions (this git_registry_after_curl) !! "curl"%string
       = Some (Value (Some versions))) /\
    try_get_git_tree versions (mkVersion "8.0" 0) = Some git_tree /\
    "git+https://example.com/registry@tree-curl-8"%string
      = "git+" +:+ registry_url +:+ "@" +:+ git_tree.
Proof.
  assert (get_port curl_8 git_registry =
          Done (Value (Some (mkPathAndLocation "/registries/tree-curl-8"
                               "git+https://example.com/registry@tree-curl-8")),
                git_registry_after_curl)) as Hrun
    by (vm_compute; reflexivity).
  exact (git_get_port_listed _ _ _ _ Hrun).
Defined.

(** The versions of [curl] are not taken from the stale database: the
    remote cannot be reached, and the answer is the error of the fetch. *)
Lemma git_get_all_port_versions_live_witness :
  GitRegistryImplementation.get_all_port_versions "curl" git_registry_locked
    = Done (Error (from_raw "could not reach the remote"),
            Offline.git_registry_after_versions) /\
  refresh_forced registry_url "main" git_registry_locked
    Offline.git_registry_after_versions.
Proof.
  assert (GitRegistryImplementation.get_all_port_versions "curl" git_registry_locked
          = Done (Error (from_raw "could not reach the remote"),
                  Offline.git_registry_after_versions)) as Hrun
    by (vm_compute; reflexivity).
  destruct (git_get_all_port_versions_live "curl" git_registry_locked
              Offline.git_registry_after_versions lock_entry
              (mkEntryData "main" "commit-0" true)
              (Error (from_raw "could not reach the remote"))) as [Hforced _];
    [vm_compute; reflexivity | vm_compute; reflexivity | reflexivity | reflexivity
    | exact Hrun |].
  split; [exact Hrun | exact Hforced].
Defined.

End git_witnesses.

Section git_up_to_date_witnesses.
Import Lock GitRegistry Online.

(** The refreshed registry has no [zlib]: the answer takes no fetch. *)
Lemma git_get_port_up_to_date_witness :
  get_port zlib_1_3 git_registry_up_to_date = Done (Value None, git_registry_asked) /\
  not_refreshed git_registry_up_to_date git_registry_asked.
Proof.
  assert (get_port zlib_1_3 git_registry_up_to_date = Done (Value None, git_registry_asked))
    as Hrun by (vm_compute; reflexivity).
  destruct (git_get_port_up_to_date zlib_1_3 git_registry_up_to_date git_registry_asked
              lock_entry (mkEntryData "main" "commit-1" false) (Value None))
    as (_ & Hquiet & _);
    [reflexivity | vm_compute; reflexivity | reflexivity | exact Hrun |].
  split; [exact Hrun | exact Hquiet].
Defined.

End git_up_to_date_witnesses.

Section git_baseline_witnesses.
Import Lock GitRegistry GitRegistryImplementation Online.

Lemma git_baseline_must_be_sha_witness :
  exists e,
    get_baseline_version "zlib" (git_registry "main")
      = Done (Error e, git_registry_no_sha) /\
    get_baseline_version "curl" git_registry_no_sha = Done (Error e, git_registry_no_sha).
Proof.
  assert (get_baseline_version "zlib" (git_registry "main")
          = Done (Error (format_error "GitRegistryMustHaveBaseline"
                           [registry_url; "commit-1"%string]),
                  git_registry_no_sha)) as Hrun
    by (vm_compute; reflexivity).
  destruct (git_baseline_must_be_sha "zlib" (git_registry "main") _ _
              eq_refl eq_refl Hrun) as (e & He & _ & Hlater).
  exists e. split; [now rewrite <- He | exact (Hlater "curl"%string)].
Defined.

Lemma git_baseline_first_show_witness :
  exists s',
    get_baseline_version "zlib" (git_registry baseline_sha)
      = Done (Value (Some (mkVersion "1.3" 0)), s') /\
    git_commands s' = [GitShowFromRemoteRegistry baseline_sha "versions/baseline.json"] /\
    not_refreshed (registry (git_registry baseline_sha)) (registry s') /\
    m_baseline s' = Some (Value baseline) /\
    get_baseline_version "curl" s' = Done (Value None, s').
Proof.
  destruct (git_baseline_first_show "zlib" (git_registry baseline_sha) baseline_text tt)
    as (s' & Hrun & Hcommands & _ & Hquiet & Hkept & Hlater);
    [reflexivity | vm_compute; reflexivity | vm_compute; reflexivity |].
  exists s'. split; [exact Hrun |]. split; [exact Hcommands |]. split; [exact Hquiet |].
  split; [exact Hkept | exact (Hlater "curl"%string)].
Defined.

(** Git does not have the baseline commit: three [git show], one
    [git fetch], and the error is counted. *)
Lemma git_baseline_gives_up_witness :
  git_commands git_registry_gave_up =
    [GitShowFromRemoteRegistry unknown_sha "versions/baseline.json";
     GitShowFromRemoteRegistry unknown_sha "versions/baseline.json";
     GitFetch registry_url unknown_sha;
     GitShowFromRemoteRegistry unknown_sha "versions/baseline.json"] /\
  exists e,
    get_baseline_version "zlib" (git_registry unknown_sha)
      = Done (Error e, git_registry_gave_up) /\
    m_baseline git_registry_gave_up = Some (Error e) /\
    e = append_raw
          (format_error "CouldNotFindBaselineInCommit"
             [registry_url; unknown_sha; "zlib"%string])
          (String "010"%char EmptyString)
        ++ from_raw "no such object" /\
    last (trace (m_paths (registry git_registry_gave_up)))
      = Some (TrackDefine "RegistriesErrorCouldNotFindBaseline").
Proof.
  assert (exists r, get_baseline_version "zlib" (git_registry unknown_sha)
                    = Done (r, git_registry_gave_up)) as [r Hrun]
    by (eexists; vm_compute; reflexivity).
  destruct (git_baseline_gives_up "zlib" (git_registry unknown_sha)
              git_registry_gave_up r)
    as (e & Hr & Hkept & _ & Hsteps);
    [reflexivity | reflexivity
    | intros w; exists (from_raw "no such object"); reflexivity
    | exact Hrun |].
  vm_compute in Hsteps. destruct Hsteps as (e_show & [= <-] & He & _ & Hcommands).
  split; [exact Hcommands |].
  exists e. split; [now rewrite <- Hr |]. split; [exact Hkept |].
  split; [exact He | vm_compute; reflexivity].
Defined.

End git_baseline_witnesses.

Section listing_witnesses.
Import Routing RegistrySetOps Listing.

Lemma get_all_reachable_port_names_sorted_reachable_witness :
  get_all_reachable_port_names
    (mkRegistrySet
       [mkRegistry ["boost-*"%string; "zlib"%string]
          (Listed ["boost-asio"; "openssl"; "zlib"; "boost-asio"]%string);
        mkRegistry ["fmt"%string] Remote]
       (Some (Listed ["zlib"; "curl"]%string))) tt
    = Done (Value ["boost-asio"; "curl"; "zlib"]%string, tt) /\
  StronglySorted string_lt ["boost-asio"; "curl"; "zlib"]%string /\
  NoDup ["boost-asio"; "curl"; "zlib"]%string.
Proof.
  assert (get_all_reachable_port_names
            (mkRegistrySet
               [mkRegistry ["boost-*"%string; "zlib"%string]
                  (Listed ["boost-asio"; "openssl"; "zlib"; "boost-asio"]%string);
                mkRegistry ["fmt"%string] Remote]
               (Some (Listed ["zlib"; "curl"]%string))) tt
          = Done (Value ["boost-asio"; "curl"; "zlib"]%string, tt)) as Hrun
    by (vm_compute; reflexivity).
  destruct (get_all_reachable_port_names_sorted_reachable _ _ _ _ Hrun)
    as (Hsorted & Hnodup & _).
  split; [exact Hrun |]. split; [exact Hsorted | exact Hnodup].
Defined.

(** Without the network the remote registry gives no names: its exact
    pattern [fmt] is taken for one. *)
Lemma get_all_known_reachable_port_names_exact_patterns_witness :
  get_all_known_reachable_port_names_no_network
    (mkRegistrySet
       [mkRegistry ["boost-*"%string; "zlib"%string]
          (Listed ["boost-asio"; "openssl"; "zlib"]%string);
        mkRegistry ["fmt"%string; "qt*"%string] Remote]
       None) tt
    = Done (Value ["boost-asio"; "fmt"; "zlib"]%string, tt) /\
  "fmt"%string ∈ ["boost-asio"; "fmt"; "zlib"]%string.
Proof.
  assert (get_all_known_reachable_port_names_no_network
            (mkRegistrySet
               [mkRegistry ["boost-*"%string; "zlib"%string]
                  (Listed ["boost-asio"; "openssl"; "zlib"]%string);
                mkRegistry ["fmt"%string; "qt*"%string] Remote]
               None) tt
          = Done (Value ["boost-asio"; "fmt"; "zlib"]%string, tt)) as Hrun
    by (vm_compute; reflexivity).
  destruct (get_all_known_reachable_port_names_exact_patterns _ _ _ _
              (mkRegistry ["fmt"%string; "qt*"%string] Remote) Hrun) as [_ Hexact].
  - simpl. right. now left.
  - intros s0 exhaustive listed s1 Htry. now injection Htry as <- _ _.
  - split; [exact Hrun |]. apply Hexact.
    + simpl. now left.
    + discriminate.
    + intros prefix Heq.
      destruct (string_snoc_inj "fm" prefix "t" "*" Heq) as [_ Hc]. discriminate Hc.
Defined.

(** No registry claims [zlib], and there is no default registry. *)
Lemma registry_set_unclaimed_port_witness :
  get_port (mkRegistrySet [mkRegistry ["boost-*"%string; "fmt"%string] Remote] None)
    (mkVersionSpec "zlib" (mkVersion "1.3" 0)) tt = Done (Value None, tt) /\
  baseline_for_port (mkRegistrySet [mkRegistry ["boost-*"%string; "fmt"%string] Remote] None)
    "zlib" tt
    = Done (Error (ErrorPrefix :: format "NoRegistryForPort" ["zlib"%string]), tt).
Proof.
  destruct (registry_set_unclaimed_port
              (mkRegistrySet [mkRegistry ["boost-*"%string; "fmt"%string] Remote] None)
              (mkVersionSpec "zlib" (mkVersion "1.3" 0)) tt)
    as (Hport & _ & _ & _ & Hbaseline); [reflexivity | |].
  - intros r p [<- | []] Hp. simpl in Hp.
    destruct Hp as [<- | [<- | []]]; vm_compute; reflexivity.
  - split; [exact Hport | exact Hbaseline].
Defined.

End listing_witnesses.

Section overlay_witnesses.
Import Lock Provider Online.

Lemma overlay_provider_named : overlay_cache_named overlay_provider.
Proof.
  intros key scfl scf Hcached. unfold overlay_provider in Hcached.
  cbn [m_overlay_cache] in Hcached. rewrite lookup_empty in Hcached. discriminate.
Qed.

Lemma overlay_get_control_file_named_witness :
  overlay_get_control_file "fmt" overlay_provider
    = Done (Value (InOverlayCache "fmt"), overlay_provider_asked) /\
  overlay_cache_named overlay_provider_asked /\
  overlay_get_control_file "fmt" overlay_provider_asked
    = Done (Value (InOverlayCache "fmt"), overlay_provider_asked).
Proof.
  assert (overlay_get_control_file "fmt" overlay_provider
          = Done (Value (InOverlayCache "fmt"), overlay_provider_asked)) as Hrun
    by (vm_compute; reflexivity).
  destruct (overlay_get_control_file_named _ _ _ _ overlay_provider_named Hrun)
    as (Hnamed & _ & Hagain).
  split; [exact Hrun |]. split; [exact Hnamed |].
  exact (Hagain (m_paths overlay_provider_asked)).
Defined.

Lemma overlay_load_all_control_files_only_adds_witness :
  overlay_load_extends ∅ overlay_provider overlay_all overlay_provider_loaded.
Proof.
  apply overlay_load_all_control_files_only_adds. vm_compute. reflexivity.
Defined.

(** Both overlays are the port [fmt]: the map of all the ports has the
    recipe of the second, the lookup by name gives that of the first. *)
Lemma overlay_load_all_last_overlay_first_witness :
  overlay_all !! "fmt"%string = Some (InOverlayCache "fmt") /\
  m_overlay_cache overlay_provider_loaded !! "fmt"%string = Some (Value fmt_b) /\
  load_port "fmt" overlay_provider = Done (Value fmt_a, overlay_provider).
Proof.
  destruct (overlay_load_all_last_overlay_first ∅ overlay_all overlay_provider
              overlay_provider_loaded ["/overlay-a"%string] "/overlay-b" fmt_b
              (mkScf "fmt" (mkVersion "10.0-b" 0)))
    as (Hout & Hcache & Hfirst);
    [reflexivity | reflexivity | reflexivity | reflexivity | reflexivity
    | vm_compute; reflexivity |].
  split; [exact Hout |]. split; [exact Hcache |].
  exact (Hfirst "/overlay-a"%string [] fmt_a (mkScf "fmt" (mkVersion "10.0-a" 0))
           eq_refl eq_refl eq_refl eq_refl).
Defined.

End overlay_witnesses.

Section baseline_witnesses.
Import BaselineParse Online.

Lemma parse_baseline_versions_ports_witness :
  parse_baseline_versions baseline_text "" "versions/baseline.json" = Value (Some baseline) /\
  (is_Some (baseline !! "zlib"%string) <->
   In "zlib"%string
     (map fst [("zlib"%string, Json.Object [("baseline"%string, Json.Str "1.3")])])) /\
  parse_baseline_versions flat_baseline_text "" "versions/baseline.json" =
    Error (append_raw (format_error "FailedToParseBaseline" ["versions/baseline.json"%string])
             (String "010"%char EmptyString)
           ++ join_lines [format "MismatchedType" [] ++ format "ABaselineObject" []]).
Proof.
  assert (parse_baseline_versions baseline_text "" "versions/baseline.json"
          = Value (Some baseline)) as Hrun
    by (vm_compute; reflexivity).
  destruct (proj1 (parse_baseline_versions_ports _ _ _) _ Hrun)
    as (top & obj & Htop & Hget & Hports).
  split; [exact Hrun |].
  vm_compute in Htop. injection Htop as <-.
  vm_compute in Hget. injection Hget as <-.
  split; [exact (Hports "zlib"%string) |].
  exact (proj2 (parse_baseline_versions_ports flat_baseline_text "" "versions/baseline.json")
           [("default"%string, Json.Str "1.3")] (Json.Str "1.3")
           eq_refl eq_refl eq_refl).
Defined.

(** The baseline file of [/local/versions], read as a builtin baseline. *)
Lemma get_builtin_baseline_needs_default_witness :
  BaselineFile.get_builtin_baseline "/local/versions" paths = Done (Value baseline, paths) /\
  parse_baseline_versions baseline_text "default" "/local/versions/baseline.json"
    = Value (Some baseline).
Proof.
  assert (BaselineFile.get_builtin_baseline "/local/versions" paths
          = Done (Value baseline, paths)) as Hrun
    by (vm_compute; reflexivity).
  destruct (get_builtin_baseline_needs_default _ _ _ _ Hrun) as (Hvalue & _ & _).
  destruct (Hvalue baseline eq_refl) as (_ & _ & Hparse).
  split; [exact Hrun | exact Hparse].
Defined.

End baseline_witnesses.
